(** * HUPMon: the flow-control filter, the CPR prober and the mediator loop

    A shallow embedding of [hupmon.c].  The three functions that carry the
    program's logic are embedded here:

    - [flow_control_preprocessor], the in-place XON/XOFF filter;
    - [ping_tty], the Cursor Position Report prober and its ten-step
      validator;
    - the main loop of [wrap], which polls the terminal and the child's
      pseudo-terminal.

    System calls are modelled by what they return: every call the C code
    makes takes its result from an explicit environment record, and every
    call with an outside effect is logged as an [event].  Values of type
    [double] are binary64 floats, [int] and [ssize_t] values are integers in
    [Z], and a [char] is the value of its byte, between 0 and 255. *)

From Stdlib Require Import ZArith Floats.
From stdpp Require Import base option list.

Set Warnings "-inexact-float".
Set Default Proof Using "Type".
Open Scope Z_scope.

(** ** Characters and buffers *)

(** [#define XON '\021'], [#define XOFF '\023'], [#define ESC '\033']. *)
Definition XON : Z := 17.
Definition XOFF : Z := 19.
Definition ESC : Z := 27.

(** [#define CPRSIZE 10]. *)
Definition CPRSIZE : Z := 10.

(** [a[i]] read from a C array: defined only inside the array. *)
Definition load (a : list Z) (i : Z) : option Z :=
  if decide (0 <= i) then a !! Z.to_nat i else None.

(** [a[i] = x] on a C array: defined only inside the array. *)
Definition store (a : list Z) (i : Z) (x : Z) : option (list Z) :=
  if decide (0 <= i < Z.of_nat (length a)) then Some (<[Z.to_nat i := x]> a)
  else None.

(** ** The flow-control filter *)

Module Flow.

(** The variables of [flow_control_preprocessor] that change in its loop:
    the buffer behind [bytes], the offset [cursor - bytes] and [*txok]. *)
Record state := State {
  bytes : list Z;
  cursor : Z;
  txok : Z
}.

(** One turn of [for (n = 0; n < *length; n++)]. *)
Definition body (st : state) (n : Z) : option state :=
  b ← load (bytes st) n;
  if decide (b ≠ XON ∧ b ≠ XOFF) then
    bytes' ← store (bytes st) (cursor st) b;
    Some (State bytes' (cursor st + 1) (txok st))
  else
    Some (State (bytes st) (cursor st) (Z.b2z (bool_decide (b = XON)))).

(** The loop over [n = 0 .. *length - 1]; [*length] is not assigned inside
    it, so the turns are the members of [seqZ 0 length]. *)
Definition loop (st : state) (length : Z) : option state :=
  foldl (λ acc n, acc ≫= λ st, body st n) (Some st) (seqZ 0 length).

(** [flow_control_preprocessor(bytes, &length, &txok)]: the buffer, the
    length and the flag after the call, or [None] when the call reads or
    writes outside the buffer. *)
Definition flow_control_preprocessor (bytes : list Z) (length : Z) (txok : Z)
  : option (list Z * Z * Z) :=
  st ← loop (State bytes 0 txok) length;
  Some (Flow.bytes st, cursor st, Flow.txok st).

(** A byte the filter keeps. *)
Definition data_byte (b : Z) : Prop := b ≠ XON ∧ b ≠ XOFF.

#[global] Instance data_byte_dec b : Decision (data_byte b).
Proof. unfold data_byte. apply _. Defined.

(** The flag as the flow-control bytes of [l] leave it, read left to
    right. *)
Definition flag_after (txok : Z) (l : list Z) : Z :=
  foldl (λ t b, if decide (b = XON) then 1 else if decide (b = XOFF) then 0 else t)
        txok l.

End Flow.


(** ** Numbers, clocks and terminal attributes *)

(** The range of [int]. *)
Definition INT_MIN : Z := -2147483648.
Definition INT_MAX : Z := 2147483647.

(** [(int) x] for a [double] [x]: the fraction is dropped.  C leaves the
    conversion undefined when the result does not fit; x86-64 then yields
    [INT_MIN], and so does this model. *)
Definition double_to_int (x : float) : Z :=
  match Prim2SF x with
  | S754_zero _ => 0
  | S754_finite s m e =>
      let mag := if decide (0 <= e) then Z.shiftl (Z.pos m) e
                 else Z.shiftr (Z.pos m) (- e) in
      let v := if s then - mag else mag in
      if decide (INT_MIN <= v <= INT_MAX) then v else INT_MIN
  | _ => INT_MIN
  end.

(** [(double) n] for a [long] [n]. *)
Definition long_to_double (n : Z) : float :=
  if decide (0 <= n) then PrimFloat.of_uint63 (Uint63.of_Z n)
  else (- PrimFloat.of_uint63 (Uint63.of_Z (- n)))%float.

(** An [int] result brought back into the range of [int] (two's
    complement). *)
Definition wrap_int (n : Z) : Z := (n - INT_MIN) mod 4294967296 + INT_MIN.

(** [struct timespec], and what [clock_gettime(CLOCK_MONOTONIC, &ts)]
    hands back: [None] when the call fails. *)
Record timespec := Timespec { tv_sec : Z; tv_nsec : Z }.

(** [timer()]. *)
Definition timer (clock : option timespec) : float :=
  match clock with
  | None => (-1)%float
  | Some ts => (long_to_double (tv_sec ts) + long_to_double (tv_nsec ts) / 1.0E9)%float
  end.

(** [struct termios], reduced to its input flags, and the flag bits of
    <termios.h> on Linux that the program and [cfmakeraw] touch. *)
Record termios := Termios { c_iflag : Z }.

Definition IXOFF : Z := 4096.

(** [cfmakeraw(3)] on the input flags: it clears IGNBRK, BRKINT, PARMRK,
    ISTRIP, INLCR, IGNCR, ICRNL and IXON, and leaves IXOFF alone. *)
Definition cfmakeraw (a : termios) : termios :=
  Termios (Z.land (c_iflag a) (Z.lnot 1515)).

(** [errno] values and [poll] bits of Linux, and the two signals sent. *)
Definition EINTR : Z := 4.
Definition POLLIN : Z := 1.
Definition POLLERR : Z := 8.
Definition POLLHUP : Z := 16.
Definition POLLNVAL : Z := 32.
Definition SIGHUP : Z := 1.
Definition SIGWINCH : Z := 28.
Definition BUFSIZ : Z := 8192.

(** [#define ISCONTROL(c)]: DEL, the C0 controls and the C1 controls. *)
Definition ISCONTROL (c : Z) : bool :=
  bool_decide (c = 127) || bool_decide (0 <= c <= 31) || bool_decide (128 <= c <= 159).

(** [#define ISDIGIT(c)]. *)
Definition ISDIGIT (c : Z) : bool := bool_decide (48 <= c <= 57).

(** [#define PFDALIVE(p)], on the [revents] of [p]. *)
Definition PFDALIVE (revents : Z) : bool :=
  bool_decide (Z.land revents (Z.lor POLLERR (Z.lor POLLHUP POLLNVAL)) = 0).

(** [ANSI_CPR], the four bytes ESC [ 6 n. *)
Definition ANSI_CPR : list Z := [27; 91; 54; 110].

(** ** System calls *)

Inductive descriptor := ttyfd | childfd.

#[global] Instance descriptor_eq_dec : EqDecision descriptor.
Proof. solve_decision. Defined.

Inductive optional_actions := TCSADRAIN | TCSAFLUSH.

(** The calls that act on the world, in the order the program makes them.
    [Poll nfds ms] polls the first [nfds] entries of the descriptor table
    (the terminal first, the child second); [Read fd n] asks for up to [n]
    bytes. *)
Inductive event :=
| Poll (nfds : Z) (timeout_ms : Z)
| Read (fd : descriptor) (count : Z)
| Write (fd : descriptor) (data : list Z)
| Tcsetattr (how : optional_actions) (attr : termios)
| Tcdrain
| SetWinsize
| Kill (sig : Z).

(** What [poll] returned: -1 with an [errno], 0, or a positive count with
    the [revents] of the terminal and of the child. *)
Inductive poll_result :=
| PollFailed (errno : Z)
| PollTimeout
| PollReady (revents0 revents1 : Z).

(** What [read] returned: the bytes it delivered (none at end of file), or
    -1 with an [errno]. *)
Inductive read_result :=
| ReadData (data : list Z)
| ReadFailed (errno : Z).

Inductive device_state_et :=
| DEVICE_STATUS_UNKNOWN
| DEVICE_OFFLINE
| DEVICE_ONLINE.

#[global] Instance device_state_eq_dec : EqDecision device_state_et.
Proof. solve_decision. Defined.

(** ** The CPR prober *)

Module Probe.

(** One pass through the head of the reply loop of [ping_tty]: the clock
    read by the loop condition, then the results of [poll] and [read] should
    the pass get that far. *)
Record turn := Turn {
  clock : option timespec;
  polled : poll_result;
  got : read_result
}.

(** Everything [ping_tty] asks of the system. *)
Record environment := Environment {
  tcgetattr : option termios;   (* the attributes, or failure *)
  tcsetattr_raw : bool;         (* raw mode applied *)
  write_cpr : bool;             (* the request written *)
  tcdrain : bool;               (* the request drained *)
  clock0 : option timespec;     (* the clock when the deadline is set *)
  script : list turn
}.

(** The locals of [ping_tty] that its loop changes; [eom] is the offset
    [eom - reply]. *)
Record locals := Locals {
  deadline : float;
  step : Z;
  eom : Z;
  reply : list Z;
  state : device_state_et
}.

(** The step the validator stands at once a short number has been
    compensated for. *)
Definition adjust (step byte : Z) : Z :=
  if bool_decide ((byte = 59 ∧ (step = 3 ∨ step = 4)) ∨
                  (byte = 82 ∧ (step = 7 ∨ step = 8)))
  then step + (Z.rem step 2 + 1)
  else step.

(** The conditional expression assigned to [valid]. *)
Definition valid (step byte : Z) : bool :=
  if bool_decide (step = 0) then bool_decide (byte = ESC)
  else if bool_decide (step = 1) then bool_decide (byte = 91)
  else if bool_decide (step = 2 ∨ step = 3 ∨ step = 4) then ISDIGIT byte
  else if bool_decide (step = 5) then bool_decide (byte = 59)
  else if bool_decide (step = 6 ∨ step = 7 ∨ step = 8) then ISDIGIT byte
  else if bool_decide (step = 9) then bool_decide (byte = 82)
  else false.

(** How a pass through the loop body ends. *)
Inductive flow :=
| Continue (st : locals)
| Break (st : locals)
| Overrun.

(** The body of [if ((received = read(...)) > 0)] for the byte read. *)
Definition accept (tty_attr : termios) (byte : Z) (st : locals) : flow :=
  let st := Locals (deadline st) (step st) (eom st) (reply st) DEVICE_ONLINE in
  if bool_decide (byte ≠ ESC) && ISCONTROL byte then
    if bool_decide (byte = XOFF) && bool_decide (Z.land (c_iflag tty_attr) IXOFF ≠ 0)
    then Continue (Locals (deadline st + 0.1)%float (step st) (eom st) (reply st) (state st))
    else Continue st
  else
    let step1 := adjust (step st) byte in
    let ok := valid step1 byte in
    match store (reply st) (eom st) byte with
    | None => Overrun
    | Some reply' =>
        if negb ok then
          Break (Locals (deadline st) step1 (eom st + 1) reply' (state st))
        else if bool_decide (step1 = 9) then
          Break (Locals (deadline st) (step1 + 1) 0 reply' (state st))
        else
          Continue (Locals (deadline st) (step1 + 1) (eom st + 1) reply' (state st))
    end.

(** The body of the [while] loop, and the calls it makes. *)
Definition body (tty_attr : termios) (polltimeoutms : Z) (io : turn) (st : locals)
  : flow * list event :=
  match polled io with
  | PollFailed errno =>
      (if bool_decide (errno = EINTR) then Continue st
       else Break (Locals (deadline st) (step st) (eom st) (reply st) DEVICE_STATUS_UNKNOWN),
       [Poll 1 polltimeoutms])
  | PollTimeout => (Break st, [Poll 1 polltimeoutms])
  | PollReady revents _ =>
      if negb (PFDALIVE revents) then (Break st, [Poll 1 polltimeoutms])
      else
        (match got io with
         | ReadData (byte :: _) => accept tty_attr byte st
         | ReadData [] => Break st
         | ReadFailed errno =>
             if bool_decide (errno = EINTR) then Continue st
             else Break (Locals (deadline st) (step st) (eom st) (reply st)
                                DEVICE_STATUS_UNKNOWN)
         end,
         [Poll 1 polltimeoutms; Read ttyfd 1])
  end.

(** How far the loop got on a script. *)
Inductive progress :=
| Finished (st : locals) (trace : list event)   (* the loop was left *)
| Starved (st : locals) (trace : list event)    (* the script ran out first *)
| Crashed.                                      (* a write past the buffer *)

(** [while ((polltimeoutms = (int) (1000 * (deadline - timer()))) > 0)]. *)
Fixpoint loop (tty_attr : termios) (script : list turn) (st : locals)
    (trace : list event) : progress :=
  match script with
  | [] => Starved st trace
  | io :: script' =>
      let polltimeoutms :=
        double_to_int (1000 * (deadline st - timer (clock io)))%float in
      if bool_decide (0 < polltimeoutms) then
        match body tty_attr polltimeoutms io st with
        | (Continue st', calls) => loop tty_attr script' st' (trace ++ calls)
        | (Break st', calls) => Finished st' (trace ++ calls)
        | (Overrun, _) => Crashed
        end
      else Finished st trace
  end.

(** What [ping_tty] leaves behind: its return value, the caller's buffer,
    the value stored through [length], and the calls made. *)
Record result := Result {
  returned : device_state_et;
  buffer : list Z;
  length : Z;
  calls : list event
}.

Inductive outcome :=
| Returns (r : result)
| Waits (st : locals) (trace : list event)
| Overruns.

(** [ping_tty(ttyfd, reply, &length, cprtimeout)]. *)
Definition ping_tty (env : environment) (reply : list Z) (cprtimeout : float)
  : outcome :=
  match tcgetattr env with
  | None => Returns (Result DEVICE_STATUS_UNKNOWN reply 0 [])
  | Some tty_attr =>
      let raw_tty_attr := cfmakeraw tty_attr in
      let enter := [Tcsetattr TCSAFLUSH raw_tty_attr] in
      if negb (tcsetattr_raw env) then
        Returns (Result DEVICE_STATUS_UNKNOWN reply 0 enter)
      else if negb (write_cpr env) then
        Returns (Result DEVICE_STATUS_UNKNOWN reply 0
                   (enter ++ [Write ttyfd ANSI_CPR; Tcsetattr TCSADRAIN tty_attr]))
      else if negb (tcdrain env) then
        Returns (Result DEVICE_STATUS_UNKNOWN reply 0
                   (enter ++ [Write ttyfd ANSI_CPR; Tcdrain; Tcsetattr TCSADRAIN tty_attr]))
      else
        let st := Locals (timer (clock0 env) + cprtimeout)%float 0 0 reply DEVICE_OFFLINE in
        match loop tty_attr (script env) st (enter ++ [Write ttyfd ANSI_CPR; Tcdrain]) with
        | Finished st trace =>
            Returns (Result (state st) (Probe.reply st) (eom st)
                       (trace ++ [Tcsetattr TCSADRAIN tty_attr]))
        | Starved st trace => Waits st trace
        | Crashed => Overruns
        end
  end.

End Probe.

(** ** The reply the prober expects, and how a script delivers bytes *)

Module Cpr.

(** The Cursor Position Report as the wire protocol words it:
    ESC [ rows ; cols R, where rows and cols are one to three decimal
    digits each. *)
Definition digit (d : Z) : Prop := 48 <= d <= 57.

Definition number (ds : list Z) : Prop :=
  (1 ≤ length ds ≤ 3)%nat ∧ Forall digit ds.

Definition report (rows cols : list Z) : list Z :=
  [27; 91] ++ rows ++ [59] ++ cols ++ [82].

Definition well_formed (r : list Z) : Prop :=
  ∃ rows cols, number rows ∧ number cols ∧ r = report rows cols.

(** [w] can still grow into a report. *)
Definition viable (w : list Z) : Prop := ∃ u, well_formed (w ++ u).

(** The bytes [w] followed by [b] leave the grammar exactly at [b]. *)
Definition deviates (w : list Z) (b : Z) : Prop :=
  viable w ∧ ¬ well_formed w ∧ ¬ viable (w ++ [b]).

End Cpr.

(** A byte the prober skips: a control character other than ESC. *)
Definition ignored (b : Z) : bool := bool_decide (b ≠ ESC) && ISCONTROL b.

Definition significant (b : Z) : Prop := ignored b = false.

#[global] Instance significant_dec b : Decision (significant b).
Proof. unfold significant. apply _. Defined.

(** The validator alone: the step reached from [step] once the bytes [w]
    have all been found valid and the closing R has not come yet. *)
Fixpoint track (step : Z) (w : list Z) : option Z :=
  match w with
  | [] => Some step
  | b :: w' =>
      let step1 := Probe.adjust step b in
      if Probe.valid step1 b && bool_decide (step1 ≠ 9)
      then track (step1 + 1) w'
      else None
  end.

(** What has been read when the validator stands at a given step. *)
Inductive at_step : Z → list Z → Prop :=
| at_start : at_step 0 []
| at_bracket : at_step 1 [27]
| at_rows ds :
    (length ds ≤ 3)%nat → Forall Cpr.digit ds →
    at_step (2 + Z.of_nat (length ds)) (27 :: 91 :: ds)
| at_cols rows cs :
    Cpr.number rows → (length cs ≤ 3)%nat → Forall Cpr.digit cs →
    at_step (6 + Z.of_nat (length cs)) (27 :: 91 :: rows ++ 59 :: cs).

(** The prober's treatment of a run of bytes, clocks and polls left out. *)
Fixpoint digest (tty_attr : termios) (bs : list Z) (st : Probe.locals) : Probe.flow :=
  match bs with
  | [] => Probe.Continue st
  | b :: bs' =>
      match Probe.accept tty_attr b st with
      | Probe.Continue st' => digest tty_attr bs' st'
      | other => other
      end
  end.

(** The deadline once the byte [b] has been read. *)
Definition extended (tty_attr : termios) (deadline : float) (b : Z) : float :=
  if bool_decide (b = XOFF) && bool_decide (Z.land (c_iflag tty_attr) IXOFF ≠ 0)
  then (deadline + 0.1)%float else deadline.

(** The loop condition of [ping_tty] holds at the clock of [io]. *)
Definition in_time (deadline : float) (io : Probe.turn) : Prop :=
  0 < double_to_int (1000 * (deadline - timer (Probe.clock io)))%float.

(** [feeds tty_attr deadline script bs]: the script hands the bytes [bs] to
    the prober one by one, each before the deadline then in force; between
    them [poll] or [read] may be interrupted by a signal.  Nothing is said
    of the script beyond the last byte. *)
Inductive feeds (tty_attr : termios) : float → list Probe.turn → list Z → Prop :=
| feeds_nil deadline script :
    feeds tty_attr deadline script []
| feeds_poll_eintr deadline io script bs :
    in_time deadline io →
    Probe.polled io = PollFailed EINTR →
    feeds tty_attr deadline script bs →
    feeds tty_attr deadline (io :: script) bs
| feeds_read_eintr deadline io script bs revents other :
    in_time deadline io →
    Probe.polled io = PollReady revents other → PFDALIVE revents = true →
    Probe.got io = ReadFailed EINTR →
    feeds tty_attr deadline script bs →
    feeds tty_attr deadline (io :: script) bs
| feeds_byte deadline io script b bs revents other more :
    in_time deadline io →
    Probe.polled io = PollReady revents other → PFDALIVE revents = true →
    Probe.got io = ReadData (b :: more) →
    feeds tty_attr (extended tty_attr deadline b) script bs →
    feeds tty_attr deadline (io :: script) (b :: bs).

(** The bound the validator keeps between passes: [eom] never runs ahead
    of [step], and [step] stays below ten. *)
Definition in_bounds (len0 : nat) (st : Probe.locals) : Prop :=
  0 <= Probe.eom st <= Probe.step st ∧ Probe.step st <= 9 ∧
  length (Probe.reply st) = len0.

(** The same when the loop has been left: [eom] may have reached ten. *)
Definition in_bounds_end (len0 : nat) (st : Probe.locals) : Prop :=
  0 <= Probe.eom st <= CPRSIZE ∧ length (Probe.reply st) = len0.

(** ** The mediator loop *)

Module Mediator.

(** The locals of [wrap] that live from one turn of [while (1)] to the
    next; [revents0] and [revents1] are [pfds[0].revents] (the terminal) and
    [pfds[1].revents] (the child). *)
Record locals := Locals {
  timeout : float;
  polltimeoutms : Z;
  start : float;
  state : device_state_et;
  txok : Z;
  buffer : list Z;
  received : Z;
  tty_attr : termios;
  revents0 : Z;
  revents1 : Z
}.

(** Everything one turn of the loop may ask of the system, in the order
    the calls appear in the source. *)
Record turn := Turn {
  clock_start : option timespec;   (* [timer()] before [poll] *)
  polled : poll_result;
  probe : Probe.environment;       (* what [ping_tty] meets *)
  tty_read : read_result;
  tty_tcgetattr : option termios;
  child_read : read_result;
  sigwinch_pending : bool;         (* the flag, when the turn samples it *)
  winsize_read : bool;             (* [ioctl(ttyfd, TIOCGWINSZ)] worked *)
  winsize_set : bool;              (* [ioctl(childfd, TIOCSWINSZ)] worked *)
  clock_end : option timespec      (* [timer()] after an interrupted [poll] *)
}.

(** How a turn ends. *)
Inductive flow :=
| Next (st : locals)      (* the loop goes round again *)
| Exit (st : locals)      (* [break] *)
| Blocked                 (* [ping_tty] has not returned *)
| Overrun.                (* a buffer was overrun *)

(** [read(fd, buffer, sizeof(buffer))]: the value returned and the buffer
    afterwards. *)
Definition sys_read (r : read_result) (buffer : list Z) : Z * list Z :=
  match r with
  | ReadFailed _ => (-1, buffer)
  | ReadData data =>
      let data := take (Z.to_nat BUFSIZ) data in
      (Z.of_nat (length data), data ++ drop (length data) buffer)
  end.

(** [timeout >= 0]. *)
Definition finite (timeout : float) : bool := (0 <=? timeout)%float.

(** The head of the loop: the clamp of [polltimeoutms] and the reading of
    [start]. *)
Definition arm (io : turn) (st : locals) : locals :=
  if finite (timeout st) then
    Locals (timeout st) (if bool_decide (polltimeoutms st < 0) then 0 else polltimeoutms st)
           (timer (clock_start io)) (state st) (txok st) (buffer st) (received st)
           (tty_attr st) (revents0 st) (revents1 st)
  else st.

(** [txok ? 2 : 1]. *)
Definition nfds (st : locals) : Z := if bool_decide (txok st ≠ 0) then 2 else 1.

(** [if (state == DEVICE_OFFLINE) ... else ...], which closes the branch
    taken when [poll] returned 0. *)
Definition conclude (st : locals) (state' : device_state_et) (buffer' : list Z)
    (received' : Z) : flow * list event :=
  if decide (state' = DEVICE_OFFLINE) then
    (Next (Locals (-1)%float (-1) (start st) state' (txok st) buffer' received'
                  (tty_attr st) (revents0 st) (revents1 st)),
     [Kill SIGHUP])
  else
    (Next (Locals (timeout st) (double_to_int (1000 * timeout st)%float) (start st)
                  state' (txok st) buffer' received'
                  (tty_attr st) (revents0 st) (revents1 st)),
     []).

(** The branch taken when [poll] returned 0. *)
Definition timed_out (cprtimeout : float) (io : turn) (st : locals)
  : flow * list event :=
  if bool_decide (txok st ≠ 0) then
    match Probe.ping_tty (probe io) (buffer st) cprtimeout with
    | Probe.Returns r =>
        let forwarded :=
          if bool_decide (0 < Probe.length r)
          then [Write childfd (take (Z.to_nat (Probe.length r)) (Probe.buffer r))]
          else [] in
        let '(after, signal) :=
          conclude st (Probe.returned r) (Probe.buffer r) (Probe.length r) in
        (after, Probe.calls r ++ forwarded ++ signal)
    | Probe.Waits _ trace => (Blocked, trace)
    | Probe.Overruns => (Overrun, [])
    end
  else conclude st DEVICE_OFFLINE (buffer st) (received st).

(** [if (pfds[0].revents)] and its body. *)
Definition from_tty (io : turn) (st : locals) : flow * list event :=
  if bool_decide (revents0 st = 0) then (Next st, [])
  else if negb (PFDALIVE (revents0 st)) then (Exit st, [])
  else
    let '(received', buffer') := sys_read (tty_read io) (buffer st) in
    if bool_decide (received' <= 0) then
      (Exit (Locals (timeout st) (polltimeoutms st) (start st) (state st) (txok st)
                    buffer' received' (tty_attr st) (revents0 st) (revents1 st)),
       [Read ttyfd BUFSIZ])
    else
      let tty_attr' := default (tty_attr st) (tty_tcgetattr io) in
      let filtered :=
        if bool_decide (Z.land (c_iflag tty_attr') IXOFF ≠ 0)
        then Flow.flow_control_preprocessor buffer' received' (txok st)
        else Some (buffer', received', txok st) in
      match filtered with
      | None => (Overrun, [])
      | Some (buffer'', received'', txok') =>
          (Next (Locals (timeout st)
                   (if finite (timeout st)
                    then double_to_int (1000 * timeout st)%float
                    else polltimeoutms st)
                   (start st) (state st) txok' buffer'' received'' tty_attr'
                   0 (revents1 st)),
           Read ttyfd BUFSIZ ::
           if bool_decide (received'' ≠ 0)
           then [Write childfd (take (Z.to_nat received'') buffer'')]
           else [])
      end.

(** [if (!PFDALIVE(pfds[1])) ... else if (txok && pfds[1].revents)] and its
    body. *)
Definition from_child (io : turn) (st : locals) : flow * list event :=
  if negb (PFDALIVE (revents1 st)) then (Exit st, [])
  else if bool_decide (txok st ≠ 0) && bool_decide (revents1 st ≠ 0) then
    let '(received', buffer') := sys_read (child_read io) (buffer st) in
    if bool_decide (received' <= 0) then
      (Exit (Locals (timeout st) (polltimeoutms st) (start st) (state st) (txok st)
                    buffer' received' (tty_attr st) (revents0 st) (revents1 st)),
       [Read childfd BUFSIZ])
    else
      (Next (Locals (timeout st) (polltimeoutms st) (start st) (state st) (txok st)
                    buffer' received' (tty_attr st) (revents0 st) 0),
       [Read childfd BUFSIZ; Write ttyfd (take (Z.to_nat received') buffer')])
  else (Next st, []).

(** The [revents] that [poll] leaves in the first [n] entries of [pfds]. *)
Definition polled_revents (n : Z) (res : poll_result) (st : locals) : locals :=
  match res with
  | PollFailed _ => st
  | PollTimeout =>
      Locals (timeout st) (polltimeoutms st) (start st) (state st) (txok st)
             (buffer st) (received st) (tty_attr st)
             0 (if bool_decide (n = 2) then 0 else revents1 st)
  | PollReady r0 r1 =>
      Locals (timeout st) (polltimeoutms st) (start st) (state st) (txok st)
             (buffer st) (received st) (tty_attr st)
             r0 (if bool_decide (n = 2) then r1 else revents1 st)
  end.

(** The three-way branch on [pending]. *)
Definition dispatch (cprtimeout : float) (io : turn) (st : locals)
  : flow * list event :=
  match polled io with
  | PollTimeout => timed_out cprtimeout io st
  | PollReady _ _ =>
      match from_tty io st with
      | (Next st', calls) =>
          let '(after, calls') := from_child io st' in (after, calls ++ calls')
      | stopped => stopped
      end
  | PollFailed errno =>
      if bool_decide (errno ≠ EINTR) then (Exit st, []) else (Next st, [])
  end.

(** [if (sigwinch_pending)] and its body. *)
Definition resize (io : turn) : list event :=
  if sigwinch_pending io then
    if winsize_read io then
      SetWinsize :: if winsize_set io then [Kill SIGWINCH] else []
    else []
  else [].

(** [if (pending == -1 && timeout >= 0)] and its body. *)
Definition account (io : turn) (st : locals) : locals :=
  match polled io with
  | PollFailed _ =>
      if finite (timeout st) then
        Locals (timeout st)
               (wrap_int (polltimeoutms st -
                  wrap_int (1000 * double_to_int (timer (clock_end io) - start st)%float)))
               (start st) (state st) (txok st) (buffer st) (received st)
               (tty_attr st) (revents0 st) (revents1 st)
      else st
  | _ => st
  end.

(** One turn of [while (1)]. *)
Definition body (cprtimeout : float) (io : turn) (st : locals) : flow * list event :=
  let st := arm io st in
  let n := nfds st in
  let wait := Poll n (polltimeoutms st) in
  match dispatch cprtimeout io (polled_revents n (polled io) st) with
  | (Next st', calls) => (Next (account io st'), wait :: calls ++ resize io)
  | (stopped, calls) => (stopped, wait :: calls)
  end.

(** The locals when the loop is entered: [timeout] as configured, the
    attributes saved from the terminal, and whatever the buffer holds. *)
Definition enter (timeout : float) (old_tty_attr : termios) (buffer : list Z) : locals :=
  Locals timeout (double_to_int (1000 * timeout)%float) 0%float DEVICE_OFFLINE 1
         buffer 0 (cfmakeraw old_tty_attr) 0 0.

(** A turn as it happened: the locals it found, what the system answered,
    the calls it made and how it ended. *)
Record moment := Moment {
  before : locals;
  met : turn;
  calls : list event;
  after : flow
}.

(** The loop against a script, turn by turn, until it leaves or the script
    is used up. *)
Fixpoint run (cprtimeout : float) (script : list turn) (st : locals) : list moment :=
  match script with
  | [] => []
  | io :: script' =>
      let '(fl, evs) := body cprtimeout io st in
      Moment st io evs fl ::
      match fl with
      | Next st' => run cprtimeout script' st'
      | _ => []
      end
  end.

(** Every call of a run, in order. *)
Definition trace (h : list moment) : list event := h ≫= calls.

(** The bytes written to a descriptor, in order. *)
Definition written (fd : descriptor) (evs : list event) : list Z :=
  evs ≫= λ e, match e with
              | Write fd' data => if decide (fd' = fd) then data else []
              | _ => []
              end.

(** The calls that take the child's output to the terminal. *)
Definition child_to_tty (e : event) : Prop :=
  match e with
  | Read childfd _ => True
  | Write ttyfd _ => True
  | _ => False
  end.

(** [poll] can only report a timeout when it was given one. *)
Definition feasible (m : moment) : Prop :=
  polled (met m) = PollTimeout → 0 <= polltimeoutms (arm (met m) (before m)).

End Mediator.

(** ** Vocabulary for the properties of the loop *)

#[global] Instance termios_eq_dec : EqDecision termios.
Proof. solve_decision. Defined.

#[global] Instance optional_actions_eq_dec : EqDecision optional_actions.
Proof. solve_decision. Defined.

#[global] Instance event_eq_dec : EqDecision event.
Proof. solve_decision. Defined.

(** The number of hangup signals among some calls. *)
Definition hangups (evs : list event) : nat :=
  length (filter (λ e, e = Kill SIGHUP) evs).

(** The flag [txok] as a turn leaves it. *)
Definition txok_after (m : Mediator.moment) : option Z :=
  match Mediator.after m with
  | Mediator.Next st | Mediator.Exit st => Some (Mediator.txok st)
  | _ => None
  end.

(** A pass of the prober's loop that brings no byte and no error: the
    deadline has passed, [poll] timed out or found the terminal gone,
    [read] found the end of input, or a signal interrupted either call and
    the rest of the script brings nothing either. *)
Fixpoint unanswered (deadline : float) (script : list Probe.turn) : Prop :=
  match script with
  | [] => False
  | io :: rest =>
      ¬ in_time deadline io ∨
      Probe.polled io = PollTimeout ∨
      (∃ r0 r1, Probe.polled io = PollReady r0 r1 ∧
                (PFDALIVE r0 = false ∨ Probe.got io = ReadData [])) ∨
      ((Probe.polled io = PollFailed EINTR ∨
        ∃ r0 r1, Probe.polled io = PollReady r0 r1 ∧ PFDALIVE r0 = true ∧
                 Probe.got io = ReadFailed EINTR) ∧
       unanswered deadline rest)
  end.

(** The probe goes out and nothing comes back. *)
Definition silent (env : Probe.environment) (cprtimeout : float) : Prop :=
  is_Some (Probe.tcgetattr env) ∧ Probe.tcsetattr_raw env = true ∧
  Probe.write_cpr env = true ∧ Probe.tcdrain env = true ∧
  unanswered (timer (Probe.clock0 env) + cprtimeout)%float (Probe.script env).

(** The probe goes out: the terminal takes the request. *)
Definition probe_sent (env : Probe.environment) (tty_attr : termios) : Prop :=
  Probe.tcgetattr env = Some tty_attr ∧ Probe.tcsetattr_raw env = true ∧
  Probe.write_cpr env = true ∧ Probe.tcdrain env = true.

(** Hangup detection is off: the timeout is the -1 that stands for "wait
    for ever". *)
Definition disarmed (st : Mediator.locals) : Prop :=
  Mediator.timeout st = (-1)%float ∧ Mediator.polltimeoutms st = -1.

(** A call that is not a signal. *)
Definition no_signal (e : event) : Prop :=
  match e with Kill _ => False | _ => True end.

(** What a turn did is what [Mediator.body] does. *)
Definition faithful (cprtimeout : float) (m : Mediator.moment) : Prop :=
  Mediator.body cprtimeout (Mediator.met m) (Mediator.before m)
  = (Mediator.after m, Mediator.calls m).

(** The calls [ping_tty] can make: none of them touches the child. *)
Definition probe_call (e : event) : Prop :=
  match e with
  | Kill _ | SetWinsize | Write childfd _ | Read childfd _ => False
  | _ => True
  end.

(** ** Sample environments *)

Module Sample.

(** The byte [b] arrives [ms] milliseconds after second 101 of the clock. *)
Definition arrives (ms : Z) (b : Z) : Probe.turn :=
  Probe.Turn (Some (Timespec 101 (ms * 1000000))) (PollReady POLLIN 0) (ReadData [b]).

(** A probe sent at second 101 to a terminal without IXOFF. *)
Definition probe (script : list Probe.turn) : Probe.environment :=
  Probe.Environment (Some (Termios 0)) true true true (Some (Timespec 101 0)) script.

(** The terminal answers ESC [ 2 4 ; 8 0 R. *)
Definition report_24_80 : list Probe.turn :=
  [arrives 10 27; arrives 11 91; arrives 12 50; arrives 13 52; arrives 14 59;
   arrives 15 56; arrives 16 48; arrives 17 82].

(** The terminal answers with the letter h; an i is left for later. *)
Definition says_h : list Probe.turn := [arrives 10 104].

(** The terminal answers nothing: [poll] runs into its timeout. *)
Definition says_nothing : list Probe.turn :=
  [Probe.Turn (Some (Timespec 101 0)) PollTimeout (ReadData [])].

(** A turn of the mediator loop at second [sec] with no window change. *)
Definition turn (sec : Z) (polled : poll_result) (probe : Probe.environment)
    (tty_read : read_result) : Mediator.turn :=
  Mediator.Turn (Some (Timespec sec 0)) polled probe tty_read None (ReadData [])
                false false false None.

(** A turn whose [poll] starts [from] milliseconds after second 100 and is
    interrupted by a signal at [to] milliseconds after second 100. *)
Definition interrupted (from to : Z) : Mediator.turn :=
  Mediator.Turn (Some (Timespec 100 (from * 1000000))) (PollFailed EINTR) (probe [])
                (ReadData []) None (ReadData []) false false false
                (Some (Timespec 100 (to * 1000000))).

(** A turn in which only the child has output, [data]. *)
Definition child_output (sec : Z) (data : list Z) : Mediator.turn :=
  Mediator.Turn (Some (Timespec sec 0)) (PollReady 0 POLLIN) (probe []) (ReadData [])
                None (ReadData data) false false false None.

(** The loop as [wrap] enters it with a timeout of [timeout] seconds. *)
Definition entered (timeout : float) : Mediator.locals :=
  Mediator.enter timeout (Termios 0) (replicate (Z.to_nat BUFSIZ) 0).

End Sample.

(** ** Vocabulary for further properties of the prober *)

(** The validator accepts the bytes [r]: it finds every byte valid and
    meets the closing R, at step 9, with the last one. *)
Definition accepts (r : list Z) : Prop :=
  ∃ w b s, r = w ++ [b] ∧ track 0 w = Some s ∧
           Probe.valid (Probe.adjust s b) b = true ∧ Probe.adjust s b = 9.

(** A call of the reply loop of [ping_tty]. *)
Definition waiting_call (e : event) : Prop :=
  match e with
  | Poll 1 _ | Read ttyfd 1 => True
  | _ => False
  end.

(** A pass of the reply loop in which [poll] or [read] fails for another
    reason than a signal. *)
Definition fails (io : Probe.turn) : Prop :=
  (∃ errno, Probe.polled io = PollFailed errno ∧ errno ≠ EINTR) ∨
  (∃ errno, Probe.got io = ReadFailed errno ∧ errno ≠ EINTR).

(** [feeds_then tty_attr deadline script bs deadline' rest]: as [feeds],
    the script hands over the bytes [bs]; [rest] is what is left of the
    script after the last of them and [deadline'] the deadline then in
    force. *)
Inductive feeds_then (tty_attr : termios)
  : float → list Probe.turn → list Z → float → list Probe.turn → Prop :=
| feeds_then_nil deadline script :
    feeds_then tty_attr deadline script [] deadline script
| feeds_then_poll_eintr deadline io script bs deadline' rest :
    in_time deadline io →
    Probe.polled io = PollFailed EINTR →
    feeds_then tty_attr deadline script bs deadline' rest →
    feeds_then tty_attr deadline (io :: script) bs deadline' rest
| feeds_then_read_eintr deadline io script bs revents other deadline' rest :
    in_time deadline io →
    Probe.polled io = PollReady revents other → PFDALIVE revents = true →
    Probe.got io = ReadFailed EINTR →
    feeds_then tty_attr deadline script bs deadline' rest →
    feeds_then tty_attr deadline (io :: script) bs deadline' rest
| feeds_then_byte deadline io script b bs revents other more deadline' rest :
    in_time deadline io →
    Probe.polled io = PollReady revents other → PFDALIVE revents = true →
    Probe.got io = ReadData (b :: more) →
    feeds_then tty_attr (extended tty_attr deadline b) script bs deadline' rest →
    feeds_then tty_attr deadline (io :: script) (b :: bs) deadline' rest.

(** Until a byte is read the locals stay as the loop found them; an
    offline verdict means none was. *)
Definition pristine (reply0 : list Z) (st : Probe.locals) : Prop :=
  Probe.state st = DEVICE_OFFLINE →
  Probe.eom st = 0 ∧ Probe.reply st = reply0.

(** ** Vocabulary for further properties of the mediator loop *)

(** The locals are in order: the buffer has the size it was declared with
    and [txok] is a truth value. *)
Definition sound (st : Mediator.locals) : Prop :=
  length (Mediator.buffer st) = Z.to_nat BUFSIZ ∧
  (Mediator.txok st = 0 ∨ Mediator.txok st = 1).

(** Hangup detection is off: [timeout] is negative and so is the timeout
    handed to [poll]. *)
Definition unarmed (st : Mediator.locals) : Prop :=
  Mediator.finite (Mediator.timeout st) = false ∧ Mediator.polltimeoutms st < 0.

(** The attributes the loop goes by in a turn: those [tcgetattr] reports,
    or the ones it last knew when the call fails. *)
Definition current_attr (io : Mediator.turn) (st : Mediator.locals) : termios :=
  default (Mediator.tty_attr st) (Mediator.tty_tcgetattr io).

(** Flow control is in force in a turn. *)
Definition flow_controlled (io : Mediator.turn) (st : Mediator.locals) : bool :=
  bool_decide (Z.land (c_iflag (current_attr io st)) IXOFF ≠ 0).

(** ** The whole of [wrap]: set-up, loop and tear-down *)

Module Session.

(** The exit statuses of the program. *)
Definition EXIT_SUCCESS : Z := 0.
Definition EXIT_FAILURE : Z := 1.
Definition EXIT_BAD_USAGE : Z := 2.
Definition EXIT_EXECUTION_FAILED : Z := 126.
Definition EXIT_COMMAND_NOT_FOUND : Z := 127.
Definition EXIT_TERMSIG_OFFSET : Z := 128.
Definition ENOENT : Z := 2.

(** The wait-status macros of <sys/wait.h>, as glibc defines them on
    Linux; [signed_char] is the conversion in [WIFSIGNALED]. *)
Definition signed_char (n : Z) : Z := (n + 128) mod 256 - 128.
Definition WTERMSIG (status : Z) : Z := Z.land status 127.
Definition WEXITSTATUS (status : Z) : Z := Z.shiftr (Z.land status 65280) 8.
Definition WIFEXITED (status : Z) : bool := bool_decide (WTERMSIG status = 0).
Definition WIFSIGNALED (status : Z) : bool :=
  bool_decide (0 < Z.shiftr (signed_char (Z.land status 127 + 1)) 1).

(** The exit status of the forked child when [execvp] comes back with
    [errno]. *)
Definition exec_failed (errno : Z) : Z :=
  if bool_decide (errno = ENOENT) then EXIT_COMMAND_NOT_FOUND
  else EXIT_EXECUTION_FAILED.

(** What the system answers to [wrap] in the parent process. *)
Record environment := Environment {
  sigaction_installed : bool;     (* the SIGWINCH handler was installed *)
  winsize : bool;                 (* [ioctl(ttyfd, TIOCGWINSZ)] worked *)
  tcgetattr : option termios;     (* the attributes of the terminal *)
  tcsetattr_raw : bool;           (* raw mode was applied *)
  forked : bool;                  (* [forkpty] gave a child *)
  buffer0 : list Z;               (* what [buffer] happens to hold *)
  script : list Mediator.turn;    (* the turns of the loop *)
  waitpid : option Z              (* the wait status, or failure *)
}.

(** The calls of [wrap] that act on the world; [Loop] is a call made from
    inside [while (1)]. *)
Inductive call :=
| InstallHandler
| EnterRaw (attr : termios)
| Forkpty (attr : termios)
| Loop (e : event)
| CloseChild
| Waitpid
| RestoreAttr (attr : termios)
| RestoreHandler.

(** What [wrap] comes to: it returns, or it is still in its loop when the
    script is used up (or [ping_tty] has not come back). *)
Inductive outcome :=
| Returns (return_code : Z) (calls : list call)
| Runs (calls : list call).

(** The [return_code] the parent derives from [waitpid]. *)
Definition reaped (waited : option Z) : Z :=
  match waited with
  | None => -1
  | Some status =>
      if WIFEXITED status then WEXITSTATUS status
      else if WIFSIGNALED status then EXIT_TERMSIG_OFFSET + WTERMSIG status
      else -1
  end.

(** [wrap(ttyfd, argv, timeout, cprtimeout)] in the parent process. *)
Definition wrap (env : environment) (timeout cprtimeout : float) : outcome :=
  if negb (sigaction_installed env) then Returns (-1) [InstallHandler]
  else if negb (winsize env) then Returns (-1) [InstallHandler; RestoreHandler]
  else
    match tcgetattr env with
    | None => Returns (-1) [InstallHandler; RestoreHandler]
    | Some old_tty_attr =>
        let setup := [InstallHandler; EnterRaw (cfmakeraw old_tty_attr)] in
        if negb (tcsetattr_raw env) then Returns (-1) (setup ++ [RestoreHandler])
        else if negb (forked env) then
          Returns (-1) (setup ++ [Forkpty old_tty_attr; RestoreAttr old_tty_attr;
                                  RestoreHandler])
        else
          let history :=
            Mediator.run cprtimeout (script env)
              (Mediator.enter timeout old_tty_attr (buffer0 env)) in
          let looped := setup ++ Forkpty old_tty_attr :: (Loop <$> Mediator.trace history) in
          match Mediator.after <$> last history with
          | Some (Mediator.Exit _) =>
              Returns (reaped (waitpid env))
                      (looped ++ [CloseChild; Waitpid; RestoreAttr old_tty_attr;
                                  RestoreHandler])
          | _ => Runs looped
          end
    end.

End Session.

(** ** The one-shot query *)

Module Status.

(** What the system answers to [print_tty_status]. *)
Record environment := Environment {
  probe : Probe.environment;
  puts : bool;        (* [puts(message) != EOF] *)
  fflush : bool       (* [fflush(stdout)] returned 0 *)
}.

Inductive message :=
| MSG_DEVICE_STATUS_UNKNOWN
| MSG_DEVICE_OFFLINE
| MSG_DEVICE_ONLINE.

(** What [print_tty_status] does: the value it returns, the line it hands
    to [puts] and whether it reports a write error; or it is still waiting in
    [ping_tty]; or [ping_tty] has run over [reply]. *)
Inductive outcome :=
| Returns (result : Z) (printed : message) (write_error : bool) (calls : list event)
| Waits
| Overruns.

(** [print_tty_status(ttyfd, cprtimeout)]; [reply] is what the array
    [char reply[CPRSIZE]] happens to hold. *)
Definition print_tty_status (env : environment) (reply : list Z) (cprtimeout : float)
  : outcome :=
  match Probe.ping_tty (probe env) reply cprtimeout with
  | Probe.Returns r =>
      let message :=
        match Probe.returned r with
        | DEVICE_STATUS_UNKNOWN => MSG_DEVICE_STATUS_UNKNOWN
        | DEVICE_OFFLINE => MSG_DEVICE_OFFLINE
        | DEVICE_ONLINE => MSG_DEVICE_ONLINE
        end in
      let result := Z.b2z (puts env && negb (fflush env)) in
      Returns result message (bool_decide (result ≠ 0)) (Probe.calls r)
  | Probe.Waits _ _ => Waits
  | Probe.Overruns => Overruns
  end.

End Status.

(** ** The command line *)

Module Main.

(** [same_file(fd1, fd2)], on what [fstat] reports for each descriptor:
    the device and inode numbers, or failure. *)
Definition same_file (stat1 stat2 : option (Z * Z)) : Z :=
  match stat1 with
  | None => -1
  | Some (dev1, ino1) =>
      match stat2 with
      | None => -1
      | Some (dev2, ino2) =>
          Z.b2z (bool_decide (dev1 = dev2) && bool_decide (ino1 = ino2))
      end
  end.

(** [set_hupmon_environment_variables(ttyfd)], on whether [sprintf], the
    first [setenv], [ttyname] and the second [setenv] succeed: zero when all
    do. *)
Definition set_hupmon_environment_variables (sprintf setenv_pid ttyname setenv_tty : bool)
  : Z :=
  Z.b2z (negb sprintf || negb setenv_pid || negb ttyname || negb setenv_tty).

Inductive action_et :=
| ACTION_FLOW_CONTROL_ONLY
| ACTION_HUP_DETECTOR
| ACTION_ONE_SHOT_QUERY.

(** An option as [getopt] hands it over; the argument of -r and -t is
    given as [parse_number] reads it, [None] when it is no number. *)
Inductive option_seen :=
| opt_1
| opt_f
| opt_h
| opt_r (value : option float)
| opt_t (value : option float)
| opt_other.

(** The variables the option loop of [main] sets. *)
Record settings := Settings {
  action : action_et;
  deadline : float;
  timeout : float
}.

(** Their values before the first option. *)
Definition defaults : settings := Settings ACTION_HUP_DETECTOR 0.2 10.

(** The [while ((opt = getopt(...)) != -1)] loop: the settings after the
    last option, or [None] when an option sends [main] to [done]. *)
Fixpoint options (opts : list option_seen) (s : settings) : option settings :=
  match opts with
  | [] => Some s
  | opt :: opts' =>
      match opt with
      | opt_1 => options opts' (Settings ACTION_ONE_SHOT_QUERY (deadline s) (timeout s))
      | opt_f => options opts' (Settings ACTION_FLOW_CONTROL_ONLY (deadline s) (timeout s))
      | opt_h => options opts' (Settings ACTION_HUP_DETECTOR (deadline s) (timeout s))
      | opt_r (Some v) =>
          if (0.01 <=? v)%float then options opts' (Settings (action s) v (timeout s))
          else None
      | opt_t (Some v) =>
          if (1 <=? v)%float then options opts' (Settings (action s) (deadline s) v)
          else None
      | _ => None
      end
  end.

(** What [main] is given and what the system answers to it. *)
Record environment := Environment {
  help : bool;                       (* the first argument is --help *)
  opts : list option_seen;           (* the options, in order *)
  command : bool;                    (* arguments are left after them *)
  stdin_tty : bool;                  (* [isatty(STDIN_FILENO)] *)
  stdout_tty : bool;                 (* [isatty(STDOUT_FILENO)] *)
  stdin_stat : option (Z * Z);       (* [fstat] of standard input *)
  stdout_stat : option (Z * Z);      (* [fstat] of standard output *)
  sprintf : bool;
  setenv_pid : bool;
  ttyname : bool;
  setenv_tty : bool;
  session : Session.environment;     (* what [wrap] meets *)
  status : Status.environment;       (* what [print_tty_status] meets *)
  reply0 : list Z                    (* what the reply array holds *)
}.

(** What [main] had run when it came to its end: nothing, [wrap] (after
    which it flushes the queues of the terminal), or the one-shot query. *)
Inductive work :=
| Nothing
| Wrapped (timeout cprtimeout : float) (calls : list Session.call)
| Queried (cprtimeout : float) (printed : Status.message) (calls : list event).

Inductive outcome :=
| Exits (status : Z) (done : work)
| Runs (timeout cprtimeout : float) (calls : list Session.call)
| Waits
| Overruns.

(** The value [main] returns for an [exit_status]. *)
Definition normalised (exit_status : Z) : Z :=
  if bool_decide (exit_status < 0 ∨ exit_status > 255) then Session.EXIT_FAILURE
  else exit_status.

(** [main(argc, argv)]. *)
Definition main (env : environment) : outcome :=
  if help env then Exits Session.EXIT_SUCCESS Nothing
  else
    match options (opts env) defaults with
    | None => Exits (normalised Session.EXIT_BAD_USAGE) Nothing
    | Some s =>
        match action s with
        | ACTION_ONE_SHOT_QUERY =>
            if negb (stdin_tty env) then Exits (normalised Session.EXIT_BAD_USAGE) Nothing
            else if command env then Exits (normalised Session.EXIT_BAD_USAGE) Nothing
            else
              match Status.print_tty_status (status env) (reply0 env) (deadline s) with
              | Status.Returns result printed _ calls =>
                  Exits (normalised result) (Queried (deadline s) printed calls)
              | Status.Waits => Waits
              | Status.Overruns => Overruns
              end
        | _ =>
            if negb (stdin_tty env) || negb (stdout_tty env) then
              Exits (normalised Session.EXIT_BAD_USAGE) Nothing
            else if bool_decide (same_file (stdin_stat env) (stdout_stat env) ≠ 1) then
              Exits (normalised Session.EXIT_BAD_USAGE) Nothing
            else if negb (command env) then
              Exits (normalised Session.EXIT_BAD_USAGE) Nothing
            else if bool_decide (set_hupmon_environment_variables
                                   (sprintf env) (setenv_pid env) (ttyname env)
                                   (setenv_tty env) ≠ 0) then
              Exits (normalised Session.EXIT_BAD_USAGE) Nothing
            else
              let timeout :=
                match action s with
                | ACTION_FLOW_CONTROL_ONLY => (-1)%float
                | _ => timeout s
                end in
              match Session.wrap (session env) timeout (deadline s) with
              | Session.Returns return_code calls =>
                  Exits (normalised return_code) (Wrapped timeout (deadline s) calls)
              | Session.Runs calls => Runs timeout (deadline s) calls
              end
        end
    end.

End Main.

(** ** Vocabulary for the command line *)

(** The action an option selects, if it selects one. *)
Definition selects (opt : Main.option_seen) : option Main.action_et :=
  match opt with
  | Main.opt_1 => Some Main.ACTION_ONE_SHOT_QUERY
  | Main.opt_f => Some Main.ACTION_FLOW_CONTROL_ONLY
  | Main.opt_h => Some Main.ACTION_HUP_DETECTOR
  | _ => None
  end.

(** The number an option -r carries. *)
Definition reply_timeout (opt : Main.option_seen) : option float :=
  match opt with
  | Main.opt_r value => value
  | _ => None
  end.

(** The number an option -t carries. *)
Definition activity_timeout (opt : Main.option_seen) : option float :=
  match opt with
  | Main.opt_t value => value
  | _ => None
  end.

(** An option [getopt] reports and the loop takes. *)
Definition taken (opt : Main.option_seen) : Prop :=
  match opt with
  | Main.opt_other | Main.opt_r None | Main.opt_t None => False
  | _ => True
  end.

(** The call of [wrap] that [main] made, if it made one: the timeouts it
    passed and the calls [wrap] went through. *)
Definition wrapped (o : Main.outcome) : option (float * float * list Session.call) :=
  match o with
  | Main.Exits _ (Main.Wrapped timeout cprtimeout calls)
  | Main.Runs timeout cprtimeout calls => Some (timeout, cprtimeout, calls)
  | _ => None
  end.

(** ** Vocabulary for the ends of the loop *)

(** A [read] that brings nothing: it fails, or it finds the end of the
    input. *)
Definition ended (r : read_result) : Prop :=
  match r with
  | ReadFailed _ | ReadData [] => True
  | ReadData (_ :: _) => False
  end.

(** The [revents] of the child that a turn goes by: those [poll] reports
    when it covered the child, and those left from an earlier turn when
    transmission is suspended and [poll] covered the terminal alone. *)
Definition child_revents (st : Mediator.locals) (r1 : Z) : Z :=
  if bool_decide (Mediator.txok st ≠ 0) then r1 else Mediator.revents1 st.

(** A call that belongs to a change of the window size. *)
Definition resize_call (e : event) : Prop :=
  e = SetWinsize ∨ e = Kill SIGWINCH.

(** The turn goes round again. *)
Definition continues (fl : Mediator.flow) : Prop :=
  match fl with
  | Mediator.Next _ => True
  | _ => False
  end.
(** * Properties *)

(** ** The flow-control filter *)

Section flow_facts.
Import Flow.

Lemma load_lookup (a : list Z) (i : nat) : load a (Z.of_nat i) = a !! i.
Proof. unfold load. rewrite decide_True by lia. by rewrite Nat2Z.id. Qed.

Lemma store_insert (a : list Z) (i : nat) x :
  (i < length a)%nat → store a (Z.of_nat i) x = Some (<[i := x]> a).
Proof. intros. unfold store. rewrite decide_True by lia. by rewrite Nat2Z.id. Qed.

Lemma drop_S_eq (l1 l2 : list Z) (k : nat) :
  drop k l1 = drop k l2 → drop (S k) l1 = drop (S k) l2.
Proof.
  intros H. replace (S k) with (k + 1)%nat by lia.
  by rewrite <- !drop_drop, H.
Qed.

Lemma flag_after_snoc t l b :
  flag_after t (l ++ [b]) =
  if decide (b = XON) then 1 else if decide (b = XOFF) then 0 else flag_after t l.
Proof. unfold flag_after. by rewrite foldl_snoc. Qed.

(** What the loop has done after [k] turns: the kept bytes of the first
    [k] sit at the front of the buffer, the rest of the buffer from [k] on
    is as it was. *)
Lemma loop_prefix (bytes0 : list Z) (t0 : Z) (k : nat) :
  (k ≤ length bytes0)%nat →
  ∃ st, loop (State bytes0 0 t0) (Z.of_nat k) = Some st ∧
    length (bytes st) = length bytes0 ∧
    cursor st = Z.of_nat (length (filter data_byte (take k bytes0))) ∧
    take (length (filter data_byte (take k bytes0))) (bytes st)
      = filter data_byte (take k bytes0) ∧
    drop k (bytes st) = drop k bytes0 ∧
    txok st = flag_after t0 (take k bytes0).
Proof.
  induction k as [|k IH]; intros Hk.
  - exists (State bytes0 0 t0). by rewrite take_0.
  - destruct IH as (st & Hst & Hlen & Hcur & Htake & Hdrop & Htx); [lia|].
    destruct (lookup_lt_is_Some_2 bytes0 k) as [b Hb]; [lia|].
    assert (Hb' : bytes st !! k = Some b).
    { rewrite <- (Nat.add_0_r k), <- lookup_drop, Hdrop, lookup_drop.
      by rewrite Nat.add_0_r. }
    pose proof (length_filter data_byte (take k bytes0)) as Hle.
    rewrite length_take in Hle.
    unfold loop in *. rewrite seqZ_S, foldl_snoc, Hst. simpl.
    rewrite Z.add_0_l. unfold body. rewrite load_lookup, Hb'. simpl.
    rewrite (take_S_r _ _ _ Hb), filter_app, flag_after_snoc.
    destruct (decide (b ≠ XON ∧ b ≠ XOFF)) as [Hd|Hd].
    + rewrite Hcur, store_insert by lia. simpl.
      rewrite (filter_cons_True data_byte) by done. rewrite filter_nil.
      eexists; split; [done|]. simpl.
      rewrite length_insert, length_app. simpl.
      repeat split.
      * done.
      * lia.
      * rewrite Nat.add_1_r.
        erewrite take_S_r; [|apply list_lookup_insert_eq; lia].
        by rewrite take_insert_ge, Htake by lia.
      * rewrite drop_insert_lt by lia. by apply drop_S_eq.
      * destruct Hd. by rewrite !decide_False.
    + rewrite (filter_cons_False data_byte) by done. rewrite filter_nil, app_nil_r.
      eexists; split; [done|]. simpl.
      repeat split; try done.
      * by apply drop_S_eq.
      * destruct (decide (b = XON)) as [->|]; [done|].
        destruct (decide (b = XOFF)) as [->|]; [done|].
        destruct Hd. done.
Qed.
End flow_facts.

Section flow_spec.
Import Flow.

Lemma filter_all (P : Z → Prop) `{!∀ x, Decision (P x)} (l : list Z) :
  Forall P l → filter P l = l.
Proof.
  induction 1 as [|x l Hx _ IH]; [done|].
  by rewrite filter_cons_True, IH.
Qed.

Lemma filter_keeps (P : Z → Prop) `{!∀ x, Decision (P x)} (l : list Z) :
  Forall P (filter P l).
Proof. apply Forall_forall. intros x Hx. by apply list_elem_of_filter in Hx as [? _]. Qed.

Lemma flag_after_data t l : Forall data_byte l → flag_after t l = t.
Proof.
  induction l as [|b l IH] using rev_ind; [done|].
  rewrite Forall_app, Forall_singleton. intros [Hl [H1 H2]].
  rewrite flag_after_snoc, !decide_False by done. auto.
Qed.

Lemma flag_after_last t l :
  flag_after t l =
  match last (filter (λ b, ¬ data_byte b) l) with
  | Some b => Z.b2z (bool_decide (b = XON))
  | None => t
  end.
Proof.
  induction l as [|b l IH] using rev_ind; [done|].
  rewrite flag_after_snoc, filter_app.
  destruct (decide (data_byte b)) as [[H1 H2]|Hd].
  - rewrite (filter_cons_False _ b) by (intros Hn; apply Hn; by split).
    rewrite filter_nil, app_nil_r, !decide_False by done. exact IH.
  - rewrite (filter_cons_True _ b), filter_nil, last_snoc by done.
    destruct (decide (b = XON)) as [->|Hx].
    + by rewrite bool_decide_eq_true_2.
    + rewrite bool_decide_eq_false_2 by done.
      destruct (decide (b = XOFF)); [done|]. by destruct Hd.
Qed.

(** The call in closed form. *)
Lemma flow_control_preprocessor_eq (buf : list Z) (len t : Z) :
  0 <= len <= Z.of_nat (length buf) →
  let kept := filter data_byte (take (Z.to_nat len) buf) in
  ∃ buf',
    flow_control_preprocessor buf len t
      = Some (buf', Z.of_nat (length kept), flag_after t (take (Z.to_nat len) buf)) ∧
    length buf' = length buf ∧
    take (length kept) buf' = kept ∧
    drop (Z.to_nat len) buf' = drop (Z.to_nat len) buf.
Proof.
  intros Hlen kept.
  destruct (loop_prefix buf t (Z.to_nat len)) as (st & Hst & Hl & Hc & Ht & Hd & Hx);
    [lia|].
  rewrite Z2Nat.id in Hst by lia.
  exists (bytes st). unfold flow_control_preprocessor. rewrite Hst. simpl.
  by rewrite Hc, Hx.
Qed.
End flow_spec.

(** C1. For a buffer [buf] and a length [len] within it,
    [flow_control_preprocessor] succeeds; the first [len'] bytes of the
    buffer it leaves are the first [len] bytes of [buf] without the XON and
    XOFF bytes, in their order; [len'] is at most [len]; the flag is set by
    each XON (to 1) and XOFF (to 0) from left to right, so it is decided by
    the last of them, and is the flag passed in when there is none. *)
Theorem flow_control_preprocessor_spec (buf : list Z) (len t : Z) :
  0 <= len <= Z.of_nat (length buf) →
  ∃ buf' len' t',
    Flow.flow_control_preprocessor buf len t = Some (buf', len', t') ∧
    take (Z.to_nat len') buf' = filter Flow.data_byte (take (Z.to_nat len) buf) ∧
    Forall (λ b, b ≠ XON ∧ b ≠ XOFF) (take (Z.to_nat len') buf') ∧
    0 <= len' <= len ∧
    length buf' = length buf ∧
    t' = Flow.flag_after t (take (Z.to_nat len) buf) ∧
    t' = match last (filter (λ b, ¬ Flow.data_byte b) (take (Z.to_nat len) buf)) with
         | Some b => Z.b2z (bool_decide (b = XON))
         | None => t
         end ∧
    (Forall (λ b, b ≠ XON ∧ b ≠ XOFF) (take (Z.to_nat len) buf) → t' = t).
Proof.
  intros Hlen.
  destruct (flow_control_preprocessor_eq buf len t Hlen) as (buf' & Heq & Hl & Ht & Hd).
  eexists _, _, _. split; [exact Heq|].
  rewrite Nat2Z.id, Ht.
  pose proof (length_filter Flow.data_byte (take (Z.to_nat len) buf)) as Hle.
  rewrite length_take in Hle.
  repeat split; try done; try lia.
  - apply (filter_keeps Flow.data_byte).
  - apply flag_after_last.
  - apply flag_after_data.
Qed.

Lemma flow_control_preprocessor_spec_witness :
  ∃ buf' len' t',
    Flow.flow_control_preprocessor [97; 19; 98; 17; 99; 19; 0] 6 1 = Some (buf', len', t') ∧
    take (Z.to_nat len') buf' = [97; 98; 99] ∧ len' = 3 ∧ t' = 0.
Proof.
  destruct (flow_control_preprocessor_spec [97; 19; 98; 17; 99; 19; 0] 6 1)
    as (buf' & len' & t' & Heq & Htake & _ & _ & _ & Ht & _); [simpl; lia|].
  exists buf', len', t'.
  vm_compute in Heq. injection Heq as <- <- <-. done.
Defined.

(** C10. Filtering the output of the filter again changes nothing: the
    buffer, the length and the flag all come back as they went in. *)
Theorem flow_control_preprocessor_idempotent (buf : list Z) (len t : Z) :
  0 <= len <= Z.of_nat (length buf) →
  ∃ buf' len' t',
    Flow.flow_control_preprocessor buf len t = Some (buf', len', t') ∧
    Flow.flow_control_preprocessor buf' len' t' = Some (buf', len', t').
Proof.
  intros Hlen.
  destruct (flow_control_preprocessor_eq buf len t Hlen) as (buf' & Heq & Hl & Ht & Hd).
  eexists _, _, _. split; [exact Heq|].
  set (kept := filter Flow.data_byte (take (Z.to_nat len) buf)) in *.
  pose proof (length_filter Flow.data_byte (take (Z.to_nat len) buf)) as Hle.
  rewrite length_take in Hle. fold kept in Hle.
  destruct (flow_control_preprocessor_eq buf' (Z.of_nat (length kept))
              (Flow.flag_after t (take (Z.to_nat len) buf)))
    as (buf'' & Heq' & Hl' & Ht' & Hd'); [lia|].
  rewrite Nat2Z.id in Heq', Ht', Hd'. rewrite Ht in Heq', Ht'.
  assert (Hk : filter Flow.data_byte kept = kept)
    by apply filter_all, (filter_keeps Flow.data_byte).
  rewrite Hk in Heq', Ht'.
  rewrite Heq', (flag_after_data _ kept) by apply (filter_keeps Flow.data_byte).
  do 3 f_equal.
  rewrite <- (take_drop (length kept) buf''), <- (take_drop (length kept) buf').
  by rewrite Ht', Hd', Ht.
Qed.

Lemma flow_control_preprocessor_idempotent_witness :
  ∃ buf' len' t',
    Flow.flow_control_preprocessor [97; 19; 98; 17; 99; 19; 0] 6 1 = Some (buf', len', t') ∧
    Flow.flow_control_preprocessor buf' len' t' = Some (buf', len', t').
Proof.
  apply (flow_control_preprocessor_idempotent [97; 19; 98; 17; 99; 19; 0] 6 1).
  simpl; lia.
Defined.

(** ** The prober: one byte at a time *)

Section probe_steps.
Implicit Types (st : Probe.locals) (tty_attr : termios) (byte : Z).

Lemma adjust_range step byte :
  step <= Probe.adjust step byte ∧
  (step <= 9 → Probe.adjust step byte <= 9).
Proof.
  unfold Probe.adjust. case_bool_decide as H; [|lia].
  destruct H as [[_ [-> | ->]] | [_ [-> | ->]]]; (split; [|intros _]); by compute.
Qed.

Lemma valid_range step byte : Probe.valid step byte = true → 0 <= step <= 9.
Proof.
  unfold Probe.valid. repeat case_bool_decide; intros; try lia.
Qed.

Ltac bounds :=
  unfold in_bounds, in_bounds_end, CPRSIZE in *; simpl in *;
  rewrite ?length_insert; intuition (first [lia | done]).

Lemma accept_in_bounds len0 tty_attr byte st :
  (Z.to_nat CPRSIZE ≤ len0)%nat → in_bounds len0 st →
  match Probe.accept tty_attr byte st with
  | Probe.Continue st' =>
      in_bounds len0 st' ∧ drop 10 (Probe.reply st') = drop 10 (Probe.reply st)
  | Probe.Break st' =>
      in_bounds_end len0 st' ∧ drop 10 (Probe.reply st') = drop 10 (Probe.reply st)
  | Probe.Overrun => False
  end.
Proof.
  intros Hlen Hin. unfold Probe.accept. simpl.
  destruct (bool_decide (byte ≠ ESC) && ISCONTROL byte).
  { destruct (_ && _); bounds. }
  pose proof (adjust_range (Probe.step st) byte) as [Ha1 Ha2].
  unfold store. rewrite decide_True by bounds.
  assert (Hd : drop 10 (<[Z.to_nat (Probe.eom st) := byte]> (Probe.reply st))
               = drop 10 (Probe.reply st)) by (apply drop_insert_lt; bounds).
  destruct (Probe.valid _ byte) eqn:Hv; simpl.
  - apply valid_range in Hv. case_bool_decide; bounds.
  - bounds.
Qed.

Lemma body_in_bounds len0 tty_attr ms io st :
  (Z.to_nat CPRSIZE ≤ len0)%nat → in_bounds len0 st →
  match (Probe.body tty_attr ms io st).1 with
  | Probe.Continue st' =>
      in_bounds len0 st' ∧ drop 10 (Probe.reply st') = drop 10 (Probe.reply st)
  | Probe.Break st' =>
      in_bounds_end len0 st' ∧ drop 10 (Probe.reply st') = drop 10 (Probe.reply st)
  | Probe.Overrun => False
  end.
Proof.
  intros Hlen Hin. unfold Probe.body.
  destruct (Probe.polled io) as [errno| |rev ?]; simpl.
  - case_bool_decide; bounds.
  - bounds.
  - destruct (PFDALIVE rev); simpl; [|bounds].
    destruct (Probe.got io) as [[|byte ?]|errno]; simpl.
    + bounds.
    + by apply accept_in_bounds.
    + case_bool_decide; bounds.
Qed.

Lemma loop_in_bounds len0 tty_attr script st trace :
  (Z.to_nat CPRSIZE ≤ len0)%nat → in_bounds len0 st →
  match Probe.loop tty_attr script st trace with
  | Probe.Finished st' _ =>
      in_bounds_end len0 st' ∧ drop 10 (Probe.reply st') = drop 10 (Probe.reply st)
  | Probe.Starved st' _ =>
      in_bounds len0 st' ∧ drop 10 (Probe.reply st') = drop 10 (Probe.reply st)
  | Probe.Crashed => False
  end.
Proof.
  intros Hlen. revert st trace.
  induction script as [|io script IH]; intros st trace Hin; simpl; [done|].
  case_bool_decide; [|bounds].
  pose proof (body_in_bounds len0 tty_attr
    (double_to_int (1000 * (Probe.deadline st - timer (Probe.clock io)))) io st Hlen Hin)
    as Hb.
  destruct (Probe.body _ _ io st) as [[st'|st'|] calls]; simpl in *; [|done|done].
  destruct Hb as [Hin' Hd]. specialize (IH st' (trace ++ calls) Hin').
  destruct (Probe.loop _ script st' _); [| |done];
    (destruct IH as [? Hd']; split; [done|by rewrite Hd']).
Qed.
End probe_steps.

(** C9. Whatever the terminal sends and however long the probe waits,
    [ping_tty] given a buffer of at least [CPRSIZE] bytes never writes past
    it; when it returns, the length it reports is between 0 and [CPRSIZE]
    and the caller's buffer is unchanged from offset ten on; while it is
    still waiting, fewer than ten bytes have been appended. *)
Theorem ping_tty_reply_bounded (env : Probe.environment) (reply : list Z)
    (cprtimeout : float) :
  (Z.to_nat CPRSIZE ≤ length reply)%nat →
  match Probe.ping_tty env reply cprtimeout with
  | Probe.Returns r =>
      0 <= Probe.length r <= CPRSIZE ∧
      length (Probe.buffer r) = length reply ∧
      drop (Z.to_nat CPRSIZE) (Probe.buffer r) = drop (Z.to_nat CPRSIZE) reply
  | Probe.Waits st _ =>
      0 <= Probe.eom st <= Probe.step st ∧ Probe.step st < CPRSIZE ∧
      drop (Z.to_nat CPRSIZE) (Probe.reply st) = drop (Z.to_nat CPRSIZE) reply
  | Probe.Overruns => False
  end.
Proof.
  intros Hlen. unfold Probe.ping_tty.
  destruct (Probe.tcgetattr env) as [tty_attr|]; [|by unfold CPRSIZE].
  destruct (Probe.tcsetattr_raw env); simpl; [|by unfold CPRSIZE].
  destruct (Probe.write_cpr env); simpl; [|by unfold CPRSIZE].
  destruct (Probe.tcdrain env); simpl; [|by unfold CPRSIZE].
  match goal with |- context [Probe.loop ?a ?s ?st ?tr] =>
    pose proof (loop_in_bounds (length reply) a s st tr Hlen) as Hl;
    destruct (Probe.loop a s st tr) as [st' ?|st' ?|]
  end.
  - destruct Hl as [[? ?] ?]; [by repeat split|]. by simpl.
  - destruct Hl as [(? & ? & ?) ?]; [by repeat split|].
    unfold CPRSIZE. repeat split; try done; lia.
  - apply Hl. by repeat split.
Qed.

Lemma ping_tty_reply_bounded_witness :
  match Probe.ping_tty (Sample.probe Sample.report_24_80) [0; 0; 0; 0; 0; 0; 0; 0; 0; 0; 7; 7]
          0.2 with
  | Probe.Returns r =>
      0 <= Probe.length r <= CPRSIZE ∧
      Probe.buffer r = [27; 91; 50; 52; 59; 56; 48; 82; 0; 0; 7; 7]
  | _ => False
  end.
Proof.
  pose proof (ping_tty_reply_bounded (Sample.probe Sample.report_24_80)
                [0; 0; 0; 0; 0; 0; 0; 0; 0; 0; 7; 7] 0.2) as H.
  destruct (Probe.ping_tty _ _ _) as [r| |] eqn:Hr.
  - destruct H as (Hlen & _ & Htail); [unfold CPRSIZE; simpl; lia|].
    split; [exact Hlen|].
    vm_compute in Hr. by injection Hr as <-.
  - vm_compute in Hr. discriminate Hr.
  - vm_compute in Hr. discriminate Hr.
Defined.

(** ** The validator against the grammar *)

Section validator.
Implicit Types (w u : list Z) (b d s : Z).

Ltac crunch :=
  unfold Probe.adjust, Probe.valid, ISDIGIT, Cpr.digit, ESC in *;
  repeat (case_bool_decide; simpl in *); try done; try lia.

Lemma track_app s w u : track s (w ++ u) = track s w ≫= λ s', track s' u.
Proof.
  revert s. induction w as [|b w IH]; intros s; simpl; [done|].
  destruct (_ && _); [apply IH|done].
Qed.

Lemma track_snoc s w b s' :
  track s (w ++ [b]) = Some s' ↔
  ∃ s0, track s w = Some s0 ∧ Probe.valid (Probe.adjust s0 b) b = true ∧
        Probe.adjust s0 b ≠ 9 ∧ s' = Probe.adjust s0 b + 1.
Proof.
  rewrite track_app. destruct (track s w) as [s0|] eqn:Hw; simpl.
  - destruct (Probe.valid _ b) eqn:Hv; simpl.
    + destruct (decide (Probe.adjust s0 b = 9)) as [He|He].
      * rewrite bool_decide_eq_false_2 by tauto. split; [done|].
        intros (s1 & Hs1 & _ & Hne & _). by simplify_eq.
      * rewrite bool_decide_eq_true_2 by done. split.
        -- intros Hs1. simplify_eq. by exists s0.
        -- intros (s1 & Hs1 & _ & _ & ->). by simplify_eq.
    + split; [done|]. intros (s1 & Hs1 & Hv' & _). simplify_eq. congruence.
  - split; [done|]. intros (s1 & ? & _). done.
Qed.

Lemma track_digit s d w :
  Cpr.digit d → 2 <= s <= 4 ∨ 6 <= s <= 8 → track s (d :: w) = track (s + 1) w.
Proof. intros Hd Hs. simpl. by crunch. Qed.

Lemma track_semicolon s w : 3 <= s <= 5 → track s (59 :: w) = track 6 w.
Proof.
  intros Hs. simpl.
  assert (s = 3 ∨ s = 4 ∨ s = 5) as [-> | [-> | ->]] by lia; reflexivity.
Qed.

Lemma track_number s ds w :
  Cpr.number ds → s = 2 ∨ s = 6 →
  track s (ds ++ w) = track (s + Z.of_nat (length ds)) w ∧
  s + 1 <= s + Z.of_nat (length ds) <= s + 3.
Proof.
  intros [Hlen Hds] Hs.
  destruct ds as [|d1 [|d2 [|d3 [|]]]]; simpl in Hlen; try lia;
    repeat match goal with H : Forall _ (_ :: _) |- _ => apply Forall_cons in H as [? H] end;
    simpl app; rewrite ?track_digit by (done || lia);
    (split; [f_equal; simpl; lia | simpl; lia]).
Qed.

(** Every proper prefix of a report keeps the validator going. *)
Lemma well_formed_track w u :
  Cpr.well_formed (w ++ u) → u ≠ [] → ∃ s, track 0 w = Some s.
Proof.
  intros (rows & cols & Hr & Hc & Heq) Hu.
  destruct (track_number 2 rows (59 :: cols) Hr) as [Hrows Hrs]; [by left|].
  destruct (track_number 6 cols [] Hc) as [Hcols Hcs]; [by right|].
  assert (Hfull : is_Some (track 0 ([27; 91] ++ rows ++ [59] ++ cols))).
  { change (is_Some (track 2 (rows ++ 59 :: cols))).
    rewrite Hrows, track_semicolon by lia.
    rewrite <- (app_nil_r cols), Hcols. by eexists. }
  destruct (exists_last Hu) as (u0 & x & ->).
  unfold Cpr.report in Heq. rewrite !app_assoc in Heq.
  apply app_inj_tail in Heq as [Heq _].
  rewrite <- !app_assoc in Heq. rewrite <- Heq, track_app in Hfull.
  destruct (track 0 w) as [s|]; [by eexists|]. by destruct Hfull.
Qed.

Lemma at_rows_eq s w ds :
  (length ds ≤ 3)%nat → Forall Cpr.digit ds →
  s = 2 + Z.of_nat (length ds) → w = 27 :: 91 :: ds → at_step s w.
Proof. intros ?? -> ->. by constructor. Qed.

Lemma at_cols_eq s w rows cs :
  Cpr.number rows → (length cs ≤ 3)%nat → Forall Cpr.digit cs →
  s = 6 + Z.of_nat (length cs) → w = 27 :: 91 :: rows ++ 59 :: cs → at_step s w.
Proof. intros ??? -> ->. by constructor. Qed.

Ltac lists :=
  repeat match goal with
  | H : Forall _ (_ :: _) |- _ => apply Forall_cons in H as [? H]
  end;
  simpl length in *; simpl app in *.

Ltac digits_ok :=
  first
    [ done
    | by compute
    | simpl; lia
    | split; [simpl; lia | repeat constructor; unfold Cpr.digit; done || lia]
    | repeat constructor; unfold Cpr.digit; done || lia ].

Ltac number_ok :=
  unfold Cpr.number, Cpr.report in *; simpl in *; rewrite <- ?app_assoc; simpl;
  destruct_and?; repeat split;
  first [ done | lia | repeat constructor; try unfold Cpr.digit; first [done | lia] ].

Ltac placed :=
  match goal with
  | |- at_step _ (27 :: 91 :: ?l) => apply (at_rows_eq _ _ l); digits_ok
  | |- at_step _ [27; 91; ?a; 59] => apply (at_cols_eq _ _ [a] []); digits_ok
  | |- at_step _ [27; 91; ?a; ?b; 59] => apply (at_cols_eq _ _ [a; b] []); digits_ok
  | |- at_step _ [27; 91; ?a; ?b; ?c; 59] =>
      apply (at_cols_eq _ _ [a; b; c] []); digits_ok
  end.

(** One more valid byte moves the validator to the next position of the
    grammar. *)
Lemma at_step_next s0 w b :
  at_step s0 w →
  Probe.valid (Probe.adjust s0 b) b = true → Probe.adjust s0 b ≠ 9 →
  at_step (Probe.adjust s0 b + 1) (w ++ [b]).
Proof.
  destruct 1 as [| |ds Hlen Hds|rows cs Hrows Hlen Hcs]; intros Hv Hne.
  - crunch. subst b. apply at_bracket.
  - crunch. subst b.
    apply (at_rows_eq _ _ []); [simpl; lia | constructor | done | done].
  - destruct ds as [|d1 [|d2 [|d3 [|]]]]; lists; try lia; crunch;
      destruct_or?; destruct_and?; simplify_eq; placed.
  - rewrite <- !app_comm_cons, <- app_assoc, <- app_comm_cons.
    destruct cs as [|c1 [|c2 [|c3 [|]]]]; lists; try lia; crunch;
      destruct_or?; destruct_and?; simplify_eq;
      match goal with
      | |- at_step _ (27 :: 91 :: rows ++ 59 :: ?l) =>
          apply (at_cols_eq _ _ rows l); digits_ok
      end.
Qed.

Lemma track_shape w s : track 0 w = Some s → at_step s w.
Proof.
  revert s. induction w as [|b w IH] using rev_ind; intros s.
  - intros [= <-]. constructor.
  - rewrite track_snoc. intros (s0 & Hw & Hv & Hne & ->).
    apply at_step_next; auto.
Qed.

(** Whatever the validator has accepted can be completed to a report. *)
Lemma at_step_viable s w : at_step s w → Cpr.viable w.
Proof.
  destruct 1 as [| |ds Hlen Hds|rows cs Hrows Hlen Hcs].
  - exists (Cpr.report [48] [48]), [48], [48]. number_ok.
  - exists [91; 48; 59; 48; 82], [48], [48]. number_ok.
  - destruct ds as [|d ds].
    + exists [48; 59; 48; 82], [48], [48]. number_ok.
    + exists [59; 48; 82], (d :: ds), [48]. number_ok.
  - destruct cs as [|c cs].
    + exists [48; 82], rows, [48]. number_ok.
    + exists [82], rows, (c :: cs). number_ok.
Qed.

(** A byte the validator accepts keeps the reply within the grammar. *)
Lemma track_valid_viable w s b :
  track 0 w = Some s → Probe.valid (Probe.adjust s b) b = true →
  Cpr.viable (w ++ [b]).
Proof.
  intros Hw Hv. apply track_shape in Hw.
  destruct (decide (Probe.adjust s b = 9)) as [H9|H9].
  - exists []. rewrite app_nil_r.
    destruct Hw as [| |ds Hlen Hds|rows cs Hrows Hlen Hcs].
    + crunch.
    + crunch.
    + destruct ds as [|d1 [|d2 [|d3 [|]]]]; lists; try lia; crunch.
    + exists rows, cs.
      destruct cs as [|c1 [|c2 [|c3 [|]]]]; lists; try lia; crunch;
        destruct_or?; destruct_and?; simplify_eq;
        (split; [done|]); number_ok.
  - eapply at_step_viable, at_step_next; eauto.
Qed.

(** Where the reply leaves the grammar, the validator says no. *)
Lemma deviates_track w b :
  Cpr.deviates w b →
  ∃ s, track 0 w = Some s ∧ Probe.valid (Probe.adjust s b) b = false.
Proof.
  intros ([u Hu] & Hnwf & Hnv).
  destruct (well_formed_track w u Hu) as [s Hs].
  { intros ->. by rewrite app_nil_r in Hu. }
  exists s. split; [done|].
  destruct (Probe.valid _ b) eqn:Hv; [|done].
  destruct Hnv. by eapply track_valid_viable.
Qed.

(** The bytes of a viable reply are all ones the prober looks at. *)
Lemma at_step_significant s w : at_step s w → Forall significant w.
Proof.
  assert (Hd : ∀ ds, Forall Cpr.digit ds → Forall significant ds).
  { intros ds Hds. eapply Forall_impl; [exact Hds|].
    intros d Hd. unfold significant, ignored, ISCONTROL, ESC.
    unfold Cpr.digit in Hd. repeat case_bool_decide; try done; lia. }
  destruct 1 as [| |ds Hlen Hds|rows cs [_ Hrows] Hlen Hcs].
  - constructor.
  - by repeat constructor.
  - repeat (constructor; [done|]). auto.
  - repeat (constructor; [done|]). apply Forall_app. split; [auto|].
    constructor; [done|auto].
Qed.
End validator.

(** ** The prober on a delivered reply *)

Section replies.
Implicit Types (st : Probe.locals) (tty_attr : termios) (b : Z) (bs w : list Z).

Lemma accept_ignored tty_attr b st :
  ignored b = true →
  Probe.accept tty_attr b st =
  Probe.Continue (Probe.Locals (extended tty_attr (Probe.deadline st) b)
                    (Probe.step st) (Probe.eom st) (Probe.reply st) DEVICE_ONLINE).
Proof.
  intros Hb. unfold Probe.accept, extended. unfold ignored in Hb. rewrite Hb. simpl.
  by destruct (bool_decide (b = XOFF) && _).
Qed.

Lemma extended_significant tty_attr d b : ignored b = false → extended tty_attr d b = d.
Proof.
  unfold extended. intros Hb.
  destruct (decide (b = XOFF)) as [->|Hne]; [done|].
  by rewrite (bool_decide_eq_false_2 _ Hne).
Qed.

Lemma accept_deadline tty_attr b st st' :
  Probe.accept tty_attr b st = Probe.Continue st' →
  Probe.deadline st' = extended tty_attr (Probe.deadline st) b.
Proof.
  destruct (ignored b) eqn:Hb.
  - rewrite accept_ignored by done. by intros [= <-].
  - rewrite extended_significant by done.
    unfold Probe.accept. unfold ignored in Hb. rewrite Hb. simpl.
    destruct (store _ _ _); [|intros; discriminate].
    destruct (Probe.valid _ _); simpl; [|intros; discriminate].
    destruct (bool_decide (Probe.adjust _ _ = 9)); intros Heq; [discriminate|].
    by simplify_eq.
Qed.

(** A byte the validator accepts, short of the closing R, is appended. *)
Lemma accept_valid tty_attr b st s :
  ignored b = false →
  track (Probe.step st) [b] = Some s →
  0 <= Probe.eom st < Z.of_nat (length (Probe.reply st)) →
  Probe.accept tty_attr b st =
  Probe.Continue (Probe.Locals (Probe.deadline st) s (Probe.eom st + 1)
                    (<[Z.to_nat (Probe.eom st) := b]> (Probe.reply st)) DEVICE_ONLINE).
Proof.
  intros Hb Hs He. unfold Probe.accept. unfold ignored in Hb. rewrite Hb. simpl in *.
  unfold store. rewrite decide_True by done.
  destruct (Probe.valid _ b); simpl in *; [|done].
  destruct (decide (Probe.adjust (Probe.step st) b = 9)) as [H9|H9].
  - rewrite bool_decide_eq_false_2 in Hs by tauto. done.
  - rewrite bool_decide_eq_true_2 in Hs by done.
    rewrite bool_decide_eq_false_2 by done. by simplify_eq.
Qed.

(** A byte the validator refuses is appended too, and ends the loop. *)
Lemma accept_invalid tty_attr b st :
  ignored b = false →
  Probe.valid (Probe.adjust (Probe.step st) b) b = false →
  0 <= Probe.eom st < Z.of_nat (length (Probe.reply st)) →
  Probe.accept tty_attr b st =
  Probe.Break (Probe.Locals (Probe.deadline st) (Probe.adjust (Probe.step st) b)
                 (Probe.eom st + 1)
                 (<[Z.to_nat (Probe.eom st) := b]> (Probe.reply st)) DEVICE_ONLINE).
Proof.
  intros Hb Hv He. unfold Probe.accept. unfold ignored in Hb. rewrite Hb. simpl.
  unfold store. rewrite decide_True by done. by rewrite Hv.
Qed.

(** The closing R resets [eom] and ends the loop. *)
Lemma accept_final tty_attr b st :
  ignored b = false →
  Probe.valid (Probe.adjust (Probe.step st) b) b = true →
  Probe.adjust (Probe.step st) b = 9 →
  0 <= Probe.eom st < Z.of_nat (length (Probe.reply st)) →
  Probe.accept tty_attr b st =
  Probe.Break (Probe.Locals (Probe.deadline st) 10 0
                 (<[Z.to_nat (Probe.eom st) := b]> (Probe.reply st)) DEVICE_ONLINE).
Proof.
  intros Hb Hv H9 He. unfold Probe.accept. unfold ignored in Hb. rewrite Hb. simpl.
  unfold store. rewrite decide_True by done. rewrite Hv, H9. done.
Qed.

(** The prober on bytes the validator accepts, ignored bytes among them:
    the accepted bytes are appended in order and the validator moves as
    [track] says. *)
Lemma digest_track tty_attr bs st s :
  0 <= Probe.eom st →
  track (Probe.step st) (filter significant bs) = Some s →
  Probe.eom st + Z.of_nat (length (filter significant bs))
    <= Z.of_nat (length (Probe.reply st)) →
  ∃ st',
    digest tty_attr bs st = Probe.Continue st' ∧
    Probe.step st' = s ∧
    Probe.eom st' = Probe.eom st + Z.of_nat (length (filter significant bs)) ∧
    length (Probe.reply st') = length (Probe.reply st) ∧
    take (Z.to_nat (Probe.eom st')) (Probe.reply st')
      = take (Z.to_nat (Probe.eom st)) (Probe.reply st) ++ filter significant bs ∧
    Probe.state st' = (if bs is [] then Probe.state st else DEVICE_ONLINE).
Proof.
  revert st. induction bs as [|b bs IH]; intros st He Hs Hlen.
  - exists st. simpl in *. simplify_eq. rewrite Z.add_0_r, app_nil_r. done.
  - simpl digest. destruct (ignored b) eqn:Hb.
    + rewrite (filter_cons_False significant) in Hs, Hlen |- * by (unfold significant; congruence).
      rewrite accept_ignored by done.
      destruct (IH (Probe.Locals (extended tty_attr (Probe.deadline st) b)
                      (Probe.step st) (Probe.eom st) (Probe.reply st) DEVICE_ONLINE))
        as (st' & Hd & ? & ? & ? & ? & Hst); [done..|].
      exists st'. repeat split; try done. simpl in Hst. by destruct bs.
    + rewrite (filter_cons_True significant) in Hs, Hlen |- * by done.
      simpl length in *.
      change (b :: filter significant bs) with ([b] ++ filter significant bs) in Hs.
      rewrite track_app in Hs.
      destruct (track (Probe.step st) [b]) as [s1|] eqn:Hs1; [|done]. simpl in Hs.
      rewrite (accept_valid _ _ _ s1) by (done || lia).
      destruct (IH (Probe.Locals (Probe.deadline st) s1 (Probe.eom st + 1)
                      (<[Z.to_nat (Probe.eom st) := b]> (Probe.reply st)) DEVICE_ONLINE))
        as (st' & Hd & ? & Heom & Hl & Htake & Hst); simpl;
        [lia|done|rewrite length_insert; lia|].
      simpl in *. rewrite length_insert in Hl.
      exists st'. repeat split; try done; [lia| |by destruct bs].
      rewrite Htake. rewrite Z2Nat.inj_add by lia.
      change (Z.to_nat 1) with 1%nat. rewrite Nat.add_1_r.
      erewrite take_S_r; [|apply list_lookup_insert_eq; lia].
      rewrite take_insert_ge by lia. by rewrite <- app_assoc.
Qed.

(** The loop on a script that feeds the bytes [bs]: it ends as the prober's
    treatment of [bs] ends. *)
Lemma loop_feeds tty_attr script bs st trace :
  feeds tty_attr (Probe.deadline st) script bs →
  match digest tty_attr bs st with
  | Probe.Break st' => ∃ trace', Probe.loop tty_attr script st trace = Probe.Finished st' trace'
  | Probe.Overrun => Probe.loop tty_attr script st trace = Probe.Crashed
  | Probe.Continue _ => True
  end.
Proof.
  remember (Probe.deadline st) as d eqn:Hd. intros Hf. revert st trace Hd.
  induction Hf as [d script|d io script bs Ht Hp _ IH|d io script bs r0 r1 Ht Hp Ha Hg _ IH
                  |d io script b bs r0 r1 more Ht Hp Ha Hg _ IH]; intros st trace ->.
  - done.
  - simpl. unfold in_time in Ht. rewrite bool_decide_eq_true_2 by done.
    unfold Probe.body. rewrite Hp. simpl. by apply IH.
  - simpl. unfold in_time in Ht. rewrite bool_decide_eq_true_2 by done.
    unfold Probe.body. rewrite Hp, Ha, Hg. simpl. by apply IH.
  - simpl. unfold in_time in Ht. rewrite bool_decide_eq_true_2 by done.
    unfold Probe.body. rewrite Hp, Ha, Hg. simpl.
    destruct (Probe.accept tty_attr b st) as [st'|st'|] eqn:Hacc.
    + apply IH. symmetry. by eapply accept_deadline.
    + by eexists.
    + done.
Qed.
End replies.

(** C8. A pass of the prober's loop that reads XOFF while IXOFF is set in
    the attributes [ping_tty] captured on entry moves the deadline by 0.1 (in
    the [double] arithmetic of the program) and changes nothing else: the
    reply buffer, [eom] and the validator's [step] are as before, and the
    loop goes on with the rest of the input. *)
Theorem xoff_extends_deadline (tty_attr : termios) (io : Probe.turn)
    (script : list Probe.turn) (st : Probe.locals) (trace : list event)
    (r0 r1 : Z) (more : list Z) :
  Z.land (c_iflag tty_attr) IXOFF ≠ 0 →
  in_time (Probe.deadline st) io →
  Probe.polled io = PollReady r0 r1 → PFDALIVE r0 = true →
  Probe.got io = ReadData (XOFF :: more) →
  let st' := Probe.Locals (Probe.deadline st + 0.1)%float (Probe.step st)
               (Probe.eom st) (Probe.reply st) DEVICE_ONLINE in
  (∀ ms, Probe.body tty_attr ms io st = (Probe.Continue st', [Poll 1 ms; Read ttyfd 1])) ∧
  Probe.loop tty_attr (io :: script) st trace
  = Probe.loop tty_attr script st'
      (trace ++ [Poll 1 (double_to_int
                           (1000 * (Probe.deadline st - timer (Probe.clock io)))%float);
                 Read ttyfd 1]).
Proof.
  intros Hix Ht Hp Ha Hg st'.
  assert (Hbody : ∀ ms, Probe.body tty_attr ms io st
                        = (Probe.Continue st', [Poll 1 ms; Read ttyfd 1])).
  { intros ms. unfold Probe.body. rewrite Hp, Ha, Hg. simpl.
    unfold Probe.accept. simpl.
    by rewrite (bool_decide_eq_true_2 _ Hix). }
  split; [done|]. simpl.
  unfold in_time in Ht. rewrite bool_decide_eq_true_2 by done.
  by rewrite Hbody.
Qed.

Lemma xoff_extends_deadline_witness :
  Probe.loop (Termios IXOFF)
    [Probe.Turn (Some (Timespec 5 0)) (PollReady POLLIN 0) (ReadData [XOFF]);
     Probe.Turn (Some (Timespec 5 250000000)) PollTimeout (ReadData [])]
    (Probe.Locals 5.2 0 0 [0; 0; 0; 0; 0; 0; 0; 0; 0; 0] DEVICE_OFFLINE) []
  = Probe.Finished
      (Probe.Locals (5.2 + 0.1) 0 0 [0; 0; 0; 0; 0; 0; 0; 0; 0; 0] DEVICE_ONLINE)
      [Poll 1 200; Read ttyfd 1; Poll 1 49].
Proof.
  destruct (xoff_extends_deadline (Termios IXOFF)
      (Probe.Turn (Some (Timespec 5 0)) (PollReady POLLIN 0) (ReadData [XOFF]))
      [Probe.Turn (Some (Timespec 5 250000000)) PollTimeout (ReadData [])]
      (Probe.Locals 5.2 0 0 [0; 0; 0; 0; 0; 0; 0; 0; 0; 0] DEVICE_OFFLINE) []
      POLLIN 0 [])
    as [_ ->]; [by vm_compute..|].
  by vm_compute.
Defined.

(** ** What [ping_tty] returns *)

Section results.
Implicit Types (st : Probe.locals) (tty_attr : termios) (b : Z) (bs w : list Z).

Lemma digest_app tty_attr bs1 bs2 st :
  digest tty_attr (bs1 ++ bs2) st =
  match digest tty_attr bs1 st with
  | Probe.Continue st' => digest tty_attr bs2 st'
  | other => other
  end.
Proof.
  revert st. induction bs1 as [|b bs1 IH]; intros st; simpl; [done|].
  destruct (Probe.accept tty_attr b st); auto.
Qed.

Lemma at_step_length s w : at_step s w → Z.of_nat (length w) <= s <= 9.
Proof.
  destruct 1 as [| |ds Hlen Hds|rows cs [Hrows _] Hlen Hcs]; simpl; try lia.
  rewrite length_app. simpl. lia.
Qed.

Lemma report_track rows cols :
  Cpr.number rows → Cpr.number cols →
  ∃ s, track 0 ([27; 91] ++ rows ++ [59] ++ cols) = Some s ∧ 7 <= s <= 9.
Proof.
  intros Hr Hc.
  destruct (track_number 2 rows (59 :: cols) Hr) as [Hrows Hrs]; [by left|].
  destruct (track_number 6 cols [] Hc) as [Hcols Hcs]; [by right|].
  exists (6 + Z.of_nat (length cols)). split; [|lia].
  change (track 2 (rows ++ 59 :: cols) = Some (6 + Z.of_nat (length cols))).
  rewrite Hrows, track_semicolon by lia.
  by rewrite <- (app_nil_r cols), Hcols, app_nil_r.
Qed.

Lemma loop_calls (P : event → Prop) tty_attr script st trace :
  (∀ ms, P (Poll 1 ms)) → P (Read ttyfd 1) → Forall P trace →
  match Probe.loop tty_attr script st trace with
  | Probe.Finished _ trace' | Probe.Starved _ trace' => Forall P trace'
  | Probe.Crashed => True
  end.
Proof.
  intros Hpoll Hread. revert st trace.
  induction script as [|io script IH]; intros st trace Htr; simpl; [done|].
  case_bool_decide; [|done].
  assert (Hb : Forall P (Probe.body tty_attr
    (double_to_int (1000 * (Probe.deadline st - timer (Probe.clock io)))) io st).2).
  { unfold Probe.body. destruct (Probe.polled io) as [|  |r0 r1]; simpl;
      [by repeat constructor..|].
    destruct (PFDALIVE r0); simpl; by repeat constructor. }
  destruct (Probe.body _ _ io st) as [[st'|st'|] calls]; simpl in *; [| |done].
  - apply IH. apply Forall_app. by split.
  - apply Forall_app. by split.
Qed.

(** [ping_tty] never signals the child, nor reads or writes its
    descriptor. *)
Lemma ping_tty_calls env reply cprtimeout r :
  Probe.ping_tty env reply cprtimeout = Probe.Returns r →
  Forall probe_call (Probe.calls r).
Proof.
  unfold Probe.ping_tty.
  destruct (Probe.tcgetattr env) as [tty_attr|]; [|intros [= <-]; constructor].
  destruct (Probe.tcsetattr_raw env); simpl; [|intros [= <-]; by repeat constructor].
  destruct (Probe.write_cpr env); simpl; [|intros [= <-]; by repeat constructor].
  destruct (Probe.tcdrain env); simpl; [|intros [= <-]; by repeat constructor].
  match goal with |- context [Probe.loop ?a ?s ?st ?tr] =>
    pose proof (loop_calls probe_call a s st tr) as Hl;
    destruct (Probe.loop a s st tr) as [st' tr'|st' tr'|]
  end; intros [= <-]. simpl.
  apply Forall_app. split; [|by repeat constructor].
  apply Hl; by repeat constructor.
Qed.

(** The probe went out, the script feeds [bs], and the prober's treatment
    of [bs] ends the loop: [ping_tty] returns what that treatment left. *)
Lemma ping_tty_feeds env tty_attr reply cprtimeout bs st' :
  probe_sent env tty_attr →
  feeds tty_attr (timer (Probe.clock0 env) + cprtimeout)%float (Probe.script env) bs →
  digest tty_attr bs
    (Probe.Locals (timer (Probe.clock0 env) + cprtimeout)%float 0 0 reply DEVICE_OFFLINE)
    = Probe.Break st' →
  ∃ calls, Probe.ping_tty env reply cprtimeout =
           Probe.Returns (Probe.Result (Probe.state st') (Probe.reply st')
                            (Probe.eom st') calls).
Proof.
  intros (Hg & Hs & Hw & Hd) Hf Hdig. unfold Probe.ping_tty.
  rewrite Hg, Hs, Hw, Hd. simpl.
  match goal with |- context [Probe.loop ?a ?s ?st ?tr] =>
    pose proof (loop_feeds a s bs st tr Hf) as Hl
  end.
  rewrite Hdig in Hl. destruct Hl as [trace' ->]. by eexists.
Qed.

(** A reply that leaves the grammar at [b]: the significant bytes read so
    far, [b] last, are in the buffer and counted by the length. *)
Lemma ping_tty_deviating env tty_attr reply cprtimeout pre w b :
  (Z.to_nat CPRSIZE ≤ length reply)%nat →
  probe_sent env tty_attr →
  Cpr.deviates w b → significant b → filter significant pre = w →
  feeds tty_attr (timer (Probe.clock0 env) + cprtimeout)%float (Probe.script env)
        (pre ++ [b]) →
  ∃ r, Probe.ping_tty env reply cprtimeout = Probe.Returns r ∧
       Probe.returned r = DEVICE_ONLINE ∧
       Probe.length r = Z.of_nat (length (w ++ [b])) ∧
       1 <= Probe.length r <= CPRSIZE ∧
       take (length (w ++ [b])) (Probe.buffer r) = w ++ [b].
Proof.
  intros Hlen Hsent Hdev Hb Hpre Hf. unfold CPRSIZE in *.
  destruct (deviates_track w b Hdev) as (s & Hs & Hv).
  pose proof (at_step_length s w (track_shape w s Hs)) as Hws.
  set (st0 := Probe.Locals (timer (Probe.clock0 env) + cprtimeout)%float 0 0 reply
                DEVICE_OFFLINE).
  destruct (digest_track tty_attr pre st0 s) as (st1 & Hd1 & Hstep & Heom & Hl & Htake & _);
    [simpl; lia|by rewrite Hpre|simpl; rewrite Hpre; lia|].
  rewrite Hpre in Heom, Htake. simpl in Heom, Htake, Hl.
  assert (Hdig : digest tty_attr (pre ++ [b]) st0 = Probe.Break
            (Probe.Locals (Probe.deadline st1) (Probe.adjust s b) (Probe.eom st1 + 1)
               (<[Z.to_nat (Probe.eom st1) := b]> (Probe.reply st1)) DEVICE_ONLINE)).
  { rewrite digest_app, Hd1. simpl.
    rewrite accept_invalid by (done || (rewrite ?Hstep; done) || lia).
    by rewrite Hstep. }
  destruct (ping_tty_feeds env tty_attr reply cprtimeout _ _ Hsent Hf Hdig) as [calls Hping].
  eexists. split; [exact Hping|]. simpl.
  rewrite length_app. simpl. repeat split; try lia.
  assert (He : Z.to_nat (Probe.eom st1) = length w) by lia.
  rewrite He in *. rewrite Nat.add_1_r.
  erewrite take_S_r; [|apply list_lookup_insert_eq; lia].
  by rewrite take_insert_ge, Htake by lia.
Qed.

(** A well-formed reply: the closing R resets the length to zero. *)
Lemma ping_tty_well_formed env tty_attr reply cprtimeout r0 :
  (Z.to_nat CPRSIZE ≤ length reply)%nat →
  probe_sent env tty_attr →
  Cpr.well_formed r0 →
  feeds tty_attr (timer (Probe.clock0 env) + cprtimeout)%float (Probe.script env) r0 →
  ∃ r, Probe.ping_tty env reply cprtimeout = Probe.Returns r ∧
       Probe.returned r = DEVICE_ONLINE ∧ Probe.length r = 0.
Proof.
  intros Hlen Hsent (rows & cols & Hr & Hc & ->) Hf. unfold CPRSIZE in *.
  destruct (report_track rows cols Hr Hc) as (s & Hs & Hs9).
  set (w := [27; 91] ++ rows ++ [59] ++ cols) in *.
  assert (Hrep : Cpr.report rows cols = w ++ [82]).
  { unfold Cpr.report, w. by rewrite <- !app_assoc. }
  rewrite Hrep in Hf. clearbody w.
  pose proof (track_shape w s Hs) as Hat.
  pose proof (at_step_length s w Hat) as Hws.
  pose proof (at_step_significant s w Hat) as Hsig.
  set (st0 := Probe.Locals (timer (Probe.clock0 env) + cprtimeout)%float 0 0 reply
                DEVICE_OFFLINE).
  assert (Hfw : filter significant w = w) by by apply filter_all.
  assert (Ht : track (Probe.step st0) (filter significant w) = Some s)
    by (rewrite Hfw; exact Hs).
  assert (Hroom : Probe.eom st0 + Z.of_nat (length (filter significant w))
                  <= Z.of_nat (length (Probe.reply st0)))
    by (rewrite Hfw; simpl; lia).
  destruct (digest_track tty_attr w st0 s) as (st1 & Hd1 & Hstep & Heom & Hl & _ & _);
    [simpl; lia|done|done|].
  rewrite Hfw in Heom. simpl in Heom, Hl.
  assert (Hadj : Probe.adjust s 82 = 9 ∧ Probe.valid (Probe.adjust s 82) 82 = true).
  { assert (s = 7 ∨ s = 8 ∨ s = 9) as [-> | [-> | ->]] by lia; by vm_compute. }
  destruct Hadj as [H9 Hv].
  assert (Hdig : digest tty_attr (w ++ [82]) st0 = Probe.Break
            (Probe.Locals (Probe.deadline st1) 10 0
               (<[Z.to_nat (Probe.eom st1) := 82]> (Probe.reply st1)) DEVICE_ONLINE)).
  { rewrite digest_app, Hd1. simpl.
    by rewrite accept_final by (done || (by rewrite Hstep) || lia). }
  destruct (ping_tty_feeds env tty_attr reply cprtimeout _ _ Hsent Hf Hdig) as [calls Hping].
  eexists. split; [exact Hping|]. done.
Qed.
End results.

(** ** The mediator loop, one turn at a time *)

Section turns.
Implicit Types (st : Mediator.locals) (io : Mediator.turn) (evs : list event).

Lemma arm_txok io st : Mediator.txok (Mediator.arm io st) = Mediator.txok st.
Proof. unfold Mediator.arm. by destruct (Mediator.finite _). Qed.

Lemma account_txok io st : Mediator.txok (Mediator.account io st) = Mediator.txok st.
Proof.
  unfold Mediator.account. destruct (Mediator.polled io); try done.
  by destruct (Mediator.finite _).
Qed.

Lemma polled_revents_txok n res st :
  Mediator.txok (Mediator.polled_revents n res st) = Mediator.txok st.
Proof. by destruct res. Qed.

Lemma resize_quiet io : Forall (λ e, ¬ Mediator.child_to_tty e) (Mediator.resize io).
Proof.
  unfold Mediator.resize.
  destruct (Mediator.sigwinch_pending io), (Mediator.winsize_read io),
    (Mediator.winsize_set io); repeat constructor; simpl; tauto.
Qed.

(** The terminal's side of a turn never touches the child's output. *)
Lemma from_tty_quiet io st :
  Forall (λ e, ¬ Mediator.child_to_tty e) (Mediator.from_tty io st).2.
Proof.
  unfold Mediator.from_tty.
  case_bool_decide; [constructor|].
  destruct (PFDALIVE _); simpl; [|constructor].
  destruct (Mediator.sys_read _ _) as [received' buffer'].
  case_bool_decide; [repeat constructor; simpl; tauto|].
  destruct (if bool_decide _ then _ else _) as [[[b r] t]|]; simpl; [|constructor].
  case_bool_decide; repeat constructor; simpl; tauto.
Qed.

(** The child's side of a turn leaves [txok] alone, and does nothing at
    all while [txok] is zero. *)
Lemma from_child_txok io st fl evs :
  Mediator.from_child io st = (fl, evs) →
  match fl with
  | Mediator.Next st' | Mediator.Exit st' =>
      Mediator.txok st' = Mediator.txok st ∧ (Mediator.txok st = 0 → evs = [])
  | _ => False
  end.
Proof.
  unfold Mediator.from_child.
  destruct (PFDALIVE _); simpl; [|by intros [= <- <-]].
  destruct (decide (Mediator.txok st = 0)) as [H0|H0].
  - rewrite bool_decide_eq_false_2 by tauto. simpl. by intros [= <- <-].
  - rewrite bool_decide_eq_true_2 by done. simpl.
    destruct (bool_decide (Mediator.revents1 st ≠ 0)); [|by intros [= <- <-]].
    destruct (Mediator.sys_read _ _) as [received' buffer'].
    case_bool_decide; intros [= <- <-]; simpl; split; done.
Qed.

Lemma conclude_next st state' buffer' received' :
  ∃ st', (Mediator.conclude st state' buffer' received').1 = Mediator.Next st' ∧
         Mediator.txok st' = Mediator.txok st ∧
         Mediator.state st' = state' ∧
         Mediator.buffer st' = buffer' ∧ Mediator.received st' = received'.
Proof. unfold Mediator.conclude. destruct (decide _); by eexists. Qed.

Lemma timed_out_txok cprtimeout io st fl evs :
  Mediator.timed_out cprtimeout io st = (fl, evs) →
  match fl with
  | Mediator.Next st' => Mediator.txok st' = Mediator.txok st
  | Mediator.Exit _ => False
  | _ => Mediator.txok st ≠ 0
  end.
Proof.
  unfold Mediator.timed_out. case_bool_decide as Htx.
  - destruct (Probe.ping_tty _ _ _) as [r| |].
    + destruct (conclude_next st (Probe.returned r) (Probe.buffer r) (Probe.length r))
        as (st' & Hc & Ht & _).
      destruct (Mediator.conclude _ _ _ _) as [fl' sig]. simpl in Hc. subst fl'.
      by intros [= <- <-].
    + by intros [= <- <-].
    + by intros [= <- <-].
  - destruct (conclude_next st DEVICE_OFFLINE (Mediator.buffer st) (Mediator.received st))
      as (st' & Hc & Ht & _).
    destruct (Mediator.conclude _ _ _ _) as [fl' sig]. simpl in Hc. subst fl'.
    by intros [= <- <-].
Qed.

Lemma timed_out_suspended cprtimeout io st :
  Mediator.txok st = 0 →
  Mediator.timed_out cprtimeout io st =
  (Mediator.Next (Mediator.Locals (-1)%float (-1) (Mediator.start st) DEVICE_OFFLINE
                    (Mediator.txok st) (Mediator.buffer st) (Mediator.received st)
                    (Mediator.tty_attr st) (Mediator.revents0 st) (Mediator.revents1 st)),
   [Kill SIGHUP]).
Proof.
  intros H0. unfold Mediator.timed_out.
  rewrite bool_decide_eq_false_2 by tauto. done.
Qed.

Lemma sys_read_bounds r buffer :
  (Mediator.sys_read r buffer).1 <= Z.of_nat (length (Mediator.sys_read r buffer).2).
Proof.
  destruct r as [data|errno]; simpl; [|lia].
  rewrite length_app. lia.
Qed.

(** The terminal's side of a turn never overruns the buffer, and reads the
    terminal whenever [poll] reported it readable and alive. *)
Lemma from_tty_reads io st :
  (Mediator.from_tty io st).1 ≠ Mediator.Overrun ∧
  (Mediator.from_tty io st).1 ≠ Mediator.Blocked ∧
  (Mediator.revents0 st ≠ 0 → PFDALIVE (Mediator.revents0 st) = true →
   ∃ rest, (Mediator.from_tty io st).2 = Read ttyfd BUFSIZ :: rest).
Proof.
  unfold Mediator.from_tty.
  case_bool_decide as Hr; [by repeat split|].
  destruct (PFDALIVE _); simpl; [|by repeat split].
  pose proof (sys_read_bounds (Mediator.tty_read io) (Mediator.buffer st)) as Hb.
  destruct (Mediator.sys_read _ _) as [received' buffer']. simpl in Hb.
  case_bool_decide as Hpos; [repeat split; eauto|].
  case_bool_decide.
  - destruct (flow_control_preprocessor_eq buffer' received' (Mediator.txok st))
      as (buf'' & -> & _); [lia|]. simpl. repeat split; eauto.
  - repeat split; eauto.
Qed.

(** One turn, seen from the flag: with [txok] zero on entry only the
    terminal is polled; a terminal reported readable is read; and a turn
    that leaves [txok] zero has neither read the child nor written to the
    terminal. *)
Lemma body_gated cprtimeout io st :
  (Mediator.txok st = 0 →
   ∃ rest, (Mediator.body cprtimeout io st).2 =
           Poll 1 (Mediator.polltimeoutms (Mediator.arm io st)) :: rest) ∧
  (∀ r0 r1, Mediator.polled io = PollReady r0 r1 → r0 ≠ 0 → PFDALIVE r0 = true →
   Read ttyfd BUFSIZ ∈ (Mediator.body cprtimeout io st).2) ∧
  (∀ st', (Mediator.body cprtimeout io st).1 = Mediator.Next st' ∨
          (Mediator.body cprtimeout io st).1 = Mediator.Exit st' →
          Mediator.txok st' = 0 →
          Forall (λ e, ¬ Mediator.child_to_tty e) (Mediator.body cprtimeout io st).2).
Proof.
  unfold Mediator.body.
  pose proof (arm_txok io st) as Harm.
  set (st1 := Mediator.arm io st) in *.
  pose proof (polled_revents_txok (Mediator.nfds st1) (Mediator.polled io) st1) as Hrev.
  set (st2 := Mediator.polled_revents _ _ st1) in *.
  assert (Hpoll : ¬ Mediator.child_to_tty (Poll (Mediator.nfds st1) (Mediator.polltimeoutms st1)))
    by (simpl; tauto).
  split; [|split].
  - intros H0. unfold Mediator.nfds. rewrite bool_decide_eq_false_2 by (rewrite Harm; tauto).
    destruct (Mediator.dispatch _ _ _) as [[| | |] ?]; simpl; eauto.
  - intros r0 r1 Hp Hr0 Halive. unfold Mediator.dispatch. rewrite Hp.
    destruct (from_tty_reads io st2) as (Hno & Hnb & Hread).
    destruct Hread as [rest Hrest].
    { subst st2. rewrite Hp. done. }
    { subst st2. rewrite Hp. done. }
    destruct (Mediator.from_tty io st2) as [fl1 evs1]. simpl in *. subst evs1.
    destruct fl1 as [st3| | |]; try done.
    + destruct (Mediator.from_child io st3) as [[| | |] evs2]; simpl;
        rewrite elem_of_cons; right; rewrite elem_of_cons; by left.
    + simpl. rewrite elem_of_cons; right; rewrite elem_of_cons; by left.
  - intros st' Hfl H0. unfold Mediator.dispatch in *.
    destruct (Mediator.polled io) as [errno| |r0 r1] eqn:Hp.
    + case_bool_decide; simpl in *; (constructor; [done|]);
        [constructor|apply resize_quiet].
    + destruct (decide (Mediator.txok st2 = 0)) as [H2|H2].
      * rewrite timed_out_suspended by done. simpl.
        constructor; [done|]. constructor; [simpl; tauto|]. apply resize_quiet.
      * pose proof (timed_out_txok cprtimeout io st2) as Ht.
        destruct (Mediator.timed_out cprtimeout io st2) as [fl evs].
        specialize (Ht fl evs eq_refl).
        destruct fl as [st3| | |]; simpl in *.
        -- destruct Hfl as [[= <-]|[=]]. rewrite account_txok in H0. congruence.
        -- done.
        -- by destruct Hfl.
        -- by destruct Hfl.
    + pose proof (from_tty_quiet io st2) as Hq1.
      destruct (Mediator.from_tty io st2) as [fl1 evs1]. simpl in Hq1.
      destruct fl1 as [st3| | |]; simpl in *; try (by constructor).
      pose proof (from_child_txok io st3) as Hc.
      destruct (Mediator.from_child io st3) as [fl2 evs2].
      specialize (Hc fl2 evs2 eq_refl).
      destruct fl2 as [st4|st4| |]; simpl in *; try done.
      * destruct Hfl as [[= <-]|[=]]. rewrite account_txok in H0.
        destruct Hc as [Heq Hnil]. rewrite Hnil by congruence.
        constructor; [done|]. rewrite app_nil_r. apply Forall_app. split; [done|].
        apply resize_quiet.
      * destruct Hfl as [[=]|[= <-]].
        destruct Hc as [Heq Hnil]. rewrite Hnil by congruence.
        constructor; [done|]. by rewrite app_nil_r.
Qed.
End turns.

(** ** The loop over many turns *)

Section runs.
Implicit Types (st : Mediator.locals) (io : Mediator.turn) (evs : list event).

Lemma run_faithful cprtimeout script st :
  Forall (faithful cprtimeout) (Mediator.run cprtimeout script st).
Proof.
  revert st. induction script as [|io script IH]; intros st; simpl; [constructor|].
  destruct (Mediator.body cprtimeout io st) as [fl evs] eqn:Hb.
  constructor; [done|]. destruct fl; auto.
Qed.

Lemma written_app fd evs1 evs2 :
  Mediator.written fd (evs1 ++ evs2) = Mediator.written fd evs1 ++ Mediator.written fd evs2.
Proof. unfold Mediator.written. by rewrite bind_app. Qed.

Lemma written_quiet evs :
  Forall (λ e, ¬ Mediator.child_to_tty e) evs → Mediator.written ttyfd evs = [].
Proof.
  induction 1 as [|e evs He _ IH]; [done|].
  change (e :: evs) with ([e] ++ evs). rewrite written_app, IH, app_nil_r.
  destruct e as [| |[] ?| | | |]; simpl in *; try done.
Qed.

Lemma trace_app (h1 h2 : list Mediator.moment) :
  Mediator.trace (h1 ++ h2) = Mediator.trace h1 ++ Mediator.trace h2.
Proof. unfold Mediator.trace. by rewrite bind_app. Qed.

Lemma trace_cons (m : Mediator.moment) h :
  Mediator.trace (m :: h) = Mediator.calls m ++ Mediator.trace h.
Proof. done. Qed.
End runs.

(** C4. In every turn of the mediator loop: when [txok] is zero on entry
    the [poll] covers the terminal alone; a terminal reported readable and
    alive is read; and a turn that leaves [txok] zero has neither read the
    child's descriptor nor written anything to the terminal.  Hence over
    any stretch of turns that each leave [txok] zero, no byte reaches the
    terminal. *)
Theorem transmission_gated (cprtimeout : float) (script : list Mediator.turn)
    (st : Mediator.locals) :
  Forall (λ m,
      (Mediator.txok (Mediator.before m) = 0 →
       ∃ ms rest, Mediator.calls m = Poll 1 ms :: rest) ∧
      (∀ r0 r1, Mediator.polled (Mediator.met m) = PollReady r0 r1 →
                r0 ≠ 0 → PFDALIVE r0 = true →
                Read ttyfd BUFSIZ ∈ Mediator.calls m) ∧
      (txok_after m = Some 0 →
       Forall (λ e, ¬ Mediator.child_to_tty e) (Mediator.calls m)))
    (Mediator.run cprtimeout script st) ∧
  ∀ earlier window later,
    Mediator.run cprtimeout script st = earlier ++ window ++ later →
    Forall (λ m, txok_after m = Some 0) window →
    Forall (λ e, ¬ Mediator.child_to_tty e) (Mediator.trace window) ∧
    Mediator.written ttyfd (Mediator.trace window) = [].
Proof.
  assert (Hturns : Forall (λ m,
      (Mediator.txok (Mediator.before m) = 0 →
       ∃ ms rest, Mediator.calls m = Poll 1 ms :: rest) ∧
      (∀ r0 r1, Mediator.polled (Mediator.met m) = PollReady r0 r1 →
                r0 ≠ 0 → PFDALIVE r0 = true →
                Read ttyfd BUFSIZ ∈ Mediator.calls m) ∧
      (txok_after m = Some 0 →
       Forall (λ e, ¬ Mediator.child_to_tty e) (Mediator.calls m)))
    (Mediator.run cprtimeout script st)).
  { eapply Forall_impl; [apply run_faithful|].
    intros [pre io evs fl] Hm. unfold faithful in Hm. simpl in Hm.
    destruct (body_gated cprtimeout io pre) as (H1 & H2 & H3).
    rewrite Hm in H1, H2, H3. simpl in *.
    split; [|split].
    - intros H0. destruct (H1 H0) as [rest ->]. eauto.
    - done.
    - unfold txok_after. simpl. destruct fl as [st'|st'| |]; intros [= H0]; eauto. }
  split; [done|].
  intros earlier window later Heq Hw.
  rewrite Heq in Hturns.
  apply Forall_app in Hturns as [_ Hturns]. apply Forall_app in Hturns as [Hturns _].
  assert (Hq : Forall (λ e, ¬ Mediator.child_to_tty e) (Mediator.trace window)).
  { clear Heq. induction window as [|m window IH]; [constructor|].
    apply Forall_cons in Hturns as [(_ & _ & Hm) Hturns].
    apply Forall_cons in Hw as [Hm0 Hw].
    rewrite trace_cons. apply Forall_app. split; auto. }
  split; [done|]. by apply written_quiet.
Qed.

(** C7. When [poll] times out while [txok] is zero, the turn does not call
    [ping_tty]: it polls the terminal alone, sends SIGHUP to the child and,
    window handling aside, does nothing else; nothing is written to the
    terminal.  The state becomes [DEVICE_OFFLINE], and [timeout] and
    [polltimeoutms] both become -1, so the next [poll] waits for ever. *)
Theorem offline_without_probe (cprtimeout : float) (io : Mediator.turn)
    (st : Mediator.locals) :
  Mediator.txok st = 0 → Mediator.polled io = PollTimeout →
  ∃ st' ms,
    Mediator.body cprtimeout io st
      = (Mediator.Next st', Poll 1 ms :: Kill SIGHUP :: Mediator.resize io) ∧
    Mediator.written ttyfd (Mediator.body cprtimeout io st).2 = [] ∧
    Mediator.state st' = DEVICE_OFFLINE ∧
    Mediator.timeout st' = (-1)%float ∧ Mediator.polltimeoutms st' = -1 ∧
    Mediator.txok st' = 0 ∧
    ∀ io', Mediator.arm io' st' = st'.
Proof.
  intros H0 Hp.
  unfold Mediator.body in *.
  pose proof (arm_txok io st) as Harm.
  set (st1 := Mediator.arm io st) in *.
  unfold Mediator.nfds in *. rewrite bool_decide_eq_false_2 in * by (rewrite Harm; tauto).
  unfold Mediator.dispatch in *. rewrite Hp in *.
  rewrite timed_out_suspended in * by (simpl; congruence).
  unfold Mediator.account in *. rewrite Hp in *. simpl in *.
  eexists _, _. split; [done|]. simpl.
  split; [|by rewrite Harm].
  apply written_quiet, resize_quiet.
Qed.

Lemma offline_without_probe_witness :
  ∃ st' ms,
    Mediator.body 0.2
      (Mediator.Turn (Some (Timespec 100 0)) PollTimeout
         (Probe.Environment None false false false None [])
         (ReadData []) None (ReadData []) false false false None)
      (Mediator.Locals 10 10000 0 DEVICE_ONLINE 0 [0; 0; 0; 0; 0; 0; 0; 0; 0; 0] 1
         (Termios IXOFF) 0 0)
    = (Mediator.Next st', [Poll 1 ms; Kill SIGHUP]) ∧
    Mediator.polltimeoutms st' = -1.
Proof.
  destruct (offline_without_probe 0.2
      (Mediator.Turn (Some (Timespec 100 0)) PollTimeout
         (Probe.Environment None false false false None [])
         (ReadData []) None (ReadData []) false false false None)
      (Mediator.Locals 10 10000 0 DEVICE_ONLINE 0 [0; 0; 0; 0; 0; 0; 0; 0; 0; 0] 1
         (Termios IXOFF) 0 0))
    as (st' & ms & Hb & _ & _ & _ & Hms & _); [reflexivity|reflexivity|].
  exists st', ms. split; [exact Hb|exact Hms].
Defined.

(** ** Probing from the loop, and input after a probe *)

Section forwarding.
Implicit Types (st : Mediator.locals) (io : Mediator.turn) (evs : list event).

Lemma written_probe_calls evs : Forall probe_call evs → Mediator.written childfd evs = [].
Proof.
  induction 1 as [|e evs He _ IH]; [done|].
  change (e :: evs) with ([e] ++ evs). rewrite written_app, IH, app_nil_r.
  by destruct e as [| |[] ?| | | |].
Qed.

Lemma hangups_app evs1 evs2 : hangups (evs1 ++ evs2) = (hangups evs1 + hangups evs2)%nat.
Proof. unfold hangups. by rewrite filter_app, length_app. Qed.

Lemma hangups_probe_calls evs : Forall probe_call evs → hangups evs = 0%nat.
Proof.
  induction 1 as [|e evs He _ IH]; [done|].
  change (e :: evs) with ([e] ++ evs). rewrite hangups_app, IH.
  by destruct e.
Qed.

Lemma resize_written io : Mediator.written childfd (Mediator.resize io) = [].
Proof.
  unfold Mediator.resize.
  by destruct (Mediator.sigwinch_pending io), (Mediator.winsize_read io),
    (Mediator.winsize_set io).
Qed.

Lemma resize_hangups io : hangups (Mediator.resize io) = 0%nat.
Proof.
  unfold Mediator.resize.
  by destruct (Mediator.sigwinch_pending io), (Mediator.winsize_read io),
    (Mediator.winsize_set io).
Qed.

(** The turn in which [poll] times out with [txok] set and [ping_tty]
    returns: the probe's calls, then the reply bytes to the child if there
    are any, then SIGHUP if the device is offline. *)
Lemma body_probe cprtimeout io st r :
  Mediator.txok st ≠ 0 → Mediator.polled io = PollTimeout →
  Probe.ping_tty (Mediator.probe io) (Mediator.buffer st) cprtimeout = Probe.Returns r →
  let offline := bool_decide (Probe.returned r = DEVICE_OFFLINE) in
  Mediator.body cprtimeout io st =
  (Mediator.Next
     (Mediator.Locals
        (if offline then (-1)%float else Mediator.timeout st)
        (if offline then -1 else double_to_int (1000 * Mediator.timeout st)%float)
        (Mediator.start (Mediator.arm io st)) (Probe.returned r) (Mediator.txok st)
        (Probe.buffer r) (Probe.length r) (Mediator.tty_attr st) 0 0),
   Poll 2 (Mediator.polltimeoutms (Mediator.arm io st)) ::
   (Probe.calls r ++
    (if bool_decide (0 < Probe.length r)
     then [Write childfd (take (Z.to_nat (Probe.length r)) (Probe.buffer r))]
     else []) ++
    (if offline then [Kill SIGHUP] else [])) ++
   Mediator.resize io).
Proof.
  intros Htx Hp Hping offline. unfold Mediator.body.
  assert (Harm : Mediator.txok (Mediator.arm io st) = Mediator.txok st ∧
                 Mediator.buffer (Mediator.arm io st) = Mediator.buffer st ∧
                 Mediator.timeout (Mediator.arm io st) = Mediator.timeout st ∧
                 Mediator.tty_attr (Mediator.arm io st) = Mediator.tty_attr st).
  { unfold Mediator.arm. by destruct (Mediator.finite _). }
  destruct Harm as (Ha1 & Ha2 & Ha3 & Ha4).
  set (st1 := Mediator.arm io st) in *.
  unfold Mediator.nfds. rewrite bool_decide_eq_true_2 by congruence.
  unfold Mediator.dispatch. rewrite Hp. simpl.
  unfold Mediator.timed_out. simpl.
  rewrite bool_decide_eq_true_2 by congruence.
  rewrite Ha2, Hping. unfold Mediator.conclude. simpl.
  unfold Mediator.account. rewrite Hp. subst offline.
  destruct (decide (Probe.returned r = DEVICE_OFFLINE)) as [Hoff|Hon].
  - rewrite (bool_decide_eq_true_2 _ Hoff). simpl. by rewrite Ha1, Ha4.
  - rewrite (bool_decide_eq_false_2 _ Hon). simpl. rewrite Ha1, Ha3, Ha4.
    by rewrite app_nil_r.
Qed.

Lemma from_child_written io st :
  Mediator.written childfd (Mediator.from_child io st).2 = [] ∧
  hangups (Mediator.from_child io st).2 = 0%nat.
Proof.
  unfold Mediator.from_child.
  destruct (PFDALIVE _); simpl; [|done].
  destruct (_ && _); [|done].
  destruct (Mediator.sys_read _ _) as [received' buffer'].
  by case_bool_decide.
Qed.

(** Input that the terminal has ready, free of flow-control bytes, goes to
    the child as it is. *)
Lemma from_tty_input io st rest :
  Mediator.revents0 st ≠ 0 → PFDALIVE (Mediator.revents0 st) = true →
  Mediator.tty_read io = ReadData rest →
  (0 < length rest ≤ Z.to_nat BUFSIZ)%nat → Forall Flow.data_byte rest →
  Mediator.written childfd (Mediator.from_tty io st).2 = rest ∧
  hangups (Mediator.from_tty io st).2 = 0%nat.
Proof.
  intros Hr Ha Hread Hlen Hdata. unfold Mediator.from_tty.
  rewrite bool_decide_eq_false_2, Ha, Hread by done. simpl.
  rewrite take_ge by lia.
  rewrite bool_decide_eq_false_2 by lia.
  set (buffer' := rest ++ drop (length rest) (Mediator.buffer st)).
  assert (Htake : take (length rest) buffer' = rest) by apply take_app_length.
  case_bool_decide.
  - destruct (flow_control_preprocessor_eq buffer' (Z.of_nat (length rest)) (Mediator.txok st))
      as (buf'' & Heq & _ & Hkept & _).
    { unfold buffer'. rewrite length_app. lia. }
    rewrite Nat2Z.id, Htake, (filter_all Flow.data_byte rest Hdata) in Heq, Hkept.
    rewrite Heq. simpl. rewrite bool_decide_eq_true_2 by lia.
    simpl. by rewrite Nat2Z.id, Hkept, app_nil_r.
  - simpl. rewrite bool_decide_eq_true_2 by lia.
    simpl. by rewrite Nat2Z.id, Htake, app_nil_r.
Qed.

Lemma hangups_poll n ms evs : hangups (Poll n ms :: evs) = hangups evs.
Proof. done. Qed.

Lemma written_poll fd n ms evs :
  Mediator.written fd (Poll n ms :: evs) = Mediator.written fd evs.
Proof. done. Qed.

Lemma body_tty_input cprtimeout io st r0 r1 rest :
  Mediator.polled io = PollReady r0 r1 → r0 ≠ 0 → PFDALIVE r0 = true →
  Mediator.tty_read io = ReadData rest →
  (0 < length rest ≤ Z.to_nat BUFSIZ)%nat → Forall Flow.data_byte rest →
  Mediator.written childfd (Mediator.body cprtimeout io st).2 = rest ∧
  hangups (Mediator.body cprtimeout io st).2 = 0%nat.
Proof.
  intros Hp Hr Ha Hread Hlen Hdata. unfold Mediator.body.
  set (st1 := Mediator.arm io st).
  set (st2 := Mediator.polled_revents (Mediator.nfds st1) (Mediator.polled io) st1).
  assert (Hrev : Mediator.revents0 st2 = r0) by (subst st2; by rewrite Hp).
  unfold Mediator.dispatch. rewrite Hp.
  destruct (from_tty_input io st2 rest) as [Hw Hh]; [by rewrite Hrev..|done|done|done|].
  destruct (Mediator.from_tty io st2) as [fl1 evs1]. simpl in Hw, Hh.
  destruct fl1 as [st3| | |]; simpl snd;
    rewrite ?hangups_poll, ?written_poll; try done.
  destruct (from_child_written io st3) as [Hcw Hch].
  destruct (Mediator.from_child io st3) as [fl2 evs2]. simpl in Hcw, Hch.
  destruct fl2; simpl snd;
    rewrite ?hangups_poll, ?written_poll, ?written_app, ?hangups_app, Hw, Hh, Hcw, Hch,
      ?resize_written, ?resize_hangups, ?app_nil_r; done.
Qed.
End forwarding.

(** C2. A well-formed report, ESC [ rows ; cols R with one to three digits
    in each number, delivered before the deadline, makes [ping_tty] return
    [DEVICE_ONLINE] with a reply length of zero.  The turn of the mediator
    loop that ran the probe then writes nothing to the child and sends no
    hangup.  The jump that makes short numbers acceptable takes the
    validator from step 3 or 4 to step 5 on a semicolon, and from step 7 or
    8 to step 9 on an R. *)
Theorem well_formed_reply_consumed (cprtimeout : float) (io : Mediator.turn)
    (st : Mediator.locals) (tty_attr : termios) (reply : list Z) :
  (Z.to_nat CPRSIZE ≤ length (Mediator.buffer st))%nat →
  probe_sent (Mediator.probe io) tty_attr →
  Cpr.well_formed reply →
  feeds tty_attr (timer (Probe.clock0 (Mediator.probe io)) + cprtimeout)%float
        (Probe.script (Mediator.probe io)) reply →
  (∃ r, Probe.ping_tty (Mediator.probe io) (Mediator.buffer st) cprtimeout
        = Probe.Returns r ∧
        Probe.returned r = DEVICE_ONLINE ∧ Probe.length r = 0) ∧
  (Mediator.txok st ≠ 0 → Mediator.polled io = PollTimeout →
   ∃ st' evs, Mediator.body cprtimeout io st = (Mediator.Next st', evs) ∧
     Mediator.written childfd evs = [] ∧ hangups evs = 0%nat ∧
     Mediator.state st' = DEVICE_ONLINE ∧ Mediator.received st' = 0) ∧
  Probe.adjust 3 59 = 5 ∧ Probe.adjust 4 59 = 5 ∧
  Probe.adjust 7 82 = 9 ∧ Probe.adjust 8 82 = 9.
Proof.
  intros Hlen Hsent Hwf Hf.
  destruct (ping_tty_well_formed _ _ _ _ _ Hlen Hsent Hwf Hf) as (r & Hping & Hon & Hzero).
  split; [by exists r|]. split; [|by vm_compute].
  intros Htx Hp. eexists _, _. split; [by apply body_probe|].
  pose proof (ping_tty_calls _ _ _ _ Hping) as Hcalls.
  rewrite Hon, Hzero. simpl.
  rewrite ?written_poll, ?hangups_poll, !written_app, !hangups_app,
    resize_written, resize_hangups.
  by rewrite written_probe_calls, hangups_probe_calls.
Qed.

Lemma well_formed_reply_consumed_witness :
  ∃ st',
    Mediator.body 0.2
      (Sample.turn 100 PollTimeout (Sample.probe Sample.report_24_80) (ReadData []))
      (Sample.entered 1)
    = (Mediator.Next st',
       [Poll 2 1000; Tcsetattr TCSAFLUSH (Termios 0); Write ttyfd ANSI_CPR; Tcdrain;
        Poll 1 189; Read ttyfd 1; Poll 1 189; Read ttyfd 1; Poll 1 188; Read ttyfd 1;
        Poll 1 186; Read ttyfd 1; Poll 1 186; Read ttyfd 1; Poll 1 185; Read ttyfd 1;
        Poll 1 183; Read ttyfd 1; Poll 1 183; Read ttyfd 1;
        Tcsetattr TCSADRAIN (Termios 0)]) ∧
    Mediator.state st' = DEVICE_ONLINE ∧ Mediator.received st' = 0.
Proof.
  destruct (well_formed_reply_consumed 0.2
      (Sample.turn 100 PollTimeout (Sample.probe Sample.report_24_80) (ReadData []))
      (Sample.entered 1) (Termios 0) [27; 91; 50; 52; 59; 56; 48; 82])
    as (_ & Hturn & _).
  - vm_compute. lia.
  - by repeat split.
  - exists [50; 52], [56; 48].
    repeat split; simpl; try lia; repeat constructor; unfold Cpr.digit; lia.
  - repeat (eapply feeds_byte; [by vm_compute|reflexivity|reflexivity|reflexivity|]).
    apply feeds_nil.
  - destruct Hturn as (st' & evs & Hbody & _ & _ & Hst & Hrec); [done|done|].
    exists st'. split; [|split; [exact Hst|exact Hrec]].
    rewrite Hbody. f_equal.
    assert (Hevs : (Mediator.body 0.2
      (Sample.turn 100 PollTimeout (Sample.probe Sample.report_24_80) (ReadData []))
      (Sample.entered 1)).2 = evs) by by rewrite Hbody.
    rewrite <- Hevs. vm_compute. reflexivity.
Defined.

(** C3. A reply that leaves the grammar of the report at some byte [b]
    (the first byte the prober looks at when that is not ESC, or a later
    one), delivered before the deadline, makes [ping_tty] return
    [DEVICE_ONLINE]; the bytes it has looked at, [b] last, are in the reply
    buffer and counted by the reply length.  The turn of the mediator loop
    that ran the probe writes exactly those bytes to the child, sends no
    hangup and restores the timeout.  What the terminal sent after [b]
    reaches the child through the next read of the terminal, so a terminal
    that answers "hi" has the child receive "hi". *)
Theorem malformed_reply_forwarded (cprtimeout : float) (io : Mediator.turn)
    (st : Mediator.locals) (tty_attr : termios) (pre w : list Z) (b : Z) :
  Mediator.txok st ≠ 0 → Mediator.polled io = PollTimeout →
  (Z.to_nat CPRSIZE ≤ length (Mediator.buffer st))%nat →
  probe_sent (Mediator.probe io) tty_attr →
  Cpr.deviates w b → significant b → filter significant pre = w →
  feeds tty_attr (timer (Probe.clock0 (Mediator.probe io)) + cprtimeout)%float
        (Probe.script (Mediator.probe io)) (pre ++ [b]) →
  ∃ r st' evs,
    Probe.ping_tty (Mediator.probe io) (Mediator.buffer st) cprtimeout = Probe.Returns r ∧
    Probe.returned r = DEVICE_ONLINE ∧
    Probe.length r = Z.of_nat (length (w ++ [b])) ∧
    take (length (w ++ [b])) (Probe.buffer r) = w ++ [b] ∧
    Mediator.body cprtimeout io st = (Mediator.Next st', evs) ∧
    Mediator.written childfd evs = w ++ [b] ∧
    hangups evs = 0%nat ∧
    Mediator.state st' = DEVICE_ONLINE ∧
    Mediator.polltimeoutms st' = double_to_int (1000 * Mediator.timeout st)%float ∧
    ∀ io' r0 r1 rest,
      Mediator.polled io' = PollReady r0 r1 → r0 ≠ 0 → PFDALIVE r0 = true →
      Mediator.tty_read io' = ReadData rest →
      (0 < length rest ≤ Z.to_nat BUFSIZ)%nat → Forall Flow.data_byte rest →
      Mediator.written childfd (Mediator.trace (Mediator.run cprtimeout [io; io'] st))
      = w ++ [b] ++ rest.
Proof.
  intros Htx Hp Hlen Hsent Hdev Hb Hpre Hf.
  destruct (ping_tty_deviating _ _ _ _ _ _ _ Hlen Hsent Hdev Hb Hpre Hf)
    as (r & Hping & Hon & Hcount & Hpos & Htake).
  pose proof (ping_tty_calls _ _ _ _ Hping) as Hcalls.
  pose proof (body_probe cprtimeout io st r Htx Hp Hping) as Hbody.
  simpl in Hbody. rewrite Hon in Hbody. simpl in Hbody.
  rewrite bool_decide_eq_true_2 in Hbody by lia.
  match type of Hbody with _ = (_, ?l) =>
    assert (Hw : Mediator.written childfd l = w ++ [b])
  end.
  { rewrite written_poll, !written_app, resize_written, written_probe_calls by done.
    simpl. rewrite !app_nil_r, Hcount, Nat2Z.id. done. }
  match type of Hbody with _ = (_, ?l) =>
    assert (Hh : hangups l = 0%nat)
  end.
  { rewrite hangups_poll, !hangups_app, resize_hangups, hangups_probe_calls by done.
    done. }
  eexists r, _, _. repeat split; try done.
  intros io' r0 r1 rest Hp' Hr0 Ha Hread Hrest Hdata.
  assert (Hrun : ∀ st1 evs0,
    Mediator.body cprtimeout io st = (Mediator.Next st1, evs0) →
    Mediator.trace (Mediator.run cprtimeout [io; io'] st)
    = evs0 ++ (Mediator.body cprtimeout io' st1).2).
  { intros st1 evs0 Hrun0. unfold Mediator.trace. simpl. rewrite Hrun0.
    destruct (Mediator.body cprtimeout io' st1) as [fl' evs']. simpl.
    destruct fl'; simpl; by rewrite ?app_nil_r. }
  rewrite (Hrun _ _ Hbody), written_app, Hw.
  match goal with |- context [Mediator.body cprtimeout io' ?s] =>
    destruct (body_tty_input cprtimeout io' s r0 r1 rest Hp' Hr0 Ha Hread Hrest Hdata)
      as [-> _]
  end.
  by rewrite <- app_assoc.
Qed.

Lemma malformed_reply_forwarded_witness :
  Mediator.written childfd
    (Mediator.trace
       (Mediator.run 0.2
          [Sample.turn 100 PollTimeout (Sample.probe Sample.says_h) (ReadData []);
           Sample.turn 101 (PollReady POLLIN 0) (Sample.probe []) (ReadData [105])]
          (Sample.entered 1)))
  = [104; 105].
Proof.
  destruct (malformed_reply_forwarded 0.2
      (Sample.turn 100 PollTimeout (Sample.probe Sample.says_h) (ReadData []))
      (Sample.entered 1) (Termios 0) [] [] 104)
    as (r & st' & evs & _ & _ & _ & _ & _ & _ & _ & _ & _ & Hnext).
  - done.
  - reflexivity.
  - vm_compute. lia.
  - by repeat split.
  - split; [|split].
    + exists (Cpr.report [48] [48]), [48], [48].
      repeat split; simpl; try lia; repeat constructor; unfold Cpr.digit; lia.
    + intros (rows & cols & _ & _ & Heq). discriminate Heq.
    + intros (u & rows & cols & _ & _ & Heq). discriminate Heq.
  - reflexivity.
  - reflexivity.
  - eapply feeds_byte; [by vm_compute|reflexivity|reflexivity|reflexivity|].
    apply feeds_nil.
  - apply (Hnext _ POLLIN 0 [105]); try reflexivity.
    + done.
    + vm_compute. lia.
    + repeat constructor; unfold XON, XOFF; lia.
Defined.

(** ** Hanging up *)

Section hangup.
Implicit Types (st : Mediator.locals) (io : Mediator.turn) (evs : list event).

Lemma leb_one_finite (d : float) : (1 <=? d)%float = true → Mediator.finite d = true.
Proof.
  unfold Mediator.finite. rewrite !leb_spec.
  change (Prim2SF 1) with (S754_finite false 4503599627370496 (-52)).
  change (Prim2SF 0) with (S754_zero false).
  destruct (Prim2SF d) as [s|s| |s m e]; simpl; try done; by destruct s.
Qed.

(** A probe that nothing answers leaves the locals of [ping_tty] as they
    were when the loop began. *)
Lemma unanswered_loop tty_attr script (st : Probe.locals) trace :
  unanswered (Probe.deadline st) script →
  ∃ trace', Probe.loop tty_attr script st trace = Probe.Finished st trace'.
Proof.
  revert trace. induction script as [|io script IH]; intros trace; simpl; [done|].
  intros Hun. case_bool_decide as Ht; [|by eexists].
  unfold Probe.body.
  destruct Hun as [Hnt | [Hp | [(r0 & r1 & Hp & Hgone) | [Hint Hrest]]]].
  - by destruct Hnt.
  - rewrite Hp. by eexists.
  - rewrite Hp. destruct (PFDALIVE r0); simpl; [|by eexists].
    destruct Hgone as [|Hg]; [done|]. rewrite Hg. by eexists.
  - destruct Hint as [Hp | (r0 & r1 & Hp & Ha & Hg)].
    + rewrite Hp. simpl. by apply IH.
    + rewrite Hp, Ha, Hg. simpl. by apply IH.
Qed.

Lemma silent_ping_tty env reply cprtimeout :
  silent env cprtimeout →
  ∃ calls, Probe.ping_tty env reply cprtimeout
           = Probe.Returns (Probe.Result DEVICE_OFFLINE reply 0 calls).
Proof.
  intros ([tty_attr Hg] & Hs & Hw & Hd & Hun). unfold Probe.ping_tty.
  rewrite Hg, Hs, Hw, Hd. simpl.
  match goal with |- context [Probe.loop ?a ?s ?st ?tr] =>
    destruct (unanswered_loop a s st tr Hun) as [trace' ->]
  end.
  by eexists.
Qed.

Lemma arm_disarmed io st : disarmed st → Mediator.arm io st = st.
Proof. intros [Ht _]. unfold Mediator.arm. by rewrite Ht. Qed.

Lemma from_tty_disarmed io st :
  disarmed st →
  hangups (Mediator.from_tty io st).2 = 0%nat ∧
  ∀ st', (Mediator.from_tty io st).1 = Mediator.Next st' → disarmed st'.
Proof.
  intros [Ht Hms]. unfold Mediator.from_tty.
  case_bool_decide; [split; [done|]; by intros st' [= <-]|].
  destruct (PFDALIVE _); simpl; [|by split].
  destruct (Mediator.sys_read _ _) as [received' buffer'].
  case_bool_decide; [by split|].
  destruct (if bool_decide _ then _ else _) as [[[b r] t]|]; simpl; [|by split].
  split; [by case_bool_decide|].
  intros st' [= <-]. rewrite Ht. by split.
Qed.

Lemma from_child_disarmed io st :
  disarmed st →
  ∀ st', (Mediator.from_child io st).1 = Mediator.Next st' → disarmed st'.
Proof.
  intros [Ht Hms] st'. unfold Mediator.from_child.
  destruct (PFDALIVE _); simpl; [|done].
  destruct (_ && _); [|by intros [= <-]].
  destruct (Mediator.sys_read _ _) as [received' buffer'].
  case_bool_decide; [done|]. by intros [= <-].
Qed.

(** Once disarmed, a turn whose [poll] did not time out polls with no
    timeout, sends no hangup and leaves the loop disarmed. *)
Lemma body_disarmed cprtimeout io st :
  disarmed st → Mediator.polled io ≠ PollTimeout →
  hangups (Mediator.body cprtimeout io st).2 = 0%nat ∧
  (∃ n rest, (Mediator.body cprtimeout io st).2 = Poll n (-1) :: rest) ∧
  ∀ st', (Mediator.body cprtimeout io st).1 = Mediator.Next st' → disarmed st'.
Proof.
  intros Hdis Hp. unfold Mediator.body. rewrite arm_disarmed by done.
  set (n := Mediator.nfds st).
  assert (Hdis2 : disarmed (Mediator.polled_revents n (Mediator.polled io) st)).
  { destruct Hdis. by destruct (Mediator.polled io). }
  set (st2 := Mediator.polled_revents n (Mediator.polled io) st) in *.
  assert (Hacc : ∀ st', disarmed st' → disarmed (Mediator.account io st')).
  { intros st' [Ht Hms]. unfold Mediator.account.
    destruct (Mediator.polled io); try done. by rewrite Ht. }
  destruct Hdis as [Ht Hms]. rewrite Hms.
  unfold Mediator.dispatch.
  destruct (Mediator.polled io) as [errno| |r0 r1] eqn:Hpolled; [|done|].
  - case_bool_decide; simpl; (split; [|split]); eauto using resize_hangups.
    + by intros st' [=].
    + rewrite hangups_poll. apply resize_hangups.
    + intros st' [= <-]. by apply Hacc.
  - destruct (from_tty_disarmed io st2 Hdis2) as [Hh1 Hd1].
    destruct (Mediator.from_tty io st2) as [fl1 evs1]. simpl in Hh1, Hd1.
    destruct fl1 as [st3| | |]; simpl;
      try (split; [by rewrite hangups_poll|split; [eauto|done]]).
    destruct (from_child_written io st3) as [_ Hh2].
    pose proof (from_child_disarmed io st3 (Hd1 st3 eq_refl)) as Hd2.
    destruct (Mediator.from_child io st3) as [fl2 evs2]. simpl in Hh2, Hd2.
    destruct fl2 as [st4| | |]; simpl;
      rewrite hangups_poll, ?hangups_app, Hh1, Hh2, ?resize_hangups;
      (split; [done|split; [eauto|]]); try done.
    intros st' [= <-]. by apply Hacc, Hd2.
Qed.

(** Once disarmed, the loop never hangs up again. *)
Lemma run_disarmed cprtimeout script st :
  disarmed st → Forall Mediator.feasible (Mediator.run cprtimeout script st) →
  Forall (λ m, Mediator.polled (Mediator.met m) ≠ PollTimeout ∧
               hangups (Mediator.calls m) = 0%nat ∧
               ∃ n rest, Mediator.calls m = Poll n (-1) :: rest)
         (Mediator.run cprtimeout script st) ∧
  hangups (Mediator.trace (Mediator.run cprtimeout script st)) = 0%nat.
Proof.
  revert st. induction script as [|io script IH]; intros st Hdis Hf; simpl in *.
  { split; [constructor|done]. }
  assert (Hp : Mediator.polled io ≠ PollTimeout).
  { destruct (Mediator.body cprtimeout io st) as [fl evs].
    apply Forall_cons in Hf as [Hfe _]. unfold Mediator.feasible in Hfe. simpl in Hfe.
    intros Hp. specialize (Hfe Hp). rewrite arm_disarmed in Hfe by done.
    destruct Hdis as [_ Hms]. rewrite Hms in Hfe. lia. }
  destruct (body_disarmed cprtimeout io st Hdis Hp) as (Hh & Hpoll & Hnext).
  destruct (Mediator.body cprtimeout io st) as [fl evs]. simpl in *.
  apply Forall_cons in Hf as [_ Hf].
  destruct fl as [st'| | |]; try (split; [by repeat constructor|]);
    rewrite ?trace_cons; simpl; rewrite ?app_nil_r; try done.
  destruct (IH st' (Hnext st' eq_refl) Hf) as [Hall Hzero].
  split; [by constructor|]. by rewrite hangups_app, Hh, Hzero.
Qed.
End hangup.

(** C5. With an activity timeout [d] of at least one second: when [poll]
    times out with transmission enabled and the probe gets no answer, the
    turn sends exactly one SIGHUP, classifies the device as offline and sets
    both [timeout] and [polltimeoutms] to -1.  In every continuation in
    which [poll] reports a timeout only when it was given one, no later
    turn times out, every later [poll] is given -1, and no further SIGHUP is
    sent: over the whole run the child is hung up exactly once. *)
Theorem hangup_sent_once (d cprtimeout : float) (io : Mediator.turn)
    (rest : list Mediator.turn) (st : Mediator.locals) :
  (1 <=? d)%float = true → Mediator.timeout st = d → Mediator.txok st ≠ 0 →
  Mediator.polled io = PollTimeout →
  silent (Mediator.probe io) cprtimeout →
  Forall Mediator.feasible (Mediator.run cprtimeout (io :: rest) st) →
  ∃ m later st',
    Mediator.run cprtimeout (io :: rest) st = m :: later ∧
    (∃ ms calls, Mediator.calls m = Poll 2 ms :: calls ∧ 0 <= ms) ∧
    hangups (Mediator.calls m) = 1%nat ∧
    Mediator.after m = Mediator.Next st' ∧
    Mediator.state st' = DEVICE_OFFLINE ∧
    Mediator.timeout st' = (-1)%float ∧ Mediator.polltimeoutms st' = -1 ∧
    Forall (λ m', Mediator.polled (Mediator.met m') ≠ PollTimeout ∧
                  hangups (Mediator.calls m') = 0%nat ∧
                  ∃ n calls, Mediator.calls m' = Poll n (-1) :: calls) later ∧
    hangups (Mediator.trace (Mediator.run cprtimeout (io :: rest) st)) = 1%nat.
Proof.
  intros Hd Ht Htx Hp Hsilent Hf.
  destruct (silent_ping_tty (Mediator.probe io) (Mediator.buffer st) cprtimeout Hsilent)
    as [calls Hping].
  pose proof (ping_tty_calls _ _ _ _ Hping) as Hcalls. simpl in Hcalls.
  pose proof (body_probe cprtimeout io st _ Htx Hp Hping) as Hbody.
  simpl in Hbody, Hf |- *. rewrite Hbody in Hf |- *.
  apply Forall_cons in Hf as [_ Hf].
  match type of Hf with Forall _ (Mediator.run _ _ ?s) =>
    destruct (run_disarmed cprtimeout rest s) as [Hlater Hzero]; [done|done|]
  end.
  assert (Hone : hangups (calls ++ [Kill SIGHUP]) = 1%nat)
    by by rewrite hangups_app, hangups_probe_calls.
  eexists _, _, _. split; [done|]. simpl.
  split; [|split; [|split; [done|split; [done|split; [done|split; [done|split; [done|]]]]]]].
  - eexists _, _. split; [done|].
    unfold Mediator.arm. rewrite Ht, (leb_one_finite d Hd). simpl.
    case_bool_decide; lia.
  - by rewrite hangups_poll, hangups_app, Hone, resize_hangups.
  - by rewrite hangups_poll, hangups_app, hangups_app, Hone, resize_hangups, Hzero.
Qed.

Lemma hangup_sent_once_witness :
  hangups
    (Mediator.trace
       (Mediator.run 0.2
          [Sample.turn 100 PollTimeout (Sample.probe Sample.says_nothing) (ReadData []);
           Sample.child_output 105 [65; 66; 67];
           Sample.interrupted 0 500]
          (Sample.entered 1)))
  = 1%nat.
Proof.
  destruct (hangup_sent_once 1 0.2
      (Sample.turn 100 PollTimeout (Sample.probe Sample.says_nothing) (ReadData []))
      [Sample.child_output 105 [65; 66; 67]; Sample.interrupted 0 500]
      (Sample.entered 1))
    as (m & later & st' & _ & _ & _ & _ & _ & _ & _ & _ & Honce).
  - reflexivity.
  - reflexivity.
  - done.
  - reflexivity.
  - repeat split; [by eexists|]. right. by left.
  - vm_compute.
    repeat (apply Forall_cons; split;
            [intros H; first [discriminate H | vm_compute; intros Hc; discriminate Hc]|]).
    by apply Forall_nil.
  - exact Honce.
Defined.

(** C6 fails on the code.  A signal interrupts [poll] 300 ms into a wait
    of 1000 ms, and another one 300 ms later: each next [poll] is again
    given the full 1000 ms, because [1000 * (int) (timer() - start)]
    rounds the elapsed seconds down to zero before scaling them. *)
Theorem interrupted_wait_starts_afresh :
  Mediator.trace
    (Mediator.run 0.2
       [Sample.interrupted 0 300; Sample.interrupted 300 600; Sample.interrupted 600 900]
       (Sample.entered 1))
  = [Poll 2 1000; Poll 2 1000; Poll 2 1000].
Proof. vm_compute. reflexivity. Qed.

(** ** More on the flow-control filter *)

Section flow_more.
Import Flow.

Lemma filter_split_length (P : Z → Prop) `{!∀ x, Decision (P x)} (l : list Z) :
  (length (filter P l) + length (filter (λ x, ¬ P x) l) = length l)%nat.
Proof.
  induction l as [|x l IH]; [done|].
  destruct (decide (P x)) as [Hx|Hx].
  - rewrite (filter_cons_True P) by done.
    rewrite (filter_cons_False (λ x, ¬ P x)) by tauto. simpl. lia.
  - rewrite (filter_cons_False P) by done.
    rewrite (filter_cons_True (λ x, ¬ P x)) by done. simpl. lia.
Qed.

End flow_more.

(** X1. The filter works inside the first [len] bytes only: the buffer keeps
    its size, every byte from offset [len] on is left as it was, and the new
    length is [len] less the number of XON and XOFF bytes among the first
    [len]. *)
Theorem flow_control_preprocessor_in_place (buf : list Z) (len t : Z) :
  0 <= len <= Z.of_nat (length buf) →
  ∃ buf' len' t',
    Flow.flow_control_preprocessor buf len t = Some (buf', len', t') ∧
    length buf' = length buf ∧
    drop (Z.to_nat len) buf' = drop (Z.to_nat len) buf ∧
    len' = len - Z.of_nat (length (filter (λ b, ¬ Flow.data_byte b)
                                          (take (Z.to_nat len) buf))).
Proof.
  intros Hlen.
  destruct (flow_control_preprocessor_eq buf len t Hlen) as (buf' & Heq & Hl & _ & Hd).
  eexists _, _, _. split; [exact Heq|]. repeat split; try done.
  pose proof (filter_split_length Flow.data_byte (take (Z.to_nat len) buf)) as Hsum.
  rewrite length_take in Hsum. lia.
Qed.

Lemma flow_control_preprocessor_in_place_witness :
  Flow.flow_control_preprocessor [17; 104; 19; 105; 19; 33; 17] 5 0
  = Some ([104; 105; 19; 105; 19; 33; 17], 2, 0).
Proof.
  destruct (flow_control_preprocessor_in_place [17; 104; 19; 105; 19; 33; 17] 5 0)
    as (buf' & len' & t' & Heq & _); [simpl; lia|].
  rewrite Heq. vm_compute in Heq. symmetry. exact Heq.
Defined.

(** X2. Filtering a stream in two pieces is filtering it whole: the bytes kept
    from [a ++ b] are those kept from [a] followed by those kept from [b],
    and the flag after [a ++ b] is the flag after [b] started from the flag
    after [a]. *)
Theorem flow_control_preprocessor_chunks (a b : list Z) (t : Z) :
  ∃ a' la ta b' lb tb ab',
    Flow.flow_control_preprocessor a (Z.of_nat (length a)) t = Some (a', la, ta) ∧
    Flow.flow_control_preprocessor b (Z.of_nat (length b)) ta = Some (b', lb, tb) ∧
    Flow.flow_control_preprocessor (a ++ b) (Z.of_nat (length (a ++ b))) t
      = Some (ab', la + lb, tb) ∧
    take (Z.to_nat (la + lb)) ab' = take (Z.to_nat la) a' ++ take (Z.to_nat lb) b'.
Proof.
  destruct (flow_control_preprocessor_eq a (Z.of_nat (length a)) t)
    as (a' & Ha & _ & Hta & _); [lia|].
  destruct (flow_control_preprocessor_eq b (Z.of_nat (length b))
              (Flow.flag_after t (take (Z.to_nat (Z.of_nat (length a))) a)))
    as (b' & Hb & _ & Htb & _); [lia|].
  destruct (flow_control_preprocessor_eq (a ++ b) (Z.of_nat (length (a ++ b))) t)
    as (ab' & Hab & _ & Htab & _); [lia|].
  rewrite !Nat2Z.id, !firstn_all in *.
  rewrite filter_app in Hab, Htab.
  rewrite (length_app (filter Flow.data_byte a)) in Hab, Htab.
  assert (Hflag : Flow.flag_after t (a ++ b) = Flow.flag_after (Flow.flag_after t a) b).
  { unfold Flow.flag_after. by rewrite foldl_app. }
  rewrite Hflag, Nat2Z.inj_add in Hab.
  eexists _, _, _, _, _, _, _. split; [exact Ha|]. split; [exact Hb|].
  split; [exact Hab|].
  rewrite <- Nat2Z.inj_add, !Nat2Z.id. by rewrite Htab, Hta, Htb.
Qed.

(** ** More on the prober *)

Section probe_more.
Implicit Types (st : Probe.locals) (tty_attr : termios) (b : Z) (bs w : list Z).

(** The loop only ever adds [poll] and [read] calls to the trace. *)
Lemma loop_trace tty_attr script st trace :
  match Probe.loop tty_attr script st trace with
  | Probe.Finished _ trace' | Probe.Starved _ trace' =>
      ∃ added, trace' = trace ++ added ∧ Forall waiting_call added
  | Probe.Crashed => True
  end.
Proof.
  revert st trace. induction script as [|io script IH]; intros st trace; simpl.
  { exists []. by rewrite app_nil_r. }
  case_bool_decide; [|exists []; by rewrite app_nil_r].
  assert (Hb : Forall waiting_call (Probe.body tty_attr
    (double_to_int (1000 * (Probe.deadline st - timer (Probe.clock io)))) io st).2).
  { unfold Probe.body. destruct (Probe.polled io) as [|  |r0 r1]; simpl;
      [by repeat constructor..|].
    destruct (PFDALIVE r0); simpl; by repeat constructor. }
  destruct (Probe.body _ _ io st) as [[st'|st'|] calls]; simpl in *; [| |done].
  - specialize (IH st' (trace ++ calls)).
    destruct (Probe.loop tty_attr script st' (trace ++ calls)) as [? tr'|? tr'|];
      [| |done]; destruct IH as (added & -> & Hadded);
      exists (calls ++ added); (split; [by rewrite app_assoc|by apply Forall_app]).
  - by exists calls.
Qed.


Lemma accept_online tty_attr b st :
  match Probe.accept tty_attr b st with
  | Probe.Continue st' | Probe.Break st' => Probe.state st' = DEVICE_ONLINE
  | Probe.Overrun => True
  end.
Proof.
  unfold Probe.accept. simpl.
  destruct (bool_decide (b ≠ ESC) && ISCONTROL b).
  { by destruct (bool_decide (b = XOFF) && _). }
  destruct (store _ _ _); [|done].
  destruct (negb _); [done|]. by destruct (bool_decide _).
Qed.

Lemma body_pristine reply0 tty_attr ms io st :
  pristine reply0 st →
  match (Probe.body tty_attr ms io st).1 with
  | Probe.Continue st' | Probe.Break st' => pristine reply0 st'
  | Probe.Overrun => True
  end.
Proof.
  intros Hst. unfold Probe.body.
  destruct (Probe.polled io) as [errno| |r0 r1]; simpl.
  - case_bool_decide; simpl; [done|]. by intros [=].
  - done.
  - destruct (PFDALIVE r0); simpl; [|done].
    destruct (Probe.got io) as [[|b ?]|errno]; simpl.
    + done.
    + pose proof (accept_online tty_attr b st) as Ha.
      destruct (Probe.accept tty_attr b st) as [st'|st'|]; [| |done];
        intros Hoff; rewrite Ha in Hoff; discriminate Hoff.
    + case_bool_decide; simpl; [done|]. by intros [=].
Qed.

Lemma loop_pristine reply0 tty_attr script st trace :
  pristine reply0 st →
  match Probe.loop tty_attr script st trace with
  | Probe.Finished st' _ | Probe.Starved st' _ => pristine reply0 st'
  | Probe.Crashed => True
  end.
Proof.
  revert st trace. induction script as [|io script IH]; intros st trace Hst; simpl;
    [done|].
  case_bool_decide; [|done].
  pose proof (body_pristine reply0 tty_attr
    (double_to_int (1000 * (Probe.deadline st - timer (Probe.clock io)))) io st Hst) as Hb.
  destruct (Probe.body _ _ io st) as [[st'|st'|] calls]; simpl in *; [|done|done].
  by apply IH.
Qed.

Lemma body_unknown tty_attr ms io st :
  Probe.state st ≠ DEVICE_STATUS_UNKNOWN →
  match (Probe.body tty_attr ms io st).1 with
  | Probe.Continue st' => Probe.state st' ≠ DEVICE_STATUS_UNKNOWN
  | Probe.Break st' => Probe.state st' = DEVICE_STATUS_UNKNOWN → fails io
  | Probe.Overrun => True
  end.
Proof.
  intros Hst. unfold Probe.body, fails.
  destruct (Probe.polled io) as [errno| |r0 r1] eqn:Hp; simpl.
  - case_bool_decide; simpl; [done|]. intros _. left. by exists errno.
  - done.
  - destruct (PFDALIVE r0); simpl; [|done].
    destruct (Probe.got io) as [[|b ?]|errno] eqn:Hg; simpl.
    + done.
    + pose proof (accept_online tty_attr b st) as Ha.
      destruct (Probe.accept tty_attr b st) as [st'|st'|]; [| |done];
        rewrite Ha; done.
    + case_bool_decide; simpl; [done|]. intros _. right. by exists errno.
Qed.

Lemma loop_unknown tty_attr script st trace :
  Probe.state st ≠ DEVICE_STATUS_UNKNOWN →
  match Probe.loop tty_attr script st trace with
  | Probe.Finished st' _ =>
      Probe.state st' = DEVICE_STATUS_UNKNOWN → Exists fails script
  | _ => True
  end.
Proof.
  revert st trace. induction script as [|io script IH]; intros st trace Hst; simpl;
    [done|].
  case_bool_decide; [|done].
  pose proof (body_unknown tty_attr
    (double_to_int (1000 * (Probe.deadline st - timer (Probe.clock io)))) io st Hst) as Hb.
  destruct (Probe.body _ _ io st) as [[st'|st'|] calls]; simpl in *; [| |done].
  - specialize (IH st' (trace ++ calls) Hb).
    destruct (Probe.loop tty_attr script st' (trace ++ calls)); try done.
    intros Hu. apply Exists_cons_tl. auto.
  - intros Hu. apply Exists_cons_hd. auto.
Qed.
End probe_more.

(** X3. [ping_tty] brackets its work.  When the attributes cannot be read it
    makes no call at all; when raw mode cannot be applied it makes that one
    call and does not try to restore anything.  Otherwise its calls are: raw
    mode, the request, then nothing but [tcdrain], [poll] and one-byte reads
    of the terminal, and last the attributes it found on entry put back. *)
Theorem ping_tty_brackets (env : Probe.environment) (reply : list Z)
    (cprtimeout : float) (r : Probe.result) :
  Probe.ping_tty env reply cprtimeout = Probe.Returns r →
  match Probe.tcgetattr env with
  | None =>
      Probe.calls r = [] ∧ Probe.returned r = DEVICE_STATUS_UNKNOWN ∧
      Probe.buffer r = reply ∧ Probe.length r = 0
  | Some tty_attr =>
      if Probe.tcsetattr_raw env then
        ∃ waiting,
          Probe.calls r = [Tcsetattr TCSAFLUSH (cfmakeraw tty_attr); Write ttyfd ANSI_CPR]
                          ++ waiting ++ [Tcsetattr TCSADRAIN tty_attr] ∧
          Forall (λ e, e = Tcdrain ∨ waiting_call e) waiting
      else
        Probe.calls r = [Tcsetattr TCSAFLUSH (cfmakeraw tty_attr)] ∧
        Probe.returned r = DEVICE_STATUS_UNKNOWN ∧
        Probe.buffer r = reply ∧ Probe.length r = 0
  end.
Proof.
  unfold Probe.ping_tty.
  destruct (Probe.tcgetattr env) as [tty_attr|]; [|by intros [= <-]].
  destruct (Probe.tcsetattr_raw env); simpl; [|by intros [= <-]].
  destruct (Probe.write_cpr env); simpl.
  2: { intros [= <-]. exists []. by split. }
  destruct (Probe.tcdrain env); simpl.
  2: { intros [= <-]. exists [Tcdrain]. split; [done|]. constructor; [by left|constructor]. }
  match goal with |- context [Probe.loop ?a ?s ?st ?tr] =>
    pose proof (loop_trace a s st tr) as Hl;
    destruct (Probe.loop a s st tr) as [st' tr'|st' tr'|]
  end; intros [= <-].
  destruct Hl as (added & -> & Hadded). simpl.
  exists (Tcdrain :: added). split; [done|].
  constructor; [by left|]. eapply Forall_impl; [exact Hadded|]. intros e He. by right.
Qed.

Lemma ping_tty_brackets_witness :
  ∃ r, Probe.ping_tty (Sample.probe Sample.says_h) [0; 0; 0; 0; 0; 0; 0; 0; 0; 0] 0.2
       = Probe.Returns r ∧
       last (Probe.calls r) = Some (Tcsetattr TCSADRAIN (Termios 0)).
Proof.
  destruct (Probe.ping_tty (Sample.probe Sample.says_h) [0; 0; 0; 0; 0; 0; 0; 0; 0; 0] 0.2)
    as [r| |] eqn:Hr; [|vm_compute in Hr; discriminate Hr..].
  exists r. split; [done|].
  destruct (ping_tty_brackets _ _ _ _ Hr) as (waiting & Hcalls & _).
  rewrite Hcalls, app_assoc. apply last_snoc.
Defined.

(** X4. An offline verdict means that no byte was read: the probe was sent,
    the reply buffer is as the caller passed it and the reply length is
    zero. *)
Theorem ping_tty_offline_unread (env : Probe.environment) (reply : list Z)
    (cprtimeout : float) (r : Probe.result) :
  Probe.ping_tty env reply cprtimeout = Probe.Returns r →
  Probe.returned r = DEVICE_OFFLINE →
  Probe.length r = 0 ∧ Probe.buffer r = reply ∧
  Write ttyfd ANSI_CPR ∈ Probe.calls r ∧
  Probe.tcsetattr_raw env = true ∧ Probe.write_cpr env = true ∧ Probe.tcdrain env = true.
Proof.
  unfold Probe.ping_tty.
  destruct (Probe.tcgetattr env) as [tty_attr|]; [|by intros [= <-]].
  destruct (Probe.tcsetattr_raw env); simpl; [|by intros [= <-]].
  destruct (Probe.write_cpr env); simpl; [|by intros [= <-]].
  destruct (Probe.tcdrain env); simpl; [|by intros [= <-]].
  match goal with |- context [Probe.loop ?a ?s ?st ?tr] =>
    pose proof (loop_pristine reply a s st tr) as Hl;
    pose proof (loop_trace a s st tr) as Ht;
    destruct (Probe.loop a s st tr) as [st' tr'|st' tr'|]
  end; intros [= <-]. simpl. intros Hoff.
  destruct Hl as [He Hr]; [done|done|].
  destruct Ht as (added & -> & _).
  repeat split; try done.
  rewrite !elem_of_app, !elem_of_cons. left. left. right. by left.
Qed.

Lemma ping_tty_offline_unread_witness :
  ∃ r, Probe.ping_tty (Sample.probe Sample.says_nothing) [1; 2; 3; 4; 5; 6; 7; 8; 9; 10] 0.2
       = Probe.Returns r ∧
       Probe.returned r = DEVICE_OFFLINE ∧
       Probe.length r = 0 ∧ Probe.buffer r = [1; 2; 3; 4; 5; 6; 7; 8; 9; 10].
Proof.
  destruct (Probe.ping_tty (Sample.probe Sample.says_nothing)
              [1; 2; 3; 4; 5; 6; 7; 8; 9; 10] 0.2) as [r| |] eqn:Hr;
    [|vm_compute in Hr; discriminate Hr..].
  assert (Hoff : Probe.returned r = DEVICE_OFFLINE).
  { vm_compute in Hr. by injection Hr as <-. }
  destruct (ping_tty_offline_unread _ _ _ _ Hr Hoff) as (Hlen & Hbuf & _).
  exists r. by repeat split.
Defined.

(** X5. An unknown verdict always has a failed call behind it: the attributes
    could not be read or set, the request could not be written or drained,
    or [poll] or [read] failed for another reason than a signal. *)
Theorem ping_tty_unknown_failed (env : Probe.environment) (reply : list Z)
    (cprtimeout : float) (r : Probe.result) :
  Probe.ping_tty env reply cprtimeout = Probe.Returns r →
  Probe.returned r = DEVICE_STATUS_UNKNOWN →
  Probe.tcgetattr env = None ∨ Probe.tcsetattr_raw env = false ∨
  Probe.write_cpr env = false ∨ Probe.tcdrain env = false ∨
  Exists fails (Probe.script env).
Proof.
  unfold Probe.ping_tty.
  destruct (Probe.tcgetattr env) as [tty_attr|]; [|by left].
  destruct (Probe.tcsetattr_raw env); simpl; [|by right; left].
  destruct (Probe.write_cpr env); simpl; [|by right; right; left].
  destruct (Probe.tcdrain env); simpl; [|by right; right; right; left].
  match goal with |- context [Probe.loop ?a ?s ?st ?tr] =>
    pose proof (loop_unknown a s st tr) as Hl;
    destruct (Probe.loop a s st tr) as [st' tr'|st' tr'|]
  end; intros [= <-]. simpl. intros Hu.
  right; right; right; right. by apply Hl.
Qed.

Lemma ping_tty_unknown_failed_witness :
  Exists fails
    [Sample.arrives 10 27; Probe.Turn (Some (Timespec 101 20000000)) (PollFailed 9) (ReadData [])].
Proof.
  destruct (Probe.ping_tty
      (Sample.probe [Sample.arrives 10 27;
                     Probe.Turn (Some (Timespec 101 20000000)) (PollFailed 9) (ReadData [])])
      [0; 0; 0; 0; 0; 0; 0; 0; 0; 0] 0.2) as [r| |] eqn:Hr;
    [|vm_compute in Hr; discriminate Hr..].
  assert (Hu : Probe.returned r = DEVICE_STATUS_UNKNOWN).
  { vm_compute in Hr. by injection Hr as <-. }
  destruct (ping_tty_unknown_failed _ _ _ _ Hr Hu) as [H|[H|[H|[H|H]]]];
    try discriminate H.
  exact H.
Defined.

(** ** The validator and the grammar of the report *)

Section language.
Implicit Types (w u : list Z) (b d s : Z).

Ltac crunch :=
  unfold Probe.adjust, Probe.valid, ISDIGIT, Cpr.digit, ESC in *;
  repeat (case_bool_decide; simpl in *); try done; try lia.

Ltac lists :=
  repeat match goal with
  | H : Forall _ (_ :: _) |- _ => apply Forall_cons in H as [? H]
  end;
  simpl length in *; simpl app in *.

Ltac number_ok :=
  unfold Cpr.number, Cpr.report in *; simpl in *; rewrite <- ?app_assoc; simpl;
  destruct_and?; repeat split;
  first [ done | lia | repeat constructor; try unfold Cpr.digit; first [done | lia] ].

(** The closing R, met at step 9, completes a report. *)
Lemma at_step_accepted s w b :
  at_step s w →
  Probe.valid (Probe.adjust s b) b = true → Probe.adjust s b = 9 →
  Cpr.well_formed (w ++ [b]).
Proof.
  intros Hw Hv H9.
  destruct Hw as [| |ds Hlen Hds|rows cs Hrows Hlen Hcs].
  - crunch.
  - crunch.
  - destruct ds as [|d1 [|d2 [|d3 [|]]]]; lists; try lia; crunch.
  - exists rows, cs.
    destruct cs as [|c1 [|c2 [|c3 [|]]]]; lists; try lia; crunch;
      destruct_or?; destruct_and?; simplify_eq;
      (split; [done|]); number_ok.
Qed.
End language.

(** X6. The validator accepts exactly the reports of the grammar: a sequence
    of bytes takes it through valid steps to the closing R at step 9 if and
    only if it is ESC [ rows ; cols R with one to three digits in each
    number. *)
Theorem validator_language (r : list Z) : accepts r ↔ Cpr.well_formed r.
Proof.
  split.
  - intros (w & b & s & -> & Hs & Hv & H9).
    eapply at_step_accepted; eauto using track_shape.
  - intros (rows & cols & Hr & Hc & ->).
    destruct (report_track rows cols Hr Hc) as (s & Hs & Hs9).
    exists ([27; 91] ++ rows ++ [59] ++ cols), 82, s.
    split; [unfold Cpr.report; by rewrite <- !app_assoc|].
    split; [done|].
    assert (s = 7 ∨ s = 8 ∨ s = 9) as [-> | [-> | ->]] by lia; by split.
Qed.

(** ** Replies with control bytes in them, and replies cut short *)

Section partial.
Implicit Types (st : Probe.locals) (tty_attr : termios) (b : Z) (bs w : list Z).

Lemma loop_feeds_then tty_attr script bs st trace deadline' rest :
  feeds_then tty_attr (Probe.deadline st) script bs deadline' rest →
  ∀ st', digest tty_attr bs st = Probe.Continue st' →
    Probe.deadline st' = deadline' ∧
    ∃ trace', Probe.loop tty_attr script st trace = Probe.loop tty_attr rest st' trace'.
Proof.
  remember (Probe.deadline st) as d eqn:Hd. intros Hf. revert st trace Hd.
  induction Hf as [d script|d io script bs d' rest Ht Hp _ IH
                  |d io script bs r0 r1 d' rest Ht Hp Ha Hg _ IH
                  |d io script b bs r0 r1 more d' rest Ht Hp Ha Hg _ IH];
    intros st trace -> st' Hdig.
  - simpl in Hdig. injection Hdig as <-. split; [done|]. by eexists.
  - destruct (IH st (trace ++ [Poll 1 (double_to_int
        (1000 * (Probe.deadline st - timer (Probe.clock io))))]) eq_refl st' Hdig)
      as [Hd' [trace' Hl]].
    split; [done|]. exists trace'. simpl.
    unfold in_time in Ht. rewrite bool_decide_eq_true_2 by done.
    unfold Probe.body. rewrite Hp. simpl. exact Hl.
  - destruct (IH st (trace ++ [Poll 1 (double_to_int
        (1000 * (Probe.deadline st - timer (Probe.clock io)))); Read ttyfd 1])
        eq_refl st' Hdig) as [Hd' [trace' Hl]].
    split; [done|]. exists trace'. simpl.
    unfold in_time in Ht. rewrite bool_decide_eq_true_2 by done.
    unfold Probe.body. rewrite Hp, Ha, Hg. simpl. exact Hl.
  - simpl in Hdig.
    destruct (Probe.accept tty_attr b st) as [st1|st1|] eqn:Hacc; try discriminate Hdig.
    destruct (IH st1 (trace ++ [Poll 1 (double_to_int
        (1000 * (Probe.deadline st - timer (Probe.clock io)))); Read ttyfd 1]))
      with (st' := st') as [Hd' [trace' Hl]];
      [symmetry; by eapply accept_deadline|done|].
    split; [done|]. exists trace'. simpl.
    unfold in_time in Ht. rewrite bool_decide_eq_true_2 by done.
    unfold Probe.body. rewrite Hp, Ha, Hg. simpl. rewrite Hacc. exact Hl.
Qed.
End partial.

(** X7. Control characters in the middle of a report do no harm.  When the
    bytes the terminal sends, the skipped control characters (XON and XOFF
    among them) left aside, are a well-formed report ending with the R that
    is read last, [ping_tty] returns [DEVICE_ONLINE] with a reply length of
    zero. *)
Theorem report_with_control_bytes (env : Probe.environment) (tty_attr : termios)
    (reply : list Z) (cprtimeout : float) (pre : list Z) :
  (Z.to_nat CPRSIZE ≤ length reply)%nat →
  probe_sent env tty_attr →
  Cpr.well_formed (filter significant pre ++ [82]) →
  feeds tty_attr (timer (Probe.clock0 env) + cprtimeout)%float (Probe.script env)
        (pre ++ [82]) →
  ∃ r, Probe.ping_tty env reply cprtimeout = Probe.Returns r ∧
       Probe.returned r = DEVICE_ONLINE ∧ Probe.length r = 0.
Proof.
  intros Hlen Hsent (rows & cols & Hr & Hc & Heq) Hf. unfold CPRSIZE in *.
  destruct (report_track rows cols Hr Hc) as (s & Hs & Hs9).
  unfold Cpr.report in Heq. rewrite !app_assoc in Heq.
  apply app_inj_tail in Heq as [Heq _]. rewrite <- !app_assoc in Heq.
  rewrite <- Heq in Hs.
  pose proof (at_step_length s _ (track_shape _ s Hs)) as Hws.
  set (st0 := Probe.Locals (timer (Probe.clock0 env) + cprtimeout)%float 0 0 reply
                DEVICE_OFFLINE).
  destruct (digest_track tty_attr pre st0 s) as (st1 & Hd1 & Hstep & Heom & Hl & _ & _);
    [simpl; lia|done|simpl; lia|].
  simpl in Heom, Hl.
  assert (Hadj : Probe.adjust s 82 = 9 ∧ Probe.valid (Probe.adjust s 82) 82 = true).
  { assert (s = 7 ∨ s = 8 ∨ s = 9) as [-> | [-> | ->]] by lia; by split. }
  destruct Hadj as [H9 Hv].
  assert (Hdig : digest tty_attr (pre ++ [82]) st0 = Probe.Break
            (Probe.Locals (Probe.deadline st1) 10 0
               (<[Z.to_nat (Probe.eom st1) := 82]> (Probe.reply st1)) DEVICE_ONLINE)).
  { rewrite digest_app, Hd1. simpl.
    by rewrite accept_final by (done || (by rewrite Hstep) || lia). }
  destruct (ping_tty_feeds env tty_attr reply cprtimeout _ _ Hsent Hf Hdig) as [calls Hping].
  eexists. split; [exact Hping|]. done.
Qed.

Lemma report_with_control_bytes_witness :
  ∃ r, Probe.ping_tty
         (Probe.Environment (Some (Termios IXOFF)) true true true (Some (Timespec 101 0))
            [Sample.arrives 10 27; Sample.arrives 11 91; Sample.arrives 12 50;
             Sample.arrives 13 19; Sample.arrives 250 52; Sample.arrives 251 17;
             Sample.arrives 252 59; Sample.arrives 253 56; Sample.arrives 254 82])
         [0; 0; 0; 0; 0; 0; 0; 0; 0; 0] 0.2 = Probe.Returns r ∧
       Probe.returned r = DEVICE_ONLINE ∧ Probe.length r = 0.
Proof.
  apply (report_with_control_bytes _ (Termios IXOFF) _ _ [27; 91; 50; 19; 52; 17; 59; 56]).
  - unfold CPRSIZE. simpl. lia.
  - by repeat split.
  - exists [50; 52], [56].
    repeat split; simpl; try lia; repeat constructor; unfold Cpr.digit; lia.
  - repeat (eapply feeds_byte; [vm_compute; reflexivity|reflexivity|reflexivity|reflexivity|]).
    apply feeds_nil.
Defined.

(** X8. A report cut short is handed to the child.  When the terminal sends
    the beginning of a report and then nothing more until the deadline, the
    probe returns [DEVICE_ONLINE] with the bytes it has looked at as the
    reply, and the turn of the mediator loop writes them to the child, sends
    no hangup and re-arms the timeout. *)
Theorem truncated_report_forwarded (cprtimeout : float) (io : Mediator.turn)
    (st : Mediator.locals) (tty_attr : termios) (pre w : list Z)
    (deadline' : float) (rest : list Probe.turn) :
  Mediator.txok st ≠ 0 → Mediator.polled io = PollTimeout →
  (Z.to_nat CPRSIZE ≤ length (Mediator.buffer st))%nat →
  probe_sent (Mediator.probe io) tty_attr →
  Cpr.viable w → ¬ Cpr.well_formed w → w ≠ [] → filter significant pre = w →
  feeds_then tty_attr (timer (Probe.clock0 (Mediator.probe io)) + cprtimeout)%float
             (Probe.script (Mediator.probe io)) pre deadline' rest →
  unanswered deadline' rest →
  ∃ r st' evs,
    Probe.ping_tty (Mediator.probe io) (Mediator.buffer st) cprtimeout = Probe.Returns r ∧
    Probe.returned r = DEVICE_ONLINE ∧
    Probe.length r = Z.of_nat (length w) ∧
    take (length w) (Probe.buffer r) = w ∧
    Mediator.body cprtimeout io st = (Mediator.Next st', evs) ∧
    Mediator.written childfd evs = w ∧
    hangups evs = 0%nat ∧
    Mediator.polltimeoutms st' = double_to_int (1000 * Mediator.timeout st)%float.
Proof.
  intros Htx Hp Hlen (Hg & Hsr & Hwr & Hdr) [u Hu] Hnwf Hne Hpre Hf Hun.
  unfold CPRSIZE in *.
  destruct (well_formed_track w u Hu) as [s Hs].
  { intros ->. by rewrite app_nil_r in Hu. }
  pose proof (at_step_length s w (track_shape w s Hs)) as Hws.
  set (st0 := Probe.Locals (timer (Probe.clock0 (Mediator.probe io)) + cprtimeout)%float 0 0
                (Mediator.buffer st) DEVICE_OFFLINE).
  destruct (digest_track tty_attr pre st0 s) as (st1 & Hd1 & Hstep & Heom & Hl & Htake & Hst);
    [simpl; lia|by rewrite Hpre|simpl; rewrite Hpre; lia|].
  rewrite Hpre in Heom, Htake. simpl in Heom, Htake, Hl.
  assert (Hon : Probe.state st1 = DEVICE_ONLINE).
  { destruct pre; [|done]. by rewrite filter_nil in Hpre. }
  assert (He : Z.to_nat (Probe.eom st1) = length w) by lia.
  rewrite He in Htake.
  assert (Hping : ∃ calls,
    Probe.ping_tty (Mediator.probe io) (Mediator.buffer st) cprtimeout
    = Probe.Returns (Probe.Result DEVICE_ONLINE (Probe.reply st1) (Probe.eom st1) calls)).
  { unfold Probe.ping_tty. rewrite Hg, Hsr, Hwr, Hdr. simpl.
    match goal with |- context [Probe.loop ?a ?s ?st ?tr] =>
      destruct (loop_feeds_then a s pre st tr deadline' rest Hf st1 Hd1)
        as [Hdl [trace' ->]]
    end.
    rewrite <- Hdl in Hun.
    destruct (unanswered_loop tty_attr rest st1 trace' Hun) as [trace'' ->].
    rewrite Hon. by eexists. }
  destruct Hping as [calls Hping].
  pose proof (ping_tty_calls _ _ _ _ Hping) as Hcalls.
  pose proof (body_probe cprtimeout io st _ Htx Hp Hping) as Hbody.
  simpl in Hbody, Hcalls.
  assert (Hpos : 0 < Probe.eom st1) by (destruct w; [done|simpl in *; lia]).
  rewrite bool_decide_eq_true_2 in Hbody by done.
  eexists _, _, _. split; [exact Hping|]. simpl.
  split; [done|]. split; [lia|]. split; [done|]. split; [exact Hbody|].
  rewrite written_poll, hangups_poll, !written_app, !hangups_app, resize_written,
    resize_hangups, written_probe_calls, hangups_probe_calls by done.
  simpl. rewrite He, Htake, !app_nil_r. done.
Qed.

Lemma truncated_report_forwarded_witness :
  ∃ st' evs,
    Mediator.body 0.2
      (Sample.turn 100 PollTimeout
         (Sample.probe [Sample.arrives 10 27; Sample.arrives 11 91; Sample.arrives 12 50;
                        Probe.Turn (Some (Timespec 101 100000000)) PollTimeout (ReadData [])])
         (ReadData []))
      (Sample.entered 1) = (Mediator.Next st', evs) ∧
    Mediator.written childfd evs = [27; 91; 50].
Proof.
  destruct (truncated_report_forwarded 0.2
      (Sample.turn 100 PollTimeout
         (Sample.probe [Sample.arrives 10 27; Sample.arrives 11 91; Sample.arrives 12 50;
                        Probe.Turn (Some (Timespec 101 100000000)) PollTimeout (ReadData [])])
         (ReadData []))
      (Sample.entered 1) (Termios 0) [27; 91; 50] [27; 91; 50]
      (timer (Some (Timespec 101 0)) + 0.2)%float
      [Probe.Turn (Some (Timespec 101 100000000)) PollTimeout (ReadData [])])
    as (r & st' & evs & _ & _ & _ & _ & Hbody & Hw & _).
  - done.
  - reflexivity.
  - vm_compute. lia.
  - by repeat split.
  - exists [59; 48; 82], [50], [48].
    repeat split; simpl; try lia; repeat constructor; unfold Cpr.digit; lia.
  - intros (rows & cols & _ & _ & Heq). unfold Cpr.report in Heq. simpl in Heq.
    injection Heq as Hrows.
    destruct rows as [|r1 [|r2 rows]]; simpl in Hrows; discriminate Hrows.
  - done.
  - reflexivity.
  - repeat (eapply feeds_then_byte;
            [vm_compute; reflexivity|reflexivity|reflexivity|reflexivity|]).
    apply feeds_then_nil.
  - simpl. right. by left.
  - exists st', evs. split; [exact Hbody|exact Hw].
Defined.

(** ** More on the mediator loop *)

Section loop_more.
Implicit Types (st : Mediator.locals) (io : Mediator.turn) (evs : list event).

Lemma arm_keeps io st :
  Mediator.txok (Mediator.arm io st) = Mediator.txok st ∧
  Mediator.buffer (Mediator.arm io st) = Mediator.buffer st ∧
  Mediator.tty_attr (Mediator.arm io st) = Mediator.tty_attr st ∧
  Mediator.timeout (Mediator.arm io st) = Mediator.timeout st.
Proof. unfold Mediator.arm. by destruct (Mediator.finite _). Qed.

Lemma polled_revents_keeps n res st :
  Mediator.txok (Mediator.polled_revents n res st) = Mediator.txok st ∧
  Mediator.buffer (Mediator.polled_revents n res st) = Mediator.buffer st ∧
  Mediator.tty_attr (Mediator.polled_revents n res st) = Mediator.tty_attr st ∧
  Mediator.timeout (Mediator.polled_revents n res st) = Mediator.timeout st ∧
  Mediator.polltimeoutms (Mediator.polled_revents n res st) = Mediator.polltimeoutms st.
Proof. by destruct res. Qed.

Lemma account_keeps io st :
  Mediator.txok (Mediator.account io st) = Mediator.txok st ∧
  Mediator.buffer (Mediator.account io st) = Mediator.buffer st.
Proof.
  unfold Mediator.account. destruct (Mediator.polled io); try done.
  by destruct (Mediator.finite _).
Qed.

Lemma flag_after_bit t l : t = 0 ∨ t = 1 → Flow.flag_after t l = 0 ∨ Flow.flag_after t l = 1.
Proof.
  intros Ht. rewrite flag_after_last.
  destruct (last _) as [b|]; [|done]. by case_bool_decide; [right|left].
Qed.

(** What the terminal's side of a turn does with the bytes it reads. *)
Lemma from_tty_data io st data :
  Mediator.revents0 st ≠ 0 → PFDALIVE (Mediator.revents0 st) = true →
  Mediator.tty_read io = ReadData data →
  (0 < length data ≤ Z.to_nat BUFSIZ)%nat →
  let kept := if flow_controlled io st then filter Flow.data_byte data else data in
  ∃ st',
    Mediator.from_tty io st
      = (Mediator.Next st',
         Read ttyfd BUFSIZ :: if bool_decide (kept = []) then [] else [Write childfd kept]) ∧
    Mediator.txok st'
      = (if flow_controlled io st then Flow.flag_after (Mediator.txok st) data
         else Mediator.txok st) ∧
    length (Mediator.buffer st') = (length data `max` length (Mediator.buffer st))%nat.
Proof.
  intros Hr Ha Hread Hlen kept. unfold Mediator.from_tty.
  rewrite bool_decide_eq_false_2, Ha, Hread by done. simpl.
  rewrite take_ge by lia.
  rewrite bool_decide_eq_false_2 by lia.
  set (buffer' := data ++ drop (length data) (Mediator.buffer st)).
  assert (Htake : take (length data) buffer' = data) by apply take_app_length.
  assert (Hbl : length buffer' = (length data `max` length (Mediator.buffer st))%nat).
  { unfold buffer'. rewrite length_app, length_drop. lia. }
  subst kept. unfold flow_controlled, current_attr.
  case_bool_decide as Hflow.
  - destruct (flow_control_preprocessor_eq buffer' (Z.of_nat (length data)) (Mediator.txok st))
      as (buf'' & Heq & Hl'' & Hkept & _); [lia|].
    rewrite Nat2Z.id, Htake in Heq, Hkept.
    rewrite Heq. simpl.
    destruct (filter Flow.data_byte data) as [|k kept] eqn:Hk.
    + simpl. eexists. split; [done|]. simpl. split; [done|]. by rewrite Hl''.
    + rewrite bool_decide_eq_true_2 by (simpl; lia).
      rewrite Nat2Z.id, Hkept. eexists. split; [done|]. simpl. split; [done|]. by rewrite Hl''.
  - simpl. rewrite bool_decide_eq_true_2 by lia.
    rewrite Nat2Z.id, Htake.
    rewrite (bool_decide_eq_false_2 (data = [])) by (intros ->; simpl in Hlen; lia).
    eexists. split; [done|]. by simpl.
Qed.
End loop_more.

(** X9. What the child receives of the terminal's input.  In a turn in which
    the terminal is readable and [read] delivers [data]: with IXOFF set in
    the terminal's attributes the child is written [data] without its XON
    and XOFF bytes (and nothing at all when no other byte is left), and
    [txok] follows the flow-control bytes of [data]; with IXOFF clear the
    child is written [data] as it is, XON and XOFF included, and [txok] is
    left alone. *)
Theorem terminal_input_filtered (cprtimeout : float) (io : Mediator.turn)
    (st : Mediator.locals) (r0 r1 : Z) (data : list Z) :
  Mediator.polled io = PollReady r0 r1 → r0 ≠ 0 → PFDALIVE r0 = true →
  Mediator.tty_read io = ReadData data →
  (0 < length data ≤ Z.to_nat BUFSIZ)%nat →
  Mediator.written childfd (Mediator.body cprtimeout io st).2
    = (if flow_controlled io st then filter Flow.data_byte data else data) ∧
  match (Mediator.body cprtimeout io st).1 with
  | Mediator.Next st' | Mediator.Exit st' =>
      Mediator.txok st'
      = if flow_controlled io st then Flow.flag_after (Mediator.txok st) data
        else Mediator.txok st
  | _ => False
  end.
Proof.
  intros Hp Hr Ha Hread Hlen. unfold Mediator.body.
  destruct (arm_keeps io st) as (Ha1 & _ & Ha3 & _).
  set (st1 := Mediator.arm io st) in *.
  destruct (polled_revents_keeps (Mediator.nfds st1) (Mediator.polled io) st1)
    as (Hp1 & _ & Hp3 & _).
  set (st2 := Mediator.polled_revents (Mediator.nfds st1) (Mediator.polled io) st1) in *.
  assert (Hrev : Mediator.revents0 st2 = r0) by (subst st2; by rewrite Hp).
  assert (Hflow : flow_controlled io st2 = flow_controlled io st).
  { unfold flow_controlled, current_attr. by rewrite Hp3, Ha3. }
  unfold Mediator.dispatch. rewrite Hp.
  destruct (from_tty_data io st2 data) as (st3 & Htty & Htx & _);
    [by rewrite Hrev..|done|done|].
  rewrite Htty, Hflow, Hp1, Ha1 in *. clear Htty.
  set (kept := if flow_controlled io st then filter Flow.data_byte data else data) in *.
  assert (Hkept : Mediator.written childfd
            (Read ttyfd BUFSIZ :: if bool_decide (kept = []) then [] else [Write childfd kept])
          = kept).
  { case_bool_decide as Hk; simpl; [by rewrite Hk|by rewrite app_nil_r]. }
  destruct (from_child_written io st3) as [Hcw _].
  pose proof (from_child_txok io st3) as Hct.
  destruct (Mediator.from_child io st3) as [fl2 evs2]. simpl in Hcw.
  specialize (Hct fl2 evs2 eq_refl).
  destruct fl2 as [st4|st4| |]; cbn [fst snd]; try (by destruct Hct);
    rewrite written_poll, ?written_app, Hkept, Hcw, ?resize_written, ?app_nil_r;
    (split; [done|]); destruct Hct as [Hct _];
    rewrite ?(proj1 (account_keeps io st4)); congruence.
Qed.

Lemma terminal_input_filtered_witness :
  Mediator.written childfd
    (Mediator.body 0.2
       (Mediator.Turn (Some (Timespec 100 0)) (PollReady POLLIN 0) (Sample.probe [])
          (ReadData [97; 19; 98; 17; 99]) (Some (Termios IXOFF)) (ReadData [])
          false false false None)
       (Sample.entered 10)).2
  = [97; 98; 99].
Proof.
  destruct (terminal_input_filtered 0.2
       (Mediator.Turn (Some (Timespec 100 0)) (PollReady POLLIN 0) (Sample.probe [])
          (ReadData [97; 19; 98; 17; 99]) (Some (Termios IXOFF)) (ReadData [])
          false false false None)
       (Sample.entered 10) POLLIN 0 [97; 19; 98; 17; 99]) as [Hw _].
  - reflexivity.
  - done.
  - reflexivity.
  - reflexivity.
  - vm_compute. lia.
  - exact Hw.
Defined.

(** ** What the mediator loop keeps, and when it leaves *)

Section loop_invariants.
Implicit Types (st : Mediator.locals) (io : Mediator.turn) (evs : list event).

Lemma ping_tty_length env reply cprtimeout :
  (Z.to_nat CPRSIZE ≤ length reply)%nat →
  match Probe.ping_tty env reply cprtimeout with
  | Probe.Returns r => length (Probe.buffer r) = length reply
  | Probe.Waits _ _ => True
  | Probe.Overruns => False
  end.
Proof.
  intros Hlen. unfold Probe.ping_tty.
  destruct (Probe.tcgetattr env) as [tty_attr|]; [|done].
  destruct (Probe.tcsetattr_raw env); simpl; [|done].
  destruct (Probe.write_cpr env); simpl; [|done].
  destruct (Probe.tcdrain env); simpl; [|done].
  match goal with |- context [Probe.loop ?a ?s ?st ?tr] =>
    pose proof (loop_in_bounds (length reply) a s st tr Hlen) as Hl;
    destruct (Probe.loop a s st tr) as [st' ?|st' ?|]
  end.
  - destruct Hl as [[_ ?] _]; [by repeat split|]. done.
  - done.
  - apply Hl. by repeat split.
Qed.

Lemma sys_read_length r buffer :
  length buffer = Z.to_nat BUFSIZ →
  length (Mediator.sys_read r buffer).2 = Z.to_nat BUFSIZ.
Proof.
  intros Hb. destruct r as [data|errno]; simpl; [|done].
  rewrite length_app, length_drop, length_take. lia.
Qed.

Lemma timed_out_sound cprtimeout io st :
  sound st →
  match (Mediator.timed_out cprtimeout io st).1 with
  | Mediator.Next st' | Mediator.Exit st' => sound st'
  | Mediator.Blocked => True
  | Mediator.Overrun => False
  end.
Proof.
  intros [Hb Ht]. unfold Mediator.timed_out.
  case_bool_decide.
  - pose proof (ping_tty_length (Mediator.probe io) (Mediator.buffer st) cprtimeout) as Hp.
    destruct (Probe.ping_tty _ _ _) as [r| |]; simpl; [|done|].
    + unfold Mediator.conclude. destruct (decide _); simpl; split; try done;
        simpl; rewrite Hp; try done; rewrite Hb; vm_compute; lia.
    + apply Hp. rewrite Hb. vm_compute. lia.
  - unfold Mediator.conclude. by rewrite decide_True.
Qed.

Lemma from_tty_sound io st :
  sound st →
  match (Mediator.from_tty io st).1 with
  | Mediator.Next st' | Mediator.Exit st' => sound st'
  | _ => False
  end.
Proof.
  intros [Hb Ht]. unfold Mediator.from_tty.
  case_bool_decide; [done|].
  destruct (PFDALIVE _); simpl; [|done].
  pose proof (sys_read_length (Mediator.tty_read io) (Mediator.buffer st) Hb) as Hl.
  pose proof (sys_read_bounds (Mediator.tty_read io) (Mediator.buffer st)) as Hbd.
  destruct (Mediator.sys_read _ _) as [received' buffer']. simpl in Hl, Hbd.
  case_bool_decide; [done|].
  case_bool_decide.
  - destruct (flow_control_preprocessor_eq buffer' received' (Mediator.txok st))
      as (buf'' & -> & Hl'' & _); [lia|]. simpl.
    split; simpl; [by rewrite Hl''|]. by apply flag_after_bit.
  - done.
Qed.

Lemma from_child_sound io st :
  sound st →
  match (Mediator.from_child io st).1 with
  | Mediator.Next st' | Mediator.Exit st' => sound st'
  | _ => False
  end.
Proof.
  intros [Hb Ht]. unfold Mediator.from_child.
  destruct (PFDALIVE _); simpl; [|done].
  destruct (_ && _); [|done].
  pose proof (sys_read_length (Mediator.child_read io) (Mediator.buffer st) Hb) as Hl.
  destruct (Mediator.sys_read _ _) as [received' buffer']. simpl in Hl.
  by case_bool_decide.
Qed.

Lemma body_sound cprtimeout io st :
  sound st →
  match (Mediator.body cprtimeout io st).1 with
  | Mediator.Next st' | Mediator.Exit st' => sound st'
  | Mediator.Blocked => True
  | Mediator.Overrun => False
  end.
Proof.
  intros Hs. unfold Mediator.body.
  assert (Hs2 : sound (Mediator.polled_revents (Mediator.nfds (Mediator.arm io st))
                         (Mediator.polled io) (Mediator.arm io st))).
  { destruct Hs as [Hb Ht]. unfold sound.
    destruct (polled_revents_keeps (Mediator.nfds (Mediator.arm io st))
                (Mediator.polled io) (Mediator.arm io st)) as (-> & -> & _).
    destruct (arm_keeps io st) as (-> & -> & _). done. }
  set (st2 := Mediator.polled_revents _ _ _) in *.
  assert (Hacc : ∀ st', sound st' → sound (Mediator.account io st')).
  { intros st' [Hb Ht]. unfold sound.
    destruct (account_keeps io st') as (-> & ->). done. }
  unfold Mediator.dispatch.
  destruct (Mediator.polled io) as [errno| |r0 r1].
  - case_bool_decide; simpl; auto.
  - pose proof (timed_out_sound cprtimeout io st2 Hs2) as Ht.
    destruct (Mediator.timed_out cprtimeout io st2) as [[st'|st'| |] evs]; simpl in *; auto.
  - pose proof (from_tty_sound io st2 Hs2) as Ht.
    destruct (Mediator.from_tty io st2) as [[st3|st3| |] evs1]; simpl in *; auto.
    pose proof (from_child_sound io st3 Ht) as Hc.
    destruct (Mediator.from_child io st3) as [[st4|st4| |] evs2]; simpl in *; auto.
Qed.

Lemma from_tty_unarmed io st :
  unarmed st →
  hangups (Mediator.from_tty io st).2 = 0%nat ∧
  ∀ st', (Mediator.from_tty io st).1 = Mediator.Next st' → unarmed st'.
Proof.
  intros [Ht Hms]. unfold Mediator.from_tty.
  case_bool_decide; [split; [done|]; by intros st' [= <-]|].
  destruct (PFDALIVE _); simpl; [|by split].
  destruct (Mediator.sys_read _ _) as [received' buffer'].
  case_bool_decide; [by split|].
  destruct (if bool_decide _ then _ else _) as [[[b r] t]|]; simpl; [|by split].
  split; [by case_bool_decide|].
  intros st' [= <-]. unfold unarmed. simpl. by rewrite Ht.
Qed.

Lemma from_child_unarmed io st :
  unarmed st →
  ∀ st', (Mediator.from_child io st).1 = Mediator.Next st' → unarmed st'.
Proof.
  intros [Ht Hms] st'. unfold Mediator.from_child.
  destruct (PFDALIVE _); simpl; [|done].
  destruct (_ && _); [|by intros [= <-]].
  destruct (Mediator.sys_read _ _) as [received' buffer'].
  case_bool_decide; [done|]. by intros [= <-].
Qed.

Lemma body_unarmed cprtimeout io st :
  unarmed st → Mediator.polled io ≠ PollTimeout →
  hangups (Mediator.body cprtimeout io st).2 = 0%nat ∧
  (∃ n rest, (Mediator.body cprtimeout io st).2
             = Poll n (Mediator.polltimeoutms st) :: rest) ∧
  ∀ st', (Mediator.body cprtimeout io st).1 = Mediator.Next st' → unarmed st'.
Proof.
  intros Hun Hp. unfold Mediator.body.
  assert (Harm : Mediator.arm io st = st).
  { destruct Hun as [Ht _]. unfold Mediator.arm. by rewrite Ht. }
  rewrite Harm.
  set (n := Mediator.nfds st).
  assert (Hun2 : unarmed (Mediator.polled_revents n (Mediator.polled io) st)).
  { destruct Hun. by destruct (Mediator.polled io). }
  set (st2 := Mediator.polled_revents n (Mediator.polled io) st) in *.
  assert (Hacc : ∀ st', unarmed st' → unarmed (Mediator.account io st')).
  { intros st' [Ht Hms]. unfold Mediator.account.
    destruct (Mediator.polled io); try done. by rewrite Ht. }
  unfold Mediator.dispatch.
  destruct (Mediator.polled io) as [errno| |r0 r1] eqn:Hpolled; [|done|].
  - case_bool_decide; cbn [fst snd]; (split; [|split]); eauto.
    + by intros st' [=].
    + rewrite hangups_poll. apply resize_hangups.
    + intros st' [= <-]. by apply Hacc.
  - destruct (from_tty_unarmed io st2 Hun2) as [Hh1 Hd1].
    destruct (Mediator.from_tty io st2) as [fl1 evs1]. simpl in Hh1, Hd1.
    destruct fl1 as [st3| | |]; cbn [fst snd];
      try (split; [by rewrite hangups_poll|split; [eauto|done]]).
    destruct (from_child_written io st3) as [_ Hh2].
    pose proof (from_child_unarmed io st3 (Hd1 st3 eq_refl)) as Hd2.
    destruct (Mediator.from_child io st3) as [fl2 evs2]. simpl in Hh2, Hd2.
    destruct fl2 as [st4| | |]; cbn [fst snd];
      rewrite hangups_poll, ?hangups_app, Hh1, Hh2, ?resize_hangups;
      (split; [done|split; [eauto|]]); try done.
    intros st' [= <-]. by apply Hacc, Hd2.
Qed.
End loop_invariants.

(** X10. The loop keeps its buffer.  Started with a buffer of [BUFSIZ] bytes and
    [txok] a truth value, every turn of every run finds the buffer at that
    size and [txok] at 0 or 1, and no turn reads or writes past the buffer,
    neither in [ping_tty] nor in the flow-control filter. *)
Theorem loop_keeps_buffer (cprtimeout : float) (script : list Mediator.turn)
    (st : Mediator.locals) :
  sound st →
  Forall (λ m, sound (Mediator.before m) ∧ Mediator.after m ≠ Mediator.Overrun)
         (Mediator.run cprtimeout script st).
Proof.
  revert st. induction script as [|io script IH]; intros st Hs; simpl; [constructor|].
  pose proof (body_sound cprtimeout io st Hs) as Hb.
  destruct (Mediator.body cprtimeout io st) as [fl evs]. simpl in Hb.
  constructor.
  - simpl. split; [done|]. by destruct fl.
  - destruct fl; auto.
Qed.

Lemma loop_keeps_buffer_witness :
  Forall (λ m, sound (Mediator.before m) ∧ Mediator.after m ≠ Mediator.Overrun)
    (Mediator.run 0.2
       [Sample.turn 100 PollTimeout (Sample.probe Sample.report_24_80) (ReadData []);
        Sample.turn 101 (PollReady POLLIN 0) (Sample.probe []) (ReadData [19; 104; 17])]
       (Sample.entered 1)).
Proof.
  apply loop_keeps_buffer. split; [|by right].
  unfold Sample.entered, Mediator.enter. cbn [Mediator.buffer]. apply length_replicate.
Defined.

(** X11. With a negative timeout, as the flow-control-only mode sets it, the
    loop never hangs up and never probes.  In every run in which [poll]
    reports a timeout only when it was given one, no turn takes the timeout
    branch, every [poll] is given a negative timeout, and no SIGHUP is
    sent. *)
Theorem flow_control_only_never_hangs_up (cprtimeout : float)
    (script : list Mediator.turn) (st : Mediator.locals) :
  unarmed st →
  Forall Mediator.feasible (Mediator.run cprtimeout script st) →
  Forall (λ m, Mediator.polled (Mediator.met m) ≠ PollTimeout ∧
               hangups (Mediator.calls m) = 0%nat ∧
               ∃ n ms rest, Mediator.calls m = Poll n ms :: rest ∧ ms < 0)
         (Mediator.run cprtimeout script st) ∧
  hangups (Mediator.trace (Mediator.run cprtimeout script st)) = 0%nat.
Proof.
  revert st. induction script as [|io script IH]; intros st Hun Hf; simpl in *.
  { split; [constructor|done]. }
  assert (Hp : Mediator.polled io ≠ PollTimeout).
  { destruct (Mediator.body cprtimeout io st) as [fl evs].
    apply Forall_cons in Hf as [Hfe _]. unfold Mediator.feasible in Hfe. simpl in Hfe.
    intros Hp. specialize (Hfe Hp). destruct Hun as [Ht Hms].
    unfold Mediator.arm in Hfe. rewrite Ht in Hfe. lia. }
  destruct (body_unarmed cprtimeout io st Hun Hp) as (Hh & (n & rest & Hpoll) & Hnext).
  destruct Hun as [Ht Hms].
  destruct (Mediator.body cprtimeout io st) as [fl evs]. simpl in *.
  apply Forall_cons in Hf as [_ Hf].
  assert (Hm : Mediator.polled io ≠ PollTimeout ∧ hangups evs = 0%nat ∧
               ∃ n ms rest, evs = Poll n ms :: rest ∧ ms < 0) by eauto 10.
  destruct fl as [st'| | |];
    try (split; [constructor; [exact Hm|constructor]|]);
    rewrite ?trace_cons; simpl; rewrite ?app_nil_r; try done.
  destruct (IH st' (Hnext st' eq_refl) Hf) as [Hall Hzero].
  split; [by constructor|]. by rewrite hangups_app, Hh, Hzero.
Qed.

Lemma flow_control_only_never_hangs_up_witness :
  hangups
    (Mediator.trace
       (Mediator.run 0.2
          [Sample.child_output 100 [65; 66]; Sample.interrupted 0 500;
           Sample.turn 130 (PollReady POLLIN 0) (Sample.probe []) (ReadData [120])]
          (Sample.entered (-1))))
  = 0%nat.
Proof.
  apply flow_control_only_never_hangs_up.
  - split; [reflexivity|]. vm_compute. reflexivity.
  - vm_compute.
    repeat (apply Forall_cons; split; [intros H; discriminate H|]).
    by apply Forall_nil.
Defined.

(** ** Set-up and tear-down of [wrap] *)

Section session.

Lemma wtermsig_range status : 0 <= Session.WTERMSIG status <= 127.
Proof.
  unfold Session.WTERMSIG. change 127 with (Z.ones 7) at 1 2.
  rewrite Z.land_ones by lia.
  pose proof (Z.mod_pos_bound status (2 ^ 7) ltac:(lia)) as H.
  change (2 ^ 7) with 128 in *. lia.
Qed.

Lemma wexitstatus_range status : 0 <= Session.WEXITSTATUS status <= 255.
Proof.
  unfold Session.WEXITSTATUS.
  rewrite Z.shiftr_land. change (Z.shiftr 65280 8) with (Z.ones 8).
  rewrite Z.land_ones by lia.
  pose proof (Z.mod_pos_bound (Z.shiftr status 8) (2 ^ 8) ltac:(lia)) as H.
  change (2 ^ 8) with 256 in *. lia.
Qed.

Lemma wifsignaled_range status :
  Session.WIFSIGNALED status = true ↔ 1 <= Session.WTERMSIG status <= 126.
Proof.
  unfold Session.WIFSIGNALED, Session.signed_char.
  pose proof (wtermsig_range status) as Ht. unfold Session.WTERMSIG in *.
  rewrite bool_decide_eq_true, Z.shiftr_div_pow2 by lia.
  change (2 ^ 1) with 2.
  destruct (decide (Z.land status 127 = 127)) as [He|Hne].
  { rewrite He. split; [intros H; vm_compute in H; discriminate H|lia]. }
  rewrite (Z.mod_small (Z.land status 127 + 1 + 128) 256) by lia.
  split; intros H.
  - assert (Z.land status 127 ≠ 0); [|lia].
    intros H0. rewrite H0 in H. by vm_compute in H.
  - apply Z.div_str_pos. lia.
Qed.

(** The code [wrap] returns for a wait status. *)
Lemma reaped_cases waited :
  Session.reaped waited = -1 ∨
  ∃ status, waited = Some status ∧
    ((Session.WTERMSIG status = 0 ∧
      Session.reaped waited = Session.WEXITSTATUS status ∧
      0 <= Session.reaped waited <= 255) ∨
     (1 <= Session.WTERMSIG status <= 126 ∧
      Session.reaped waited = 128 + Session.WTERMSIG status ∧
      129 <= Session.reaped waited <= 254)).
Proof.
  destruct waited as [status|]; [|by left]. simpl.
  unfold Session.WIFEXITED. case_bool_decide as He.
  - right. exists status. split; [done|]. left.
    split; [done|]. split; [done|]. apply wexitstatus_range.
  - destruct (Session.WIFSIGNALED status) eqn:Hs; [|by left].
    apply wifsignaled_range in Hs.
    right. exists status. split; [done|]. right.
    unfold Session.EXIT_TERMSIG_OFFSET. split; [done|]. split; [done|]. lia.
Qed.
End session.

(** X12. [wrap] undoes what it did, in reverse, on every path on which it
    returns.  When the handler cannot be installed it returns -1 having
    done nothing else.  Otherwise its last call puts the old handler back;
    and when raw mode was applied, the call before that puts back the
    attributes saved before raw mode, whether the child could be forked or
    not and however the loop ended.  When raw mode was not applied no
    attributes are restored and no child is forked. *)
Theorem wrap_restores (env : Session.environment) (timeout cprtimeout : float)
    (return_code : Z) (calls : list Session.call) :
  Session.wrap env timeout cprtimeout = Session.Returns return_code calls →
  if Session.sigaction_installed env then
    last calls = Some Session.RestoreHandler ∧
    match Session.tcgetattr env with
    | Some old_tty_attr =>
        if Session.winsize env && Session.tcsetattr_raw env then
          ∃ between,
            calls = [Session.InstallHandler; Session.EnterRaw (cfmakeraw old_tty_attr)]
                    ++ between
                    ++ [Session.RestoreAttr old_tty_attr; Session.RestoreHandler] ∧
            (Session.forked env = true →
             ∃ looped, between = Session.Forkpty old_tty_attr :: (Session.Loop <$> looped)
                                 ++ [Session.CloseChild; Session.Waitpid])
        else
          return_code = -1 ∧
          Forall (λ c, c = Session.InstallHandler ∨ c = Session.RestoreHandler ∨
                       c = Session.EnterRaw (cfmakeraw old_tty_attr)) calls
    | None =>
        return_code = -1 ∧
        calls = [Session.InstallHandler; Session.RestoreHandler]
    end
  else return_code = -1 ∧ calls = [Session.InstallHandler].
Proof.
  unfold Session.wrap.
  destruct (Session.sigaction_installed env); simpl; [|by intros [= <- <-]].
  destruct (Session.winsize env); simpl.
  2: { intros [= <- <-]. split; [done|].
       destruct (Session.tcgetattr env); [|done]. split; [done|].
       repeat constructor; tauto. }
  destruct (Session.tcgetattr env) as [old|]; [|by intros [= <- <-]].
  destruct (Session.tcsetattr_raw env); simpl.
  2: { intros [= <- <-]. split; [done|]. split; [done|]. repeat constructor; tauto. }
  destruct (Session.forked env); simpl.
  2: { intros [= <- <-]. split; [done|]. exists [Session.Forkpty old]. by split. }
  destruct (Mediator.after <$> last _) as [[| | |]|]; try (intros H; discriminate H).
  intros [= <- <-]. split.
  - generalize (Session.Loop <$> Mediator.trace
      (Mediator.run cprtimeout (Session.script env)
         (Mediator.enter timeout old (Session.buffer0 env)))).
    intros l.
    rewrite !app_comm_cons.
    replace [Session.CloseChild; Session.Waitpid; Session.RestoreAttr old;
             Session.RestoreHandler]
      with ([Session.CloseChild; Session.Waitpid; Session.RestoreAttr old]
            ++ [Session.RestoreHandler]) by reflexivity.
    rewrite app_assoc.
    apply last_snoc.
  - eexists (Session.Forkpty old :: _ ++ [Session.CloseChild; Session.Waitpid]). split.
    + simpl. do 3 f_equal. by rewrite <- app_assoc.
    + intros _. by eexists.
Qed.

Lemma wrap_restores_witness :
  ∃ return_code calls,
    Session.wrap
      (Session.Environment true true (Some (Termios IXOFF)) true true
         (replicate (Z.to_nat BUFSIZ) 0)
         [Sample.child_output 100 [104; 105];
          Sample.turn 101 (PollReady POLLHUP 0) (Sample.probe []) (ReadData [])]
         (Some 768))
      10 0.2 = Session.Returns return_code calls ∧
    return_code = 3 ∧
    last calls = Some Session.RestoreHandler.
Proof.
  destruct (Session.wrap
      (Session.Environment true true (Some (Termios IXOFF)) true true
         (replicate (Z.to_nat BUFSIZ) 0)
         [Sample.child_output 100 [104; 105];
          Sample.turn 101 (PollReady POLLHUP 0) (Sample.probe []) (ReadData [])]
         (Some 768))
      10 0.2) as [rc calls|calls] eqn:Hw; [|vm_compute in Hw; discriminate Hw].
  exists rc, calls. split; [done|].
  destruct (wrap_restores _ _ _ _ _ Hw) as [Hlast _].
  split; [|exact Hlast].
  vm_compute in Hw. by injection Hw as <- _.
Defined.

(** X13. The code [wrap] returns is -1 or a number from 0 to 255.  It is not -1
    only when the child was forked, the loop was left and [waitpid] gave a
    status: the child's own exit status when it exited, and 128 plus the
    number of the signal, from 129 to 254, when a signal ended it. *)
Theorem wrap_return_code (env : Session.environment) (timeout cprtimeout : float)
    (return_code : Z) (calls : list Session.call) :
  Session.wrap env timeout cprtimeout = Session.Returns return_code calls →
  return_code = -1 ∨
  (Session.forked env = true ∧ Session.Waitpid ∈ calls ∧
   ∃ status, Session.waitpid env = Some status ∧
     ((Session.WTERMSIG status = 0 ∧ return_code = Session.WEXITSTATUS status ∧
       0 <= return_code <= 255) ∨
      (1 <= Session.WTERMSIG status <= 126 ∧
       return_code = 128 + Session.WTERMSIG status ∧
       129 <= return_code <= 254))).
Proof.
  unfold Session.wrap.
  destruct (Session.sigaction_installed env); simpl; [|intros [= <- <-]; by left].
  destruct (Session.winsize env); simpl; [|intros [= <- <-]; by left].
  destruct (Session.tcgetattr env) as [old|]; [|intros [= <- <-]; by left].
  destruct (Session.tcsetattr_raw env); simpl; [|intros [= <- <-]; by left].
  destruct (Session.forked env); simpl; [|intros [= <- <-]; by left].
  destruct (Mediator.after <$> last _) as [[| | |]|]; try (intros H; discriminate H).
  intros [= <- <-].
  destruct (reaped_cases (Session.waitpid env)) as [Hm|(status & Hs & Hcases)];
    [by left|right].
  split; [done|]. split.
  - rewrite !elem_of_cons, elem_of_app, !elem_of_cons. tauto.
  - exists status. split; [done|]. exact Hcases.
Qed.

Lemma wrap_return_code_witness :
  ∃ calls,
    Session.wrap
      (Session.Environment true true (Some (Termios 0)) true true
         (replicate (Z.to_nat BUFSIZ) 0)
         [Sample.turn 101 (PollReady POLLHUP 0) (Sample.probe []) (ReadData [])]
         (Some 9))
      10 0.2 = Session.Returns 137 calls.
Proof.
  destruct (Session.wrap
      (Session.Environment true true (Some (Termios 0)) true true
         (replicate (Z.to_nat BUFSIZ) 0)
         [Sample.turn 101 (PollReady POLLHUP 0) (Sample.probe []) (ReadData [])]
         (Some 9))
      10 0.2) as [rc calls|calls] eqn:Hw; [|vm_compute in Hw; discriminate Hw].
  exists calls.
  destruct (wrap_return_code _ _ _ _ _ Hw)
    as [Hm|(_ & _ & status & Hs & [(Ht & _)|(_ & Hrc & _)])].
  - vm_compute in Hw. injection Hw as Hrc _. rewrite Hm in Hrc. discriminate Hrc.
  - injection Hs as <-. vm_compute in Ht. discriminate Ht.
  - injection Hs as <-. rewrite Hrc. reflexivity.
Defined.

(** ** The one-shot query and the command line *)

(** X14. The one-shot query stays inside its reply array of [CPRSIZE] bytes.
    When it returns, the value is 0 or 1 and says nothing of the state
    found: it is 1, and a write error is reported, exactly when [puts]
    succeeded and [fflush] failed; when [puts] itself fails the value is
    0. *)
Theorem print_tty_status_result (env : Status.environment) (reply : list Z)
    (cprtimeout : float) :
  length reply = Z.to_nat CPRSIZE →
  match Status.print_tty_status env reply cprtimeout with
  | Status.Returns result printed write_error calls =>
      (result = 0 ∨ result = 1) ∧
      (result = 1 ↔ Status.puts env = true ∧ Status.fflush env = false) ∧
      (write_error = true ↔ result = 1)
  | Status.Waits => True
  | Status.Overruns => False
  end.
Proof.
  intros Hlen. unfold Status.print_tty_status.
  pose proof (ping_tty_length (Status.probe env) reply cprtimeout) as Hp.
  rewrite Hlen in Hp. specialize (Hp (le_n _)).
  destruct (Probe.ping_tty (Status.probe env) reply cprtimeout) as [r| |]; [|done|done].
  destruct (Status.puts env), (Status.fflush env); vm_compute; intuition congruence.
Qed.

Lemma print_tty_status_result_witness :
  match Status.print_tty_status
          (Status.Environment (Sample.probe Sample.report_24_80) false true)
          (replicate 10 0) 0.2 with
  | Status.Returns result printed write_error calls =>
      (result = 0 ∨ result = 1) ∧
      (result = 1 ↔ false = true ∧ true = false) ∧
      (write_error = true ↔ result = 1)
  | Status.Waits => True
  | Status.Overruns => False
  end.
Proof.
  apply (print_tty_status_result
           (Status.Environment (Sample.probe Sample.report_24_80) false true)
           (replicate 10 0) 0.2).
  reflexivity.
Defined.

Section command_line.

Lemma last_cons_default {A} (x : A) (l : list A) (d : A) :
  default d (last (x :: l)) = default x (last l).
Proof. rewrite last_cons. by destruct (last l). Qed.

Lemma options_bounds opts s s' :
  Main.options opts s = Some s' →
  (0.01 <=? Main.deadline s)%float = true → (1 <=? Main.timeout s)%float = true →
  (0.01 <=? Main.deadline s')%float = true ∧ (1 <=? Main.timeout s')%float = true.
Proof.
  revert s. induction opts as [|opt opts IH]; intros s; simpl.
  { by intros [= <-]. }
  destruct opt as [| | |[v|]|[v|]|]; try (intros H; discriminate H);
    try (intros H ? ?; by apply (IH _ H)).
  - destruct (0.01 <=? v)%float eqn:Hv; [|intros H; discriminate H].
    intros H ? ?. by apply (IH _ H).
  - destruct (1 <=? v)%float eqn:Hv; [|intros H; discriminate H].
    intros H ? ?. by apply (IH _ H).
Qed.

Lemma options_action opts s s' :
  Main.options opts s = Some s' →
  Main.action s' = default (Main.action s) (last (omap selects opts)).
Proof.
  revert s. induction opts as [|opt opts IH]; intros s; simpl.
  { by intros [= <-]. }
  destruct opt as [| | |[v|]|[v|]|]; try (intros H; discriminate H);
    try (intros H; rewrite (IH _ H); simpl; by rewrite last_cons_default).
  - destruct (0.01 <=? v)%float; [|intros H; discriminate H].
    intros H. by rewrite (IH _ H).
  - destruct (1 <=? v)%float; [|intros H; discriminate H].
    intros H. by rewrite (IH _ H).
Qed.

Lemma unarmed_enter old_tty_attr buffer :
  unarmed (Mediator.enter (-1) old_tty_attr buffer).
Proof. split; [reflexivity|]. vm_compute. reflexivity. Qed.

Lemma run_unarmed_hangups cprtimeout script st :
  unarmed st →
  Forall (λ io, Mediator.polled io ≠ PollTimeout) script →
  hangups (Mediator.trace (Mediator.run cprtimeout script st)) = 0%nat.
Proof.
  revert st. induction script as [|io script IH]; intros st Hun Hf; [done|].
  apply Forall_cons in Hf as [Hp Hf].
  destruct (body_unarmed cprtimeout io st Hun Hp) as (Hh & _ & Hnext).
  cbn [Mediator.run].
  destruct (Mediator.body cprtimeout io st) as [fl evs]. cbn [fst snd] in *.
  rewrite trace_cons, hangups_app. cbn [Mediator.calls]. rewrite Hh.
  destruct fl as [st'| | |]; try done.
  by apply IH; [apply Hnext|].
Qed.

Lemma hangups_none evs : hangups evs = 0%nat → Kill SIGHUP ∉ evs.
Proof.
  unfold hangups. intros H Hin.
  apply length_zero_iff_nil in H.
  assert (Hf : Kill SIGHUP ∈ filter (λ e, e = Kill SIGHUP) evs)
    by by apply list_elem_of_filter.
  rewrite H in Hf. by apply elem_of_nil in Hf.
Qed.

Ltac no_loop :=
  let H := fresh in
  intros H; repeat (apply elem_of_cons in H as [H|H]; [discriminate H|]);
  by apply elem_of_nil in H.

Lemma wrap_loop_calls env timeout cprtimeout e :
  match Session.wrap env timeout cprtimeout with
  | Session.Returns _ calls | Session.Runs calls =>
      Session.Loop e ∈ calls →
      ∃ old_tty_attr,
        Session.tcgetattr env = Some old_tty_attr ∧
        e ∈ Mediator.trace
              (Mediator.run cprtimeout (Session.script env)
                 (Mediator.enter timeout old_tty_attr (Session.buffer0 env)))
  end.
Proof.
  unfold Session.wrap.
  destruct (Session.sigaction_installed env); simpl; [|no_loop].
  destruct (Session.winsize env); simpl; [|no_loop].
  destruct (Session.tcgetattr env) as [old|]; [|no_loop].
  destruct (Session.tcsetattr_raw env); simpl; [|no_loop].
  destruct (Session.forked env); simpl; [|no_loop].
  assert (Hin : ∀ (l : list event) (rest : list Session.call),
    (∀ e', Session.Loop e' ∉ rest) →
    Session.Loop e ∈ Session.InstallHandler :: Session.EnterRaw (cfmakeraw old)
      :: Session.Forkpty old :: (Session.Loop <$> l) ++ rest → e ∈ l).
  { intros l rest Hrest H.
    rewrite !elem_of_cons, elem_of_app, list_elem_of_fmap in H.
    destruct H as [H|[H|[H|[(e' & He & H)|H]]]]; try done.
    - by injection He as ->.
    - by apply Hrest in H. }
  assert (Hnone : ∀ (l : list event),
    Session.Loop e ∈ Session.InstallHandler :: Session.EnterRaw (cfmakeraw old)
      :: Session.Forkpty old :: (Session.Loop <$> l) → e ∈ l).
  { intros l H. apply (Hin l []); [intros e'; no_loop|]. by rewrite app_nil_r. }
  destruct (Mediator.after <$> last _) as [[| | |]|]; intros H; exists old;
    (split; [done|]); try (by apply Hnone).
  eapply Hin; [|exact H]. intros e'. no_loop.
Qed.
End command_line.

(** X15. The option loop of [main] lets the last word stand.  When it runs to
    the end, every option was one it takes, every number given to -r was at
    least 0.01 and every number given to -t at least 1; the action is the
    one the last of -1, -f and -h selects, the reply timeout the number of
    the last -r and the activity timeout the number of the last -t, each
    left as it was when no such option was given. *)
Theorem options_last_wins (opts : list Main.option_seen) (s s' : Main.settings) :
  Main.options opts s = Some s' →
  Forall taken opts ∧
  Forall (λ v, (0.01 <=? v)%float = true) (omap reply_timeout opts) ∧
  Forall (λ v, (1 <=? v)%float = true) (omap activity_timeout opts) ∧
  Main.action s' = default (Main.action s) (last (omap selects opts)) ∧
  Main.deadline s' = default (Main.deadline s) (last (omap reply_timeout opts)) ∧
  Main.timeout s' = default (Main.timeout s) (last (omap activity_timeout opts)).
Proof.
  revert s. induction opts as [|opt opts IH]; intros s; simpl.
  { intros [= <-]. by repeat split. }
  destruct opt as [| | |[v|]|[v|]|]; try (intros H; discriminate H).
  1-3: intros H; destruct (IH _ H) as (Ht & Hr & Ha & -> & -> & ->); simpl;
       rewrite ?last_cons_default; repeat split; try done; by constructor.
  - destruct (0.01 <=? v)%float eqn:Hv; [|intros H; discriminate H].
    intros H. destruct (IH _ H) as (Ht & Hr & Ha & -> & -> & ->). simpl.
    rewrite ?last_cons_default. repeat split; try done; by constructor.
  - destruct (1 <=? v)%float eqn:Hv; [|intros H; discriminate H].
    intros H. destruct (IH _ H) as (Ht & Hr & Ha & -> & -> & ->). simpl.
    rewrite ?last_cons_default. repeat split; try done; by constructor.
Qed.

Lemma options_last_wins_witness :
  ∃ s', Main.options [Main.opt_f; Main.opt_t (Some 30%float); Main.opt_h;
                      Main.opt_t (Some 5%float)] Main.defaults = Some s' ∧
        Main.action s' = Main.ACTION_HUP_DETECTOR ∧
        Main.timeout s' = 5%float ∧ Main.deadline s' = 0.2%float.
Proof.
  eexists. split; [reflexivity|].
  destruct (options_last_wins
              [Main.opt_f; Main.opt_t (Some 30%float); Main.opt_h;
               Main.opt_t (Some 5%float)] Main.defaults _ eq_refl)
    as (_ & _ & _ & Ha & Hd & Ht).
  split; [exact Ha|]. split; [exact Ht|exact Hd].
Defined.

(** X16. [main] calls [wrap] only when all is in place: standard input and
    output are terminals and [fstat] shows them to be one file, a command
    is given and the environment variables are set.  The reply timeout it
    passes is at least 0.01; the activity timeout is at least 1, or -1 when
    the flow-control-only mode was chosen. *)
Theorem main_wrap_arguments (env : Main.environment) (timeout cprtimeout : float)
    (calls : list Session.call) :
  wrapped (Main.main env) = Some (timeout, cprtimeout, calls) →
  (0.01 <=? cprtimeout)%float = true ∧
  ((1 <=? timeout)%float = true ∨
   timeout = (-1)%float ∧
   last (omap selects (Main.opts env)) = Some Main.ACTION_FLOW_CONTROL_ONLY) ∧
  Main.help env = false ∧
  Main.stdin_tty env = true ∧ Main.stdout_tty env = true ∧
  (∃ dev ino, Main.stdin_stat env = Some (dev, ino) ∧
              Main.stdout_stat env = Some (dev, ino)) ∧
  Main.command env = true ∧
  Main.sprintf env = true ∧ Main.setenv_pid env = true ∧
  Main.ttyname env = true ∧ Main.setenv_tty env = true.
Proof.
  unfold Main.main. destruct (Main.help env); [intros H; discriminate H|].
  destruct (Main.options (Main.opts env) Main.defaults) as [s|] eqn:Ho;
    [|intros H; discriminate H].
  destruct (options_bounds _ _ _ Ho eq_refl eq_refl) as [Hd Ht].
  pose proof (options_action _ _ _ Ho) as Ha.
  assert (Hw : ∀ t,
    wrapped (match Session.wrap (Main.session env) t (Main.deadline s) with
             | Session.Returns return_code calls0 =>
                 Main.Exits (Main.normalised return_code)
                            (Main.Wrapped t (Main.deadline s) calls0)
             | Session.Runs calls0 => Main.Runs t (Main.deadline s) calls0
             end) = Some (timeout, cprtimeout, calls) →
    t = timeout ∧ Main.deadline s = cprtimeout).
  { intros t. destruct (Session.wrap _ _ _); by intros [= -> -> _]. }
  assert (Hrest :
    ∀ t, (1 <=? t)%float = true ∨
         t = (-1)%float ∧
         last (omap selects (Main.opts env)) = Some Main.ACTION_FLOW_CONTROL_ONLY →
    wrapped
      (if negb (Main.stdin_tty env) || negb (Main.stdout_tty env)
       then Main.Exits (Main.normalised Session.EXIT_BAD_USAGE) Main.Nothing
       else if bool_decide
                 (Main.same_file (Main.stdin_stat env) (Main.stdout_stat env) ≠ 1)
       then Main.Exits (Main.normalised Session.EXIT_BAD_USAGE) Main.Nothing
       else if negb (Main.command env)
       then Main.Exits (Main.normalised Session.EXIT_BAD_USAGE) Main.Nothing
       else if bool_decide
                 (Main.set_hupmon_environment_variables (Main.sprintf env)
                    (Main.setenv_pid env) (Main.ttyname env) (Main.setenv_tty env) ≠ 0)
       then Main.Exits (Main.normalised Session.EXIT_BAD_USAGE) Main.Nothing
       else match Session.wrap (Main.session env) t (Main.deadline s) with
            | Session.Returns return_code calls0 =>
                Main.Exits (Main.normalised return_code)
                           (Main.Wrapped t (Main.deadline s) calls0)
            | Session.Runs calls0 => Main.Runs t (Main.deadline s) calls0
            end) = Some (timeout, cprtimeout, calls) →
    (0.01 <=? cprtimeout)%float = true ∧
    ((1 <=? timeout)%float = true ∨
     timeout = (-1)%float ∧
     last (omap selects (Main.opts env)) = Some Main.ACTION_FLOW_CONTROL_ONLY) ∧
    false = false ∧
    Main.stdin_tty env = true ∧ Main.stdout_tty env = true ∧
    (∃ dev ino, Main.stdin_stat env = Some (dev, ino) ∧
                Main.stdout_stat env = Some (dev, ino)) ∧
    Main.command env = true ∧
    Main.sprintf env = true ∧ Main.setenv_pid env = true ∧
    Main.ttyname env = true ∧ Main.setenv_tty env = true).
  { intros t Hokt.
    destruct (Main.stdin_tty env); [|intros H; discriminate H].
    destruct (Main.stdout_tty env); [|intros H; discriminate H]. simpl.
    destruct (bool_decide (Main.same_file _ _ ≠ 1)) eqn:Hsame;
      [intros H; discriminate H|apply bool_decide_eq_false in Hsame].
    destruct (Main.command env); [|intros H; discriminate H]. simpl.
    destruct (bool_decide (Main.set_hupmon_environment_variables _ _ _ _ ≠ 0)) eqn:Hset;
      [intros H; discriminate H|apply bool_decide_eq_false in Hset].
    intros H. apply Hw in H as [<- <-].
    split; [done|]. split; [done|]. split; [done|]. split; [done|]. split; [done|].
    split.
    { apply dec_stable in Hsame. unfold Main.same_file in Hsame.
      destruct (Main.stdin_stat env) as [[dev1 ino1]|]; [|discriminate Hsame].
      destruct (Main.stdout_stat env) as [[dev2 ino2]|]; [|discriminate Hsame].
      exists dev1, ino1. split; [done|].
      case_bool_decide as Hdev; [|discriminate Hsame].
      case_bool_decide as Hino; [|discriminate Hsame].
      by subst. }
    split; [done|].
    apply dec_stable in Hset. unfold Main.set_hupmon_environment_variables in Hset.
    by destruct (Main.sprintf env), (Main.setenv_pid env), (Main.ttyname env),
      (Main.setenv_tty env). }
  destruct (Main.action s) eqn:Hact.
  - apply Hrest. right. split; [done|].
    simpl in Ha.
    destruct (last (omap selects (Main.opts env))) as [a|]; simpl in Ha; [by subst|].
    discriminate Ha.
  - apply Hrest. by left.
  - destruct (negb (Main.stdin_tty env)); [intros H; discriminate H|].
    destruct (Main.command env); [intros H; discriminate H|].
    destruct (Status.print_tty_status _ _ _); intros H; discriminate H.
Qed.

Lemma main_wrap_arguments_witness :
  ∃ calls,
    wrapped
      (Main.main
         (Main.Environment false [Main.opt_r (Some 0.5%float); Main.opt_f] true true true
            (Some (2, 7)) (Some (2, 7)) true true true true
            (Session.Environment true true (Some (Termios IXOFF)) true true
               (replicate (Z.to_nat BUFSIZ) 0)
               [Sample.child_output 100 [104; 105]]
               None)
            (Status.Environment (Sample.probe []) true true) (replicate 10 0)))
    = Some ((-1)%float, 0.5%float, calls) ∧
    (0.01 <=? 0.5)%float = true.
Proof.
  eexists. split; [vm_compute; reflexivity|].
  refine (proj1 (main_wrap_arguments
    (Main.Environment false [Main.opt_r (Some 0.5%float); Main.opt_f] true true true
       (Some (2, 7)) (Some (2, 7)) true true true true
       (Session.Environment true true (Some (Termios IXOFF)) true true
          (replicate (Z.to_nat BUFSIZ) 0)
          [Sample.child_output 100 [104; 105]]
          None)
       (Status.Environment (Sample.probe []) true true) (replicate 10 0))
    (-1) 0.5 _ _)).
  vm_compute. reflexivity.
Defined.

Section modes.

Lemma main_wrapped env timeout cprtimeout calls :
  wrapped (Main.main env) = Some (timeout, cprtimeout, calls) →
  ∃ s, Main.options (Main.opts env) Main.defaults = Some s ∧
       timeout = match Main.action s with
                 | Main.ACTION_FLOW_CONTROL_ONLY => (-1)%float
                 | _ => Main.timeout s
                 end ∧
       cprtimeout = Main.deadline s ∧
       ((∃ return_code, Session.wrap (Main.session env) timeout cprtimeout
                        = Session.Returns return_code calls) ∨
        Session.wrap (Main.session env) timeout cprtimeout = Session.Runs calls).
Proof.
  unfold Main.main. destruct (Main.help env); [intros H; discriminate H|].
  destruct (Main.options (Main.opts env) Main.defaults) as [s|];
    [|intros H; discriminate H].
  intros H. exists s. split; [done|]. revert H.
  destruct (Main.action s).
  3: { destruct (negb (Main.stdin_tty env)); [intros H; discriminate H|].
       destruct (Main.command env); [intros H; discriminate H|].
       destruct (Status.print_tty_status _ _ _); intros H; discriminate H. }
  all: destruct (negb (Main.stdin_tty env) || negb (Main.stdout_tty env));
    [intros H; discriminate H|];
    destruct (bool_decide (Main.same_file _ _ ≠ 1)); [intros H; discriminate H|];
    destruct (negb (Main.command env)); [intros H; discriminate H|];
    destruct (bool_decide (Main.set_hupmon_environment_variables _ _ _ _ ≠ 0));
    [intros H; discriminate H|];
    destruct (Session.wrap _ _ _) as [rc calls'|calls'] eqn:Hw;
    intros [= <- <- <-]; rewrite Hw; eauto.
Qed.

Lemma wrap_reaped env timeout cprtimeout return_code calls :
  Session.wrap env timeout cprtimeout = Session.Returns return_code calls →
  return_code = -1 ∨
  Session.Waitpid ∈ calls ∧ return_code = Session.reaped (Session.waitpid env).
Proof.
  unfold Session.wrap.
  destruct (Session.sigaction_installed env); simpl; [|intros [= <- <-]; by left].
  destruct (Session.winsize env); simpl; [|intros [= <- <-]; by left].
  destruct (Session.tcgetattr env) as [old|]; [|intros [= <- <-]; by left].
  destruct (Session.tcsetattr_raw env); simpl; [|intros [= <- <-]; by left].
  destruct (Session.forked env); simpl; [|intros [= <- <-]; by left].
  destruct (Mediator.after <$> last _) as [[| | |]|]; try (intros H; discriminate H).
  intros [= <- <-]. right. split; [|done].
  rewrite !elem_of_cons, elem_of_app, !elem_of_cons. tauto.
Qed.
End modes.

(** X17. The flow-control-only mode never hangs up.  When -f is the last of the
    options -1, -f and -h, [main] passes [wrap] a timeout of -1; and in no
    session in which [poll] keeps from reporting a timeout it was not
    asked for does the loop send SIGHUP to the child, whether [wrap] has
    returned or is still running. *)
Theorem flow_control_only_mode (env : Main.environment) (timeout cprtimeout : float)
    (calls : list Session.call) :
  last (omap selects (Main.opts env)) = Some Main.ACTION_FLOW_CONTROL_ONLY →
  Forall (λ io, Mediator.polled io ≠ PollTimeout) (Session.script (Main.session env)) →
  wrapped (Main.main env) = Some (timeout, cprtimeout, calls) →
  timeout = (-1)%float ∧ Session.Loop (Kill SIGHUP) ∉ calls.
Proof.
  intros Hlast Hscript Hw.
  destruct (main_wrapped _ _ _ _ Hw) as (s & Ho & Ht & _ & Hwrap).
  rewrite (options_action _ _ _ Ho), Hlast in Ht. simpl in Ht. subst timeout.
  split; [done|]. intros Hin.
  pose proof (wrap_loop_calls (Main.session env) (-1) cprtimeout (Kill SIGHUP)) as Hl.
  assert (Hex : ∃ old_tty_attr,
    Kill SIGHUP ∈ Mediator.trace
      (Mediator.run cprtimeout (Session.script (Main.session env))
         (Mediator.enter (-1) old_tty_attr (Session.buffer0 (Main.session env))))).
  { destruct Hwrap as [[rc Hr]|Hr]; rewrite Hr in Hl;
      destruct (Hl Hin) as (old & _ & He); by exists old. }
  destruct Hex as [old He]. revert He. apply hangups_none.
  apply run_unarmed_hangups; [apply unarmed_enter|done].
Qed.

Lemma flow_control_only_mode_witness :
  ∃ calls,
    Main.main
      (Main.Environment false [Main.opt_t (Some 5%float); Main.opt_f] true true true
         (Some (2, 7)) (Some (2, 7)) true true true true
         (Session.Environment true true (Some (Termios IXOFF)) true true
            (replicate (Z.to_nat BUFSIZ) 0)
            [Sample.child_output 100 [104; 105]; Sample.interrupted 0 500]
            None)
         (Status.Environment (Sample.probe []) true true) (replicate 10 0))
    = Main.Runs (-1) 0.2 calls ∧
    Session.Loop (Kill SIGHUP) ∉ calls.
Proof.
  eexists. split; [vm_compute; reflexivity|].
  refine (proj2 (flow_control_only_mode
    (Main.Environment false [Main.opt_t (Some 5%float); Main.opt_f] true true true
       (Some (2, 7)) (Some (2, 7)) true true true true
       (Session.Environment true true (Some (Termios IXOFF)) true true
          (replicate (Z.to_nat BUFSIZ) 0)
          [Sample.child_output 100 [104; 105]; Sample.interrupted 0 500]
          None)
       (Status.Environment (Sample.probe []) true true) (replicate 10 0))
    (-1) 0.2 _ eq_refl _ _)).
  - repeat (apply Forall_cons; split; [intros H; discriminate H|]). by apply Forall_nil.
  - vm_compute. reflexivity.
Defined.

(** X18. The exit status of [main] lies between 0 and 255.  It is 0 after
    --help and 2 when [main] stops before [wrap] and the query, whichever
    check failed.  After the query it is 1 when the line was written and
    could not be flushed and 0 otherwise, whatever state was found.  After
    [wrap] it is 1, or [waitpid] was called and gave a status: then it is
    the child's exit status when the child exited, and 128 plus the number
    of the signal when a signal ended it. *)
Theorem main_exit_status (env : Main.environment) (exit_status : Z) (done : Main.work) :
  Main.main env = Main.Exits exit_status done →
  0 <= exit_status <= 255 ∧
  match done with
  | Main.Nothing => exit_status = if Main.help env then 0 else 2
  | Main.Queried _ _ _ =>
      exit_status = Z.b2z (Status.puts (Main.status env)
                           && negb (Status.fflush (Main.status env)))
  | Main.Wrapped _ _ calls =>
      exit_status = 1 ∨
      ∃ wait_status,
        Session.waitpid (Main.session env) = Some wait_status ∧
        Session.Waitpid ∈ calls ∧
        (Session.WTERMSIG wait_status = 0 ∧
         exit_status = Session.WEXITSTATUS wait_status ∨
         1 <= Session.WTERMSIG wait_status <= 126 ∧
         exit_status = 128 + Session.WTERMSIG wait_status)
  end.
Proof.
  unfold Main.main. destruct (Main.help env); [by intros [= <- <-]|].
  destruct (Main.options (Main.opts env) Main.defaults) as [s|];
    [|by intros [= <- <-]].
  assert (Hwrap : ∀ t,
    match Session.wrap (Main.session env) t (Main.deadline s) with
    | Session.Returns return_code calls =>
        Main.Exits (Main.normalised return_code) (Main.Wrapped t (Main.deadline s) calls)
    | Session.Runs calls => Main.Runs t (Main.deadline s) calls
    end = Main.Exits exit_status done →
    0 <= exit_status <= 255 ∧
    match done with
    | Main.Nothing => exit_status = 2
    | Main.Queried _ _ _ =>
        exit_status = Z.b2z (Status.puts (Main.status env)
                             && negb (Status.fflush (Main.status env)))
    | Main.Wrapped _ _ calls =>
        exit_status = 1 ∨
        ∃ wait_status,
          Session.waitpid (Main.session env) = Some wait_status ∧
          Session.Waitpid ∈ calls ∧
          (Session.WTERMSIG wait_status = 0 ∧
           exit_status = Session.WEXITSTATUS wait_status ∨
           1 <= Session.WTERMSIG wait_status <= 126 ∧
           exit_status = 128 + Session.WTERMSIG wait_status)
    end).
  { intros t. destruct (Session.wrap _ _ _) as [rc calls|calls] eqn:Hw;
      [|intros H; discriminate H].
    intros [= <- <-].
    destruct (wrap_reaped _ _ _ _ _ Hw) as [->|[Hin ->]]; [split; [done|by left]|].
    destruct (reaped_cases (Session.waitpid (Main.session env)))
      as [->|(ws & Hws & [(Ht & Hr & Hb)|(Ht & Hr & Hb)])].
    - split; [done|by left].
    - unfold Main.normalised. rewrite bool_decide_eq_false_2 by lia.
      split; [done|]. right. exists ws. split; [done|]. split; [done|]. by left.
    - unfold Main.normalised. rewrite bool_decide_eq_false_2 by lia.
      split; [lia|]. right. exists ws. split; [done|]. split; [done|]. by right. }
  destruct (Main.action s).
  3: { destruct (negb (Main.stdin_tty env)); [by intros [= <- <-]|].
       destruct (Main.command env); [by intros [= <- <-]|].
       unfold Status.print_tty_status.
       destruct (Probe.ping_tty _ _ _); try (intros H; discriminate H).
       intros [= <- <-].
       by destruct (Status.puts _), (Status.fflush _). }
  all: destruct (negb (Main.stdin_tty env) || negb (Main.stdout_tty env));
    [by intros [= <- <-]|];
    destruct (bool_decide (Main.same_file _ _ ≠ 1)); [by intros [= <- <-]|];
    destruct (negb (Main.command env)); [by intros [= <- <-]|];
    destruct (bool_decide (Main.set_hupmon_environment_variables _ _ _ _ ≠ 0));
    [by intros [= <- <-]|]; apply Hwrap.
Qed.

Lemma main_exit_status_witness :
  ∃ calls,
    Main.main
      (Main.Environment false [Main.opt_f] true true true
         (Some (2, 7)) (Some (2, 7)) true true true true
         (Session.Environment true true (Some (Termios IXOFF)) true true
            (replicate (Z.to_nat BUFSIZ) 0)
            [Sample.turn 100 (PollReady 0 POLLHUP) (Sample.probe []) (ReadData [])]
            (Some 32512))
         (Status.Environment (Sample.probe []) true true) (replicate 10 0))
    = Main.Exits 127 (Main.Wrapped (-1) 0.2 calls) ∧
    Session.Waitpid ∈ calls.
Proof.
  eexists. split; [vm_compute; reflexivity|].
  destruct (main_exit_status
    (Main.Environment false [Main.opt_f] true true true
       (Some (2, 7)) (Some (2, 7)) true true true true
       (Session.Environment true true (Some (Termios IXOFF)) true true
          (replicate (Z.to_nat BUFSIZ) 0)
          [Sample.turn 100 (PollReady 0 POLLHUP) (Sample.probe []) (ReadData [])]
          (Some 32512))
       (Status.Environment (Sample.probe []) true true) (replicate 10 0))
    127 _ ltac:(vm_compute; reflexivity)) as [_ [H|(ws & _ & Hin & _)]].
  - discriminate H.
  - exact Hin.
Defined.

Section child_status.

Ltac no_loop :=
  let H := fresh in
  intros H; repeat (apply elem_of_cons in H as [H|H]; [discriminate H|]);
  by apply elem_of_nil in H.

Lemma wrap_waited env timeout cprtimeout return_code calls :
  Session.wrap env timeout cprtimeout = Session.Returns return_code calls →
  Session.Waitpid ∈ calls →
  return_code = Session.reaped (Session.waitpid env).
Proof.
  unfold Session.wrap.
  destruct (Session.sigaction_installed env); simpl; [|intros [= <- <-]; no_loop].
  destruct (Session.winsize env); simpl; [|intros [= <- <-]; no_loop].
  destruct (Session.tcgetattr env) as [old|]; [|intros [= <- <-]; no_loop].
  destruct (Session.tcsetattr_raw env); simpl; [|intros [= <- <-]; no_loop].
  destruct (Session.forked env); simpl; [|intros [= <- <-]; no_loop].
  destruct (Mediator.after <$> last _) as [[| | |]|]; try (intros H; discriminate H).
  by intros [= <- <-].
Qed.

Lemma main_exits_wrapped env exit_status timeout cprtimeout calls :
  Main.main env = Main.Exits exit_status (Main.Wrapped timeout cprtimeout calls) →
  ∃ return_code,
    Session.wrap (Main.session env) timeout cprtimeout
    = Session.Returns return_code calls ∧
    exit_status = Main.normalised return_code.
Proof.
  unfold Main.main. destruct (Main.help env); [intros H; discriminate H|].
  destruct (Main.options (Main.opts env) Main.defaults) as [s|];
    [|intros H; discriminate H].
  destruct (Main.action s).
  3: { destruct (negb (Main.stdin_tty env)); [intros H; discriminate H|].
       destruct (Main.command env); [intros H; discriminate H|].
       destruct (Status.print_tty_status _ _ _); intros H; discriminate H. }
  all: destruct (negb (Main.stdin_tty env) || negb (Main.stdout_tty env));
    [intros H; discriminate H|];
    destruct (bool_decide (Main.same_file _ _ ≠ 1)); [intros H; discriminate H|];
    destruct (negb (Main.command env)); [intros H; discriminate H|];
    destruct (bool_decide (Main.set_hupmon_environment_variables _ _ _ _ ≠ 0));
    [intros H; discriminate H|];
    destruct (Session.wrap _ _ _) as [rc calls'|calls'] eqn:Hw;
    intros [= <- <- <- <-]; rewrite Hw; eauto.
Qed.

Lemma reaped_exited code :
  0 <= code <= 255 → Session.reaped (Some (code * 256)) = code.
Proof.
  intros Hc. simpl.
  assert (Ht : Session.WTERMSIG (code * 256) = 0).
  { unfold Session.WTERMSIG. change 127 with (Z.ones 7).
    rewrite Z.land_ones by lia. change (2 ^ 7) with 128.
    replace (code * 256) with (code * 2 * 128) by lia. apply Z.mod_mul. lia. }
  unfold Session.WIFEXITED. rewrite bool_decide_eq_true_2 by done.
  unfold Session.WEXITSTATUS.
  rewrite Z.shiftr_land. change (Z.shiftr 65280 8) with (Z.ones 8).
  rewrite Z.land_ones, Z.shiftr_div_pow2 by lia. change (2 ^ 8) with 256.
  rewrite Z.div_mul by lia. apply Z.mod_small. lia.
Qed.

Lemma reaped_signaled sig core :
  1 <= sig <= 126 → core = 0 ∨ core = 128 →
  Session.reaped (Some (sig + core)) = 128 + sig.
Proof.
  intros Hs Hcore. simpl.
  assert (Ht : Session.WTERMSIG (sig + core) = sig).
  { unfold Session.WTERMSIG. change 127 with (Z.ones 7).
    rewrite Z.land_ones by lia. change (2 ^ 7) with 128.
    destruct Hcore as [-> | ->].
    - rewrite Z.add_0_r. apply Z.mod_small. lia.
    - replace (sig + 128) with (sig + 1 * 128) by lia.
      rewrite Z.mod_add by lia. apply Z.mod_small. lia. }
  unfold Session.WIFEXITED. rewrite bool_decide_eq_false_2 by lia.
  assert (Hsig : Session.WIFSIGNALED (sig + core) = true).
  { apply wifsignaled_range. lia. }
  rewrite Hsig, Ht. reflexivity.
Qed.
End child_status.

(** X19. What became of the child is what [main] exits with.  When [wrap] got
    as far as [waitpid]: a child that exited with a code from 0 to 255, the
    126 or 127 of a failed [execvp] among them, gives that code as the exit
    status of [main]; a child ended by signal number 1 to 126, with or
    without a core dump, gives 128 plus that number. *)
Theorem child_status_passed_on (env : Main.environment) (exit_status : Z)
    (timeout cprtimeout : float) (calls : list Session.call) :
  Main.main env = Main.Exits exit_status (Main.Wrapped timeout cprtimeout calls) →
  Session.Waitpid ∈ calls →
  (∀ code, 0 <= code <= 255 →
           Session.waitpid (Main.session env) = Some (code * 256) →
           exit_status = code) ∧
  (∀ sig core, 1 <= sig <= 126 → core = 0 ∨ core = 128 →
               Session.waitpid (Main.session env) = Some (sig + core) →
               exit_status = 128 + sig).
Proof.
  intros Hmain Hin.
  destruct (main_exits_wrapped _ _ _ _ _ Hmain) as (rc & Hwrap & ->).
  rewrite (wrap_waited _ _ _ _ _ Hwrap Hin).
  split.
  - intros code Hc ->. rewrite reaped_exited by done.
    unfold Main.normalised. by rewrite bool_decide_eq_false_2 by lia.
  - intros sig core Hs Hcore ->. rewrite reaped_signaled by done.
    unfold Main.normalised. by rewrite bool_decide_eq_false_2 by lia.
Qed.

Lemma child_status_passed_on_witness :
  ∃ calls,
    Main.main
      (Main.Environment false [Main.opt_h] true true true
         (Some (2, 7)) (Some (2, 7)) true true true true
         (Session.Environment true true (Some (Termios IXOFF)) true true
            (replicate (Z.to_nat BUFSIZ) 0)
            [Sample.turn 100 (PollReady 0 POLLHUP) (Sample.probe []) (ReadData [])]
            (Some (Session.exec_failed 13 * 256)))
         (Status.Environment (Sample.probe []) true true) (replicate 10 0))
    = Main.Exits 126 (Main.Wrapped 10 0.2 calls).
Proof.
  destruct (Main.main
      (Main.Environment false [Main.opt_h] true true true
         (Some (2, 7)) (Some (2, 7)) true true true true
         (Session.Environment true true (Some (Termios IXOFF)) true true
            (replicate (Z.to_nat BUFSIZ) 0)
            [Sample.turn 100 (PollReady 0 POLLHUP) (Sample.probe []) (ReadData [])]
            (Some (Session.exec_failed 13 * 256)))
         (Status.Environment (Sample.probe []) true true) (replicate 10 0)))
    as [es [|t c calls|]| | |] eqn:Hmain; try (vm_compute in Hmain; discriminate Hmain).
  assert (Ht : t = 10%float ∧ c = 0.2%float).
  { vm_compute in Hmain. by injection Hmain as _ <- <- _. }
  destruct Ht as [-> ->].
  exists calls. f_equal.
  assert (Hin : Session.Waitpid ∈ calls).
  { vm_compute in Hmain. injection Hmain as _ <-.
    rewrite !elem_of_cons. tauto. }
  destruct (child_status_passed_on _ _ _ _ _ Hmain Hin) as [Hexit _].
  apply (Hexit 126); [lia|reflexivity].
Defined.

(** ** How the loop ends, and window changes *)

Section loop_ends.

Lemma probe_call_plain e : probe_call e → ¬ resize_call e.
Proof. intros Hp [-> | ->]; exact Hp. Qed.

Lemma ping_tty_waits_calls env reply cprtimeout st trace :
  Probe.ping_tty env reply cprtimeout = Probe.Waits st trace →
  Forall probe_call trace.
Proof.
  unfold Probe.ping_tty.
  destruct (Probe.tcgetattr env) as [tty_attr|]; [|intros H; discriminate H].
  destruct (Probe.tcsetattr_raw env); simpl; [|intros H; discriminate H].
  destruct (Probe.write_cpr env); simpl; [|intros H; discriminate H].
  destruct (Probe.tcdrain env); simpl; [|intros H; discriminate H].
  match goal with |- context [Probe.loop ?a ?s ?st ?tr] =>
    pose proof (loop_calls probe_call a s st tr) as Hl;
    destruct (Probe.loop a s st tr) as [st' tr'|st' tr'|]
  end; intros H; try discriminate H.
  injection H as <- <-. apply Hl; [done|done|]. by repeat constructor.
Qed.

Lemma timed_out_plain cprtimeout io st :
  Forall (λ e, ¬ resize_call e) (Mediator.timed_out cprtimeout io st).2.
Proof.
  assert (Hc : ∀ s b r,
    Forall (λ e, ¬ resize_call e) (Mediator.conclude st s b r).2).
  { intros s b r. unfold Mediator.conclude. destruct (decide _); simpl; [|constructor].
    constructor; [|constructor]. by intros [?|?]. }
  unfold Mediator.timed_out. case_bool_decide; [|apply Hc].
  destruct (Probe.ping_tty _ _ _) as [r|st' tr|] eqn:Hp; [| |constructor].
  - specialize (Hc (Probe.returned r) (Probe.buffer r) (Probe.length r)).
    destruct (Mediator.conclude _ _ _ _) as [fl sig]. simpl in *.
    apply Forall_app. split.
    + eapply Forall_impl; [by eapply ping_tty_calls|]. apply probe_call_plain.
    + apply Forall_app. split; [|done].
      case_bool_decide; [|constructor]. constructor; [|constructor]. by intros [?|?].
  - simpl. eapply Forall_impl; [by eapply ping_tty_waits_calls|].
    apply probe_call_plain.
Qed.

Lemma from_tty_plain io st :
  Forall (λ e, ¬ resize_call e) (Mediator.from_tty io st).2.
Proof.
  unfold Mediator.from_tty. case_bool_decide; [constructor|].
  destruct (PFDALIVE _); simpl; [|constructor].
  destruct (Mediator.sys_read _ _) as [received' buffer'].
  case_bool_decide; [constructor; [by intros [?|?]|constructor]|].
  destruct (if bool_decide _ then _ else _) as [[[b r] t]|]; simpl; [|constructor].
  constructor; [by intros [?|?]|].
  case_bool_decide; [|constructor]. constructor; [by intros [?|?]|constructor].
Qed.

Lemma from_child_plain io st :
  Forall (λ e, ¬ resize_call e) (Mediator.from_child io st).2.
Proof.
  unfold Mediator.from_child.
  destruct (PFDALIVE _); simpl; [|constructor].
  destruct (_ && _); [|constructor].
  destruct (Mediator.sys_read _ _) as [received' buffer'].
  case_bool_decide; repeat (constructor; [by intros [?|?]|]); constructor.
Qed.

Lemma dispatch_plain cprtimeout io st :
  Forall (λ e, ¬ resize_call e) (Mediator.dispatch cprtimeout io st).2.
Proof.
  unfold Mediator.dispatch. destruct (Mediator.polled io) as [errno| |r0 r1].
  - case_bool_decide; constructor.
  - apply timed_out_plain.
  - pose proof (from_tty_plain io st) as Ht.
    destruct (Mediator.from_tty io st) as [[st'| | |] calls]; try done.
    pose proof (from_child_plain io st') as Hc.
    destruct (Mediator.from_child io st') as [fl calls']. simpl in *.
    apply Forall_app. by split.
Qed.

Lemma sys_read_ended r buffer :
  (Mediator.sys_read r buffer).1 <= 0 → ended r.
Proof.
  destruct r as [[|b data]|errno]; simpl; try done.
Qed.

Lemma from_tty_next io st st3 calls :
  Mediator.from_tty io st = (Mediator.Next st3, calls) →
  Mediator.revents1 st3 = Mediator.revents1 st.
Proof.
  unfold Mediator.from_tty.
  destruct (bool_decide (Mediator.revents0 st = 0)); [intros Heq; by inversion Heq|].
  destruct (PFDALIVE _); simpl; [|intros Heq; discriminate Heq].
  destruct (Mediator.sys_read _ _) as [received' buffer'].
  destruct (bool_decide (received' <= 0)); [intros Heq; discriminate Heq|].
  destruct (if bool_decide _ then _ else _) as [[[b r] t]|];
    [|intros Heq; discriminate Heq].
  intros Heq. by inversion Heq.
Qed.

Lemma from_tty_exit io st st3 calls :
  Mediator.from_tty io st = (Mediator.Exit st3, calls) →
  Mediator.revents0 st ≠ 0 ∧
  (PFDALIVE (Mediator.revents0 st) = false ∨ ended (Mediator.tty_read io)).
Proof.
  unfold Mediator.from_tty.
  destruct (bool_decide (Mediator.revents0 st = 0)) eqn:Hz;
    [intros Heq; discriminate Heq|apply bool_decide_eq_false in Hz].
  destruct (PFDALIVE _); simpl; [|intros _; by split; [|left]].
  pose proof (sys_read_ended (Mediator.tty_read io) (Mediator.buffer st)) as Hend.
  destruct (Mediator.sys_read _ _) as [received' buffer']. simpl in Hend.
  destruct (bool_decide (received' <= 0)) eqn:Hle.
  - apply bool_decide_eq_true in Hle. intros _. split; [done|right; by apply Hend].
  - destruct (if bool_decide _ then _ else _) as [[[b r] t]|];
      intros Heq; discriminate Heq.
Qed.

Lemma from_child_exit io st st3 calls :
  Mediator.from_child io st = (Mediator.Exit st3, calls) →
  PFDALIVE (Mediator.revents1 st) = false ∨
  Mediator.revents1 st ≠ 0 ∧ ended (Mediator.child_read io).
Proof.
  unfold Mediator.from_child.
  destruct (PFDALIVE _); simpl; [|intros _; by left].
  destruct (bool_decide (Mediator.txok st ≠ 0)); simpl; [|intros Heq; discriminate Heq].
  destruct (bool_decide (Mediator.revents1 st ≠ 0)) eqn:Hr1; simpl;
    [apply bool_decide_eq_true in Hr1|intros Heq; discriminate Heq].
  pose proof (sys_read_ended (Mediator.child_read io) (Mediator.buffer st)) as Hend.
  destruct (Mediator.sys_read _ _) as [received' buffer']. simpl in Hend.
  destruct (bool_decide (received' <= 0)) eqn:Hle; [|intros Heq; discriminate Heq].
  apply bool_decide_eq_true in Hle. intros _. right. split; [done|by apply Hend].
Qed.

Lemma plain_not_in e evs :
  resize_call e → Forall (λ e, ¬ resize_call e) evs → e ∉ evs.
Proof. intros He Hall Hin. rewrite Forall_forall in Hall. by apply (Hall e). Qed.

Lemma resize_tail earlier io :
  Forall (λ e, ¬ resize_call e) earlier →
  (SetWinsize ∈ earlier ++ Mediator.resize io ↔
   Mediator.sigwinch_pending io = true ∧ Mediator.winsize_read io = true) ∧
  (Kill SIGWINCH ∈ earlier ++ Mediator.resize io ↔
   Mediator.sigwinch_pending io = true ∧ Mediator.winsize_read io = true ∧
   Mediator.winsize_set io = true) ∧
  (Kill SIGWINCH ∈ earlier ++ Mediator.resize io →
   earlier ++ Mediator.resize io = earlier ++ [SetWinsize; Kill SIGWINCH]).
Proof.
  intros Hall.
  pose proof (plain_not_in SetWinsize earlier (or_introl eq_refl) Hall) as Hs.
  pose proof (plain_not_in (Kill SIGWINCH) earlier (or_intror eq_refl) Hall) as Hk.
  unfold Mediator.resize.
  destruct (Mediator.sigwinch_pending io), (Mediator.winsize_read io),
    (Mediator.winsize_set io);
    rewrite !elem_of_app, ?elem_of_cons, ?elem_of_nil; intuition congruence.
Qed.
End loop_ends.

(** X20. The loop ends only for one of five reasons: [poll] fails for another
    reason than a signal; the terminal is reported hung up, in error or
    invalid; a [read] from the terminal fails or finds the end of input; the
    child's descriptor is reported so; or a [read] from the child fails or
    finds the end of input.  Nothing else makes a turn [break]: no probe's
    outcome, no failed [write], no failed [tcgetattr] or [ioctl]. *)
Theorem loop_exit_causes (cprtimeout : float) (io : Mediator.turn)
    (st st' : Mediator.locals) :
  (Mediator.body cprtimeout io st).1 = Mediator.Exit st' →
  (∃ errno, Mediator.polled io = PollFailed errno ∧ errno ≠ EINTR) ∨
  ∃ r0 r1, Mediator.polled io = PollReady r0 r1 ∧
    (r0 ≠ 0 ∧ PFDALIVE r0 = false ∨
     r0 ≠ 0 ∧ ended (Mediator.tty_read io) ∨
     PFDALIVE (child_revents st r1) = false ∨
     child_revents st r1 ≠ 0 ∧ ended (Mediator.child_read io)).
Proof.
  unfold Mediator.body.
  destruct (arm_keeps io st) as (Ha1 & _).
  set (st1 := Mediator.arm io st) in *.
  assert (Hn : Mediator.nfds st1 = if bool_decide (Mediator.txok st ≠ 0) then 2 else 1).
  { unfold Mediator.nfds. by rewrite Ha1. }
  assert (Hrev1 : ∀ r0 r1,
    Mediator.revents1 (Mediator.polled_revents (Mediator.nfds st1) (PollReady r0 r1) st1)
    = child_revents st r1).
  { intros r0 r1. unfold child_revents. simpl. rewrite Hn.
    case_bool_decide; simpl; [done|].
    subst st1. unfold Mediator.arm. by destruct (Mediator.finite _). }
  unfold Mediator.dispatch.
  destruct (Mediator.polled io) as [errno| |r0 r1] eqn:Hp.
  - destruct (bool_decide (errno ≠ EINTR)) eqn:He; cbn [fst];
      [apply bool_decide_eq_true in He|intros Heq; discriminate Heq].
    intros _. left. by exists errno.
  - pose proof (timed_out_txok cprtimeout io
      (Mediator.polled_revents (Mediator.nfds st1) PollTimeout st1)) as Ht.
    destruct (Mediator.timed_out _ _ _) as [fl evs].
    specialize (Ht fl evs eq_refl). destruct fl; try done; intros Heq; discriminate Heq.
  - intros Hexit. right. exists r0, r1. split; [done|].
    specialize (Hrev1 r0 r1).
    set (st2 := Mediator.polled_revents _ _ st1) in *.
    assert (Hrev0 : Mediator.revents0 st2 = r0) by done.
    pose proof (from_tty_next io st2) as Hnext.
    pose proof (from_tty_exit io st2) as Htty.
    destruct (Mediator.from_tty io st2) as [[st3|st3| |] calls]; simpl in Hexit;
      try discriminate Hexit.
    + specialize (Hnext st3 calls eq_refl). rewrite Hrev1 in Hnext.
      pose proof (from_child_exit io st3) as Hchild. rewrite Hnext in Hchild.
      destruct (Mediator.from_child io st3) as [[st4|st4| |] calls']; simpl in Hexit;
        try discriminate Hexit.
      destruct (Hchild st4 calls' eq_refl) as [Hd|[Hr He]]; tauto.
    + destruct (Htty st3 calls eq_refl) as [Hz [Hd|He]]; rewrite Hrev0 in *; tauto.
Qed.

Lemma loop_exit_causes_witness :
  ∃ st', (Mediator.body 0.2
            (Mediator.Turn (Some (Timespec 100 0)) (PollReady 0 POLLIN) (Sample.probe [])
               (ReadData []) None (ReadFailed 5) false false false None)
            (Sample.entered 10)).1 = Mediator.Exit st' ∧
         ended (ReadFailed 5).
Proof.
  eexists. split; [vm_compute; reflexivity|].
  destruct (loop_exit_causes 0.2
    (Mediator.Turn (Some (Timespec 100 0)) (PollReady 0 POLLIN) (Sample.probe [])
       (ReadData []) None (ReadFailed 5) false false false None)
    (Sample.entered 10) _ ltac:(vm_compute; reflexivity))
    as [(errno & Hp & _)|(r0 & r1 & Hp & [[Hr _]|[[Hr _]|[Ha|[_ He]]]])].
  - discriminate Hp.
  - injection Hp as <- <-. by destruct Hr.
  - injection Hp as <- <-. by destruct Hr.
  - injection Hp as <- <-. vm_compute in Ha. discriminate Ha.
  - exact He.
Defined.

(** X21. A change of the window size is passed on at the end of a turn that
    goes round again, and nowhere else.  The child's size is set exactly
    when the flag is up and the terminal's size could be read; SIGWINCH is
    sent exactly when, besides, the size could be set, and then as the
    turn's last call, straight after the size was set.  A turn that leaves
    the loop makes no such call. *)
Theorem window_change_forwarded (cprtimeout : float) (io : Mediator.turn)
    (st : Mediator.locals) :
  (SetWinsize ∈ (Mediator.body cprtimeout io st).2 ↔
   continues (Mediator.body cprtimeout io st).1 ∧
   Mediator.sigwinch_pending io = true ∧ Mediator.winsize_read io = true) ∧
  (Kill SIGWINCH ∈ (Mediator.body cprtimeout io st).2 ↔
   continues (Mediator.body cprtimeout io st).1 ∧
   Mediator.sigwinch_pending io = true ∧ Mediator.winsize_read io = true ∧
   Mediator.winsize_set io = true) ∧
  (Kill SIGWINCH ∈ (Mediator.body cprtimeout io st).2 →
   ∃ earlier,
     (Mediator.body cprtimeout io st).2 = earlier ++ [SetWinsize; Kill SIGWINCH] ∧
     Forall (λ e, ¬ resize_call e) earlier).
Proof.
  unfold Mediator.body.
  set (st1 := Mediator.arm io st).
  set (st2 := Mediator.polled_revents _ _ _).
  pose proof (dispatch_plain cprtimeout io st2) as Hd.
  assert (Hpoll : ¬ resize_call (Poll (Mediator.nfds st1) (Mediator.polltimeoutms st1)))
    by by intros [?|?].
  destruct (Mediator.dispatch cprtimeout io st2) as [fl evs]. cbn [snd] in Hd.
  assert (Hall : Forall (λ e, ¬ resize_call e)
                   (Poll (Mediator.nfds st1) (Mediator.polltimeoutms st1) :: evs))
    by by constructor.
  pose proof (plain_not_in SetWinsize _ (or_introl eq_refl) Hall) as Hs.
  pose proof (plain_not_in (Kill SIGWINCH) _ (or_intror eq_refl) Hall) as Hk.
  destruct fl as [st3|st3| |]; cbn [fst snd continues].
  2-4: split; [|split]; [split; [done|tauto]|split; [done|tauto]|done].
  rewrite app_comm_cons.
  destruct (resize_tail _ io Hall) as (Hset & Hkill & Hlast).
  split; [|split].
  - rewrite Hset. tauto.
  - rewrite Hkill. tauto.
  - intros Hin. eexists. split; [by apply Hlast|done].
Qed.

(** X22. The child's output reaches the terminal as it is.  In a turn in which
    transmission is on, the terminal has nothing to say and the child is
    readable, what [read] delivers of the child's output is written to the
    terminal byte for byte, nothing is written to the child, and the loop
    goes round again. *)
Theorem child_output_forwarded (cprtimeout : float) (io : Mediator.turn)
    (st : Mediator.locals) (r1 : Z) (data : list Z) :
  Mediator.txok st ≠ 0 →
  Mediator.polled io = PollReady 0 r1 → r1 ≠ 0 → PFDALIVE r1 = true →
  Mediator.child_read io = ReadData data →
  (0 < length data ≤ Z.to_nat BUFSIZ)%nat →
  Mediator.written ttyfd (Mediator.body cprtimeout io st).2 = data ∧
  Mediator.written childfd (Mediator.body cprtimeout io st).2 = [] ∧
  ∃ st', (Mediator.body cprtimeout io st).1 = Mediator.Next st' ∧
         take (length data) (Mediator.buffer st') = data ∧
         Mediator.received st' = Z.of_nat (length data).
Proof.
  intros Htx Hp Hr1 Ha Hread Hlen. unfold Mediator.body.
  destruct (arm_keeps io st) as (Ha1 & Ha2 & _).
  set (st1 := Mediator.arm io st) in *.
  assert (Hn : Mediator.nfds st1 = 2).
  { unfold Mediator.nfds. rewrite Ha1. by rewrite bool_decide_eq_true_2. }
  rewrite Hn, Hp. unfold Mediator.dispatch. rewrite Hp.
  unfold Mediator.from_tty. simpl Mediator.revents0.
  rewrite bool_decide_eq_true_2 by done.
  unfold Mediator.from_child. simpl. rewrite Ha, Ha1. simpl.
  rewrite (bool_decide_eq_true_2 _ Htx), (bool_decide_eq_true_2 _ Hr1). simpl.
  rewrite Hread. unfold Mediator.sys_read.
  rewrite (take_ge data) by lia.
  rewrite bool_decide_eq_false_2 by lia. simpl.
  assert (Htake : take (Z.to_nat (Z.of_nat (length data)))
                       (data ++ drop (length data) (Mediator.buffer st1)) = data).
  { rewrite Nat2Z.id. by rewrite take_app_length. }
  rewrite Htake.
  assert (Hres : Mediator.written ttyfd (Mediator.resize io) = []).
  { unfold Mediator.resize.
    by destruct (Mediator.sigwinch_pending io), (Mediator.winsize_read io),
      (Mediator.winsize_set io). }
  split; [|split].
  - by rewrite Hres, app_nil_r.
  - apply resize_written.
  - eexists. split; [done|].
    unfold Mediator.account. rewrite Hp. simpl. split; [|done].
    by rewrite take_app_length.
Qed.

Lemma child_output_forwarded_witness :
  Mediator.written ttyfd
    (Mediator.body 0.2 (Sample.child_output 100 [104; 105]) (Sample.entered 10)).2
  = [104; 105].
Proof.
  apply (child_output_forwarded 0.2 (Sample.child_output 100 [104; 105])
           (Sample.entered 10) POLLIN [104; 105]).
  - discriminate.
  - reflexivity.
  - discriminate.
  - reflexivity.
  - reflexivity.
  - vm_compute. lia.
Defined.
